(** * FumoFinder: match evaluator, episode labels and dispatch core

    A shallow embedding of [internal/model/response.go] and
    [internal/identifier/episode_identifier.go], with the properties the
    specification states about them, followed by the frame extractor, the
    proxy loader and the file renamer, with further properties of the
    code.

    Conventions of the embedding.
    - Go's [float64] is modelled by [Q]: every number the recognition
      service can send is a finite decimal literal, timestamps are whole
      seconds, and the arithmetic of the source ([+], [-], [* 100]) is taken
      exactly; binary rounding, NaN and the infinities are outside the model.
    - Go's [int] is a 64-bit integer, modelled by [Z] with the wrap-around of
      [++] written out in [int_incr].
    - Go maps are [gmap]s; reading an absent key yields the zero value.
    - What the file system and the network answer is an input ([Fetch]);
      what [select] and the iteration over a map choose is an input too
      ([pick]). Standard output is the list of the texts printed.
    - A [processFrames] goroutine takes two kinds of steps: the [select]
      (lines 370-384 and 431-438) and the handling of the frame it has
      received (lines 386-429). Workers are interleaved step by step; a step
      is atomic, the mutexes of the source are not spelled out. *)

From Stdlib Require Import ZArith QArith Qround Qabs Lia Lqa Ascii String List Bool DecimalString.
From Stdlib Require DecimalPos.
From stdpp Require Import base option gmap strings list.

Local Open Scope string_scope.

(** ** The parts of Go's runtime library the source calls *)

Module Go.

(** [int]: 64-bit two's complement. *)
Definition int_wrap (z : Z) : Z := ((z + 2 ^ 63) mod 2 ^ 64 - 2 ^ 63)%Z.
Definition int_incr (z : Z) : Z := int_wrap (z + 1).
Definition max_int : Z := (2 ^ 63 - 1)%Z.

(** [float64] comparisons. *)
Definition float64 : Type := Q.
Bind Scope Q_scope with float64.
Definition fle (a b : float64) : bool := Qle_bool a b.
Definition flt (a b : float64) : bool := negb (Qle_bool b a).
Definition feq (a b : float64) : bool := Qeq_bool a b.

Definition nl : string := String (ascii_of_nat 10) EmptyString.

(** [%d]. *)
Definition fmt_d (z : Z) : string := NilZero.string_of_int (Z.to_int z).

Fixpoint zeros (n : nat) : string :=
  match n with O => "" | S k => "0" +:+ zeros k end.

Definition pad0 (width : nat) (s : string) : string :=
  zeros (width - String.length s) +:+ s.

(** Rounding to the nearest integer, ties to even, of a non-negative
    rational: what [%.Nf] does with the exact value. *)
Definition round_half_even (q : Q) : Z :=
  let n := Qfloor q in
  match Qcompare (q - inject_Z n) (1 # 2) with
  | Lt => n
  | Gt => (n + 1)%Z
  | Eq => if Z.even n then n else (n + 1)%Z
  end.

(** [%.Nf]: sign, integer part, and [prec] fraction digits. A negative
    value that rounds to zero keeps its sign, as in Go. *)
Definition fmt_f (prec : nat) (q : float64) : string :=
  let p := (10 ^ Z.of_nat prec)%Z in
  let m := round_half_even (Qabs q * inject_Z p) in
  (if flt q 0%Q then "-" else "")
    +:+ fmt_d (m / p)
    +:+ match prec with
        | O => ""
        | S _ => "." +:+ pad0 prec (fmt_d (m mod p))
        end.

(** *** strconv.ParseFloat, decimal grammar

    [sign? digits? (. digits?)? ((e|E) sign? digits)?] with at least one
    mantissa digit and nothing left over. The other spellings Go accepts
    (hexadecimal mantissas, [inf], [infinity], [nan]) denote no finite
    decimal and are syntax errors here; there is no range error. *)
Definition digit_of (c : ascii) : option Z :=
  let n := Z.of_nat (nat_of_ascii c) in
  if ((48 <=? n) && (n <=? 57))%Z then Some (n - 48)%Z else None.

Fixpoint read_digits (s : string) (acc : Z) (n : nat) : Z * nat * string :=
  match s with
  | String c r =>
      match digit_of c with
      | Some d => read_digits r (10 * acc + d)%Z (S n)
      | None => (acc, n, s)
      end
  | EmptyString => (acc, n, s)
  end.

Definition read_sign (s : string) : bool * string :=
  match s with
  | String "-" r => (true, r)
  | String "+" r => (false, r)
  | _ => (false, s)
  end.

Definition read_exponent (s : string) : option (Z * string) :=
  match s with
  | String c r =>
      if (Ascii.eqb c "e" || Ascii.eqb c "E")%bool then
        let '(neg, r1) := read_sign r in
        let '(e, n, r2) := read_digits r1 0%Z O in
        match n with
        | O => None
        | S _ => Some (if neg then (- e)%Z else e, r2)
        end
      else Some (0%Z, s)
  | EmptyString => Some (0%Z, s)
  end.

Definition scale10 (m e : Z) : Q :=
  match e with
  | Zneg p => Qmake m (10 ^ p)%positive
  | _ => inject_Z (m * 10 ^ e)
  end.

Definition ParseFloat (s : string) : option float64 :=
  let '(neg, s1) := read_sign s in
  let '(ip, ni, s2) := read_digits s1 0%Z O in
  let '(m, nf, s3) :=
    match s2 with
    | String "." r => let '(m, nf, r') := read_digits r ip O in (m, nf, r')
    | _ => (ip, O, s2)
    end in
  match (ni + nf)%nat with
  | O => None
  | S _ =>
      match read_exponent s3 with
      | Some (e, EmptyString) =>
          Some (scale10 (if neg then (- m)%Z else m) (e - Z.of_nat nf))
      | _ => None
      end
  end.

(** *** strings *)
Fixpoint CutPrefix (p s : string) : option string :=
  match p, s with
  | EmptyString, _ => Some s
  | String a p', String b s' => if Ascii.eqb a b then CutPrefix p' s' else None
  | String _ _, EmptyString => None
  end.

(** [strings.Cut]: the text before and after the first occurrence of
    [sep]. *)
Fixpoint Cut (sep s : string) : option (string * string) :=
  match CutPrefix sep s with
  | Some r => Some ("", r)
  | None =>
      match s with
      | String c s' =>
          match Cut sep s' with
          | Some (a, b) => Some (String c a, b)
          | None => None
          end
      | EmptyString => None
      end
  end.

Definition Contains (s substr : string) : bool :=
  bool_decide (is_Some (Cut substr s)).

Fixpoint Split_go (fuel : nat) (sep s : string) : list string :=
  match fuel with
  | O => [s]
  | S f =>
      match Cut sep s with
      | Some (a, b) => a :: Split_go f sep b
      | None => [s]
      end
  end.

(** [strings.Split] for a non-empty separator. *)
Definition Split (s sep : string) : list string :=
  Split_go (String.length s) sep s.

Fixpoint rev_string (s : string) : string :=
  match s with
  | EmptyString => ""
  | String c r => rev_string r +:+ String c ""
  end.

Definition TrimSuffix (s suffix : string) : string :=
  match CutPrefix (rev_string suffix) (rev_string s) with
  | Some r => rev_string r
  | None => s
  end.

Fixpoint Join (sep : string) (l : list string) : string :=
  match l with
  | [] => ""
  | [x] => x
  | x :: r => x +:+ sep +:+ Join sep r
  end.

(** *** path/filepath, with [/] as the separator *)
Fixpoint trim_slashes (r : string) : string :=
  match r with
  | String "/" r' => trim_slashes r'
  | _ => r
  end.

(** The reversed last element of a reversed path. *)
Fixpoint upto_slash (r : string) : string :=
  match r with
  | String "/" _ => ""
  | String c r' => String c (upto_slash r')
  | EmptyString => ""
  end.

Fixpoint from_slash (r : string) : string :=
  match r with
  | String "/" _ => r
  | String _ r' => from_slash r'
  | EmptyString => ""
  end.

Definition Base (path : string) : string :=
  match path with
  | EmptyString => "."
  | _ =>
      match rev_string (upto_slash (trim_slashes (rev_string path))) with
      | EmptyString => "/"
      | b => b
      end
  end.

Definition clean_step (rooted : bool) (out : list string) (c : string)
  : list string :=
  if String.eqb c "" || String.eqb c "." then out
  else if String.eqb c ".." then
    match out with
    | top :: rest => if String.eqb top ".." then c :: out else rest
    | [] => if rooted then out else [c]
    end
  else c :: out.

Definition Clean (path : string) : string :=
  let rooted := match path with String "/" _ => true | _ => false end in
  let out := fold_left (clean_step rooted) (Split path "/") [] in
  match (if rooted then "/" else "") +:+ Join "/" (rev out) with
  | EmptyString => "."
  | p => p
  end.

Definition Dir (path : string) : string :=
  Clean (rev_string (from_slash (rev_string path))).

(** *** time.Parse with the layout ["15-04-05"]

    Hour of one or two digits below 24, minute and second of exactly two
    digits below 60, [-] between them, an optional fraction of a second
    ([.] or [,] and digits) that [Second()] ignores, and nothing after. *)
Definition two_digits (s : string) : option (Z * string) :=
  match s with
  | String a (String b r) =>
      match digit_of a, digit_of b with
      | Some x, Some y => Some ((10 * x + y)%Z, r)
      | _, _ => None
      end
  | _ => None
  end.

Definition hour_digits (s : string) : option (Z * string) :=
  match two_digits s with
  | Some r => Some r
  | None =>
      match s with
      | String a r => match digit_of a with Some x => Some (x, r) | None => None end
      | EmptyString => None
      end
  end.

Definition skip_fraction (s : string) : string :=
  match s with
  | String c (String d r) =>
      if ((Ascii.eqb c "." || Ascii.eqb c ",") && bool_decide (is_Some (digit_of d)))%bool
      then let '(_, _, r') := read_digits r 0%Z O in r'
      else s
  | _ => s
  end.

Definition Parse_15_04_05 (value : string) : option (Z * Z * Z) :=
  h ← hour_digits value;
  if (24 <=? h.1)%Z then None else
  v1 ← CutPrefix "-" h.2;
  m ← two_digits v1;
  if (60 <=? m.1)%Z then None else
  v2 ← CutPrefix "-" m.2;
  s ← two_digits v2;
  if (60 <=? s.1)%Z then None else
  match skip_fraction s.2 with
  | EmptyString => Some (h.1, m.1, s.1)
  | _ => None
  end.

(** *** fmt, time and path/filepath, continued *)

(** [%0Nd]: the sign, then zeros up to the width, then the digits. *)
Definition fmt_0d (width : nat) (z : Z) : string :=
  if (z <? 0)%Z then "-" +:+ pad0 (width - 1) (fmt_d (- z))
  else pad0 width (fmt_d z).

Definition HasPrefix (s prefix : string) : bool :=
  bool_decide (is_Some (CutPrefix prefix s)).

(** The conversion of a [float64] to an integer type: towards zero. *)
Definition trunc (q : float64) : Z :=
  if Qle_bool 0 q then Qfloor q else Qceiling q.

(** [time.Duration]: a number of nanoseconds. [int(d.Hours())],
    [int(d.Minutes())] and [int(d.Seconds())] are the quotients towards
    zero. *)
Definition Second : Z := (10 ^ 9)%Z.
Definition Minute : Z := (60 * Second)%Z.
Definition Hour : Z := (60 * Minute)%Z.
Definition Duration (x : float64) : Z := trunc x.
Definition Hours (d : Z) : Z := Z.quot d Hour.
Definition Minutes (d : Z) : Z := Z.quot d Minute.
Definition Seconds (d : Z) : Z := Z.quot d Second.

(** [filepath.Join]: the elements from the first non-empty one on, joined
    and cleaned. *)
Fixpoint filepath_Join (elem : list string) : string :=
  match elem with
  | [] => ""
  | e :: rest =>
      if String.eqb e "" then filepath_Join rest else Clean (Join "/" elem)
  end.

(** [filepath.Ext], scanning the reversed path: the suffix from the last
    dot of the last element on. *)
Fixpoint ext_scan (r acc : string) : string :=
  match r with
  | EmptyString => ""
  | String c r' =>
      if Ascii.eqb c "/" then ""
      else if Ascii.eqb c "." then String c acc
      else ext_scan r' (String c acc)
  end.

Definition Ext (path : string) : string := ext_scan (rev_string path) "".

(** [strings.ReplaceAll] of one byte by another. *)
Fixpoint ReplaceAll_byte (s : string) (old new : ascii) : string :=
  match s with
  | EmptyString => ""
  | String c r =>
      String (if Ascii.eqb c old then new else c) (ReplaceAll_byte r old new)
  end.

End Go.

(** ** internal/model/response.go *)

Module Model.
Import Go.

(** The JSON text handed to an [UnmarshalJSON] method, by the kind of
    value it spells. [JNumber] carries the literal, [JString] the decoded
    content, [JComposite] the raw text of an array or object. *)
Inductive JSONValue : Type :=
| JNull
| JBool (b : bool)
| JNumber (lit : string)
| JString (s : string)
| JComposite (raw : string).

Definition dquote : string := String (ascii_of_nat 34) EmptyString.

(** [string(data)]. Escapes inside string literals are not spelled out;
    no caller reaches that case. *)
Definition json_raw (data : JSONValue) : string :=
  match data with
  | JNull => "null"
  | JBool true => "true"
  | JBool false => "false"
  | JNumber lit => lit
  | JString s => dquote +:+ s +:+ dquote
  | JComposite raw => raw
  end.

(** [json.Unmarshal(data, &num)] for [num float64]: the new value of
    [num], or [None] for an error. [null] leaves the target as it is. *)
Definition Unmarshal_float64 (data : JSONValue) (num : float64) : option float64 :=
  match data with
  | JNull => Some num
  | JNumber lit => ParseFloat lit
  | _ => None
  end.

(** [json.Unmarshal(data, &str)] for [str string]. *)
Definition Unmarshal_string (data : JSONValue) (str : string) : option string :=
  match data with
  | JNull => Some str
  | JString s => Some s
  | _ => None
  end.

Record EpisodeNumber : Type := { Number : float64; Raw : string }.

Definition zero_EpisodeNumber : EpisodeNumber := {| Number := 0%Q; Raw := "" |}.

(** [func (e *EpisodeNumber) UnmarshalJSON(data []byte) error]: the
    receiver after the call and the error, if any. *)
Definition UnmarshalJSON (e : EpisodeNumber) (data : JSONValue)
  : EpisodeNumber * option string :=
  match Unmarshal_float64 data 0%Q with
  | Some num => ({| Number := num; Raw := fmt_f 0 num |}, None)
  | None =>
      match Unmarshal_string data "" with
      | Some str =>
          match ParseFloat str with
          | Some parsedNum =>
              ({| Number := parsedNum; Raw := fmt_f 0 parsedNum |}, None)
          | None => ({| Number := Number e; Raw := str |}, None)
          end
      | None =>
          ({| Number := Number e; Raw := json_raw data |},
           Some ("failed to unmarshal episode number: " +:+ json_raw data))
      end
  end.

(** [func (e EpisodeNumber) String() string]. *)
Definition String_ (e : EpisodeNumber) : string :=
  if negb (feq (Number e) 0%Q) then fmt_f 0 (Number e) else Raw e.

(** Decoding an [episode] field of a fresh response. *)
Definition decodeEpisode (data : JSONValue) : EpisodeNumber :=
  (UnmarshalJSON zero_EpisodeNumber data).1.

Record Title : Type := { Native : string; Romaji : string; English : string }.

Record AnilistInfo : Type := {
  ID : Z;
  IDMal : Z;
  Title_ : Title;
  Synonyms : list string;
  IsAdult : bool;
  Raw_ : option JSONValue
}.

Record TraceMoeResult : Type := {
  Anilist : AnilistInfo;
  Filename : string;
  Episode : EpisodeNumber;
  From : float64;
  To : float64;
  Similarity : float64;
  Video : string;
  Image : string
}.

Record TraceMoeResponse : Type := {
  FrameCount : Z;
  Error : string;
  Result : list TraceMoeResult
}.

End Model.

(** ** internal/identifier/episode_identifier.go *)

Module Identifier.
Import Go.

Record MatchInfo : Type := {
  AnilistID : Z;
  MalID : Z;
  TitleNative : string;
  TitleRomaji : string;
  TitleEnglish : string;
  Synonyms : list string;
  IsAdult : bool;
  Episode : Model.EpisodeNumber;
  Similarity : float64;
  Timestamp : float64;
  From : float64;
  To : float64;
  VideoName : string;
  FrameName : string;
  MatchedRange : string;
  ProxyUsed : string;
  VideoURL : string;
  ImageURL : string
}.

(** A [*http.Client] is known by its address. *)
Definition Client : Type := positive.

(** The fields of [EpisodeIdentifier] that carry data. The mutexes, the
    wait group and the per-client locks only delimit the atomic updates
    below; [done] tells whether the [done] channel has been closed. *)
Record EpisodeIdentifier : Type := {
  apiEndpoint : string;
  aniListID : Z;
  Matches : list MatchInfo;
  httpClients : gmap Client string;
  frameCounts : gmap string Z;
  failCounts : gmap string Z;
  brokenProxies : gmap string bool;
  done : bool;
  channelClosed : bool;
  completionChan : bool
}.

(** A buffered [chan string]. *)
Record Chan : Type := { buf : list string; cap : nat; closed : bool }.

(** What a run acts on: the identifier, the frame channel made by
    [IdentifyEpisodes], standard output, and two observations used to
    state properties: the calls of [IdentifyEpisode] made so far (proxy,
    frame) and whether a send on a closed channel has panicked. *)
Record World : Type := {
  ei : EpisodeIdentifier;
  frames : Chan;
  stdout : list string;
  calls : list (string * string);
  panicked : bool
}.

Definition with_ei (f : EpisodeIdentifier -> EpisodeIdentifier) (w : World) : World :=
  {| ei := f (ei w); frames := frames w; stdout := stdout w;
     calls := calls w; panicked := panicked w |}.

Definition with_frames (f : Chan -> Chan) (w : World) : World :=
  {| ei := ei w; frames := f (frames w); stdout := stdout w;
     calls := calls w; panicked := panicked w |}.

Definition print (line : string) (w : World) : World :=
  {| ei := ei w; frames := frames w; stdout := stdout w ++ [line];
     calls := calls w; panicked := panicked w |}.

Definition note_call (proxyURL imagePath : string) (w : World) : World :=
  {| ei := ei w; frames := frames w; stdout := stdout w;
     calls := calls w ++ [(proxyURL, imagePath)]; panicked := panicked w |}.

Definition panic (w : World) : World :=
  {| ei := ei w; frames := frames w; stdout := stdout w;
     calls := calls w; panicked := true |}.

Definition set_Matches (v : list MatchInfo) (e : EpisodeIdentifier) : EpisodeIdentifier :=
  {| apiEndpoint := apiEndpoint e; aniListID := aniListID e; Matches := v;
     httpClients := httpClients e; frameCounts := frameCounts e;
     failCounts := failCounts e; brokenProxies := brokenProxies e;
     done := done e; channelClosed := channelClosed e;
     completionChan := completionChan e |}.

Definition set_httpClients (v : gmap Client string) (e : EpisodeIdentifier) : EpisodeIdentifier :=
  {| apiEndpoint := apiEndpoint e; aniListID := aniListID e; Matches := Matches e;
     httpClients := v; frameCounts := frameCounts e;
     failCounts := failCounts e; brokenProxies := brokenProxies e;
     done := done e; channelClosed := channelClosed e;
     completionChan := completionChan e |}.

Definition set_frameCounts (v : gmap string Z) (e : EpisodeIdentifier) : EpisodeIdentifier :=
  {| apiEndpoint := apiEndpoint e; aniListID := aniListID e; Matches := Matches e;
     httpClients := httpClients e; frameCounts := v;
     failCounts := failCounts e; brokenProxies := brokenProxies e;
     done := done e; channelClosed := channelClosed e;
     completionChan := completionChan e |}.

Definition set_failCounts (v : gmap string Z) (e : EpisodeIdentifier) : EpisodeIdentifier :=
  {| apiEndpoint := apiEndpoint e; aniListID := aniListID e; Matches := Matches e;
     httpClients := httpClients e; frameCounts := frameCounts e;
     failCounts := v; brokenProxies := brokenProxies e;
     done := done e; channelClosed := channelClosed e;
     completionChan := completionChan e |}.

Definition set_brokenProxies (v : gmap string bool) (e : EpisodeIdentifier) : EpisodeIdentifier :=
  {| apiEndpoint := apiEndpoint e; aniListID := aniListID e; Matches := Matches e;
     httpClients := httpClients e; frameCounts := frameCounts e;
     failCounts := failCounts e; brokenProxies := v;
     done := done e; channelClosed := channelClosed e;
     completionChan := completionChan e |}.

Definition set_flags (d c k : bool) (e : EpisodeIdentifier) : EpisodeIdentifier :=
  {| apiEndpoint := apiEndpoint e; aniListID := aniListID e; Matches := Matches e;
     httpClients := httpClients e; frameCounts := frameCounts e;
     failCounts := failCounts e; brokenProxies := brokenProxies e;
     done := d; channelClosed := c; completionChan := k |}.

(** Map reads, with Go's zero value for an absent key. *)
Definition frameCount (e : EpisodeIdentifier) (proxyURL : string) : Z :=
  default 0%Z (frameCounts e !! proxyURL).
Definition failCount (e : EpisodeIdentifier) (proxyURL : string) : Z :=
  default 0%Z (failCounts e !! proxyURL).
Definition isBroken (e : EpisodeIdentifier) (proxyURL : string) : bool :=
  default false (brokenProxies e !! proxyURL).

Definition directURL : string := "No Proxy (Direct Connection)".

(** [extractTimestampInSeconds]. *)
Definition extractTimestampInSeconds (imagePath : string) : float64 :=
  let filename := Base imagePath in
  match Split filename "_timestamp_" with
  | _ :: part1 :: _ =>
      let timestamp := TrimSuffix part1 ".jpg" in
      match Parse_15_04_05 timestamp with
      | Some (h, m, s) => inject_Z (h * 3600 + m * 60 + s)
      | None => 0%Q
      end
  | _ => 0%Q
  end.

(** The acceptance test of [IdentifyEpisode], lines 530-532. *)
Definition timestampMatches (timestampSec from to threshold : float64) : bool :=
  (fle from timestampSec && fle timestampSec to)
  || (fle (from - threshold)%Q timestampSec && flt timestampSec from)
  || (flt to timestampSec && fle timestampSec (to + threshold)%Q).

(** The title filter, line 521: [true] when the candidate is skipped. *)
Definition titleMismatch (aniListID : Z) (m : Model.TraceMoeResult) : bool :=
  negb (aniListID =? 0)%Z && negb (aniListID =? Model.ID (Model.Anilist m))%Z.

Definition idMismatchReason (aniListID : Z) (m : Model.TraceMoeResult)
    (videoFilename frameName : string) : string :=
  "❌ AniList ID Mismatch:" +:+ nl +:+
  "   - Expected: " +:+ fmt_d aniListID +:+ nl +:+
  "   - Found: " +:+ fmt_d (Model.ID (Model.Anilist m)) +:+ nl +:+
  "   - Video: " +:+ videoFilename +:+ nl +:+
  "   - Frame: " +:+ frameName.

Definition timestampMismatchReason (timestampSec threshold : float64)
    (m : Model.TraceMoeResult) (videoFilename frameName : string) : string :=
  "❌ Timestamp Mismatch:" +:+ nl +:+
  "   - Timestamp: " +:+ fmt_f 2 timestampSec +:+ nl +:+
  "   - Expected Range: " +:+ fmt_f 2 (Model.From m) +:+ " to "
    +:+ fmt_f 2 (Model.To m) +:+ nl +:+
  "   - Threshold: ±" +:+ fmt_f 2 threshold +:+ " seconds" +:+ nl +:+
  "   - Video: " +:+ videoFilename +:+ nl +:+
  "   - Frame: " +:+ frameName.

(** How the [for _, match := range result.Result] loop ends: by the
    [return] of the accepting branch, or by running out of results with
    the reasons collected and the flag set so far. *)
Inductive LoopExit : Type :=
| Accepted (m : Model.TraceMoeResult)
| Exhausted (reasons : list string) (foundPotentialMatch : bool).

Fixpoint scanResults (aniListID : Z) (timestampSec threshold : float64)
    (videoFilename frameName : string) (results : list Model.TraceMoeResult)
    (reasons : list string) (foundPotentialMatch : bool) : LoopExit :=
  match results with
  | [] => Exhausted reasons foundPotentialMatch
  | m :: rest =>
      if titleMismatch aniListID m then
        scanResults aniListID timestampSec threshold videoFilename frameName rest
          (reasons ++ [idMismatchReason aniListID m videoFilename frameName])
          foundPotentialMatch
      else if timestampMatches timestampSec (Model.From m) (Model.To m) threshold then
        Accepted m
      else
        scanResults aniListID timestampSec threshold videoFilename frameName rest
          (reasons ++ [timestampMismatchReason timestampSec threshold m
                         videoFilename frameName])
          true
  end.

(** The [MatchInfo] literal of lines 538-557. *)
Definition buildMatchInfo (m : Model.TraceMoeResult) (timestampSec : float64)
    (videoFilename frameName proxyURL : string) : MatchInfo :=
  {| AnilistID := Model.ID (Model.Anilist m);
     MalID := Model.IDMal (Model.Anilist m);
     TitleNative := Model.Native (Model.Title_ (Model.Anilist m));
     TitleRomaji := Model.Romaji (Model.Title_ (Model.Anilist m));
     TitleEnglish := Model.English (Model.Title_ (Model.Anilist m));
     Synonyms := Model.Synonyms (Model.Anilist m);
     IsAdult := Model.IsAdult (Model.Anilist m);
     Episode := Model.Episode m;
     Similarity := (Model.Similarity m * 100)%Q;
     Timestamp := timestampSec;
     From := Model.From m;
     To := Model.To m;
     VideoName := videoFilename;
     FrameName := frameName;
     MatchedRange := fmt_f 2 (Model.From m) +:+ " to " +:+ fmt_f 2 (Model.To m);
     ProxyUsed := proxyURL;
     VideoURL := Model.Video m;
     ImageURL := Model.Image m |}.

(** English title, else Romaji, else Native. *)
Definition displayTitle (m : Model.TraceMoeResult) : string :=
  let t := Model.Title_ (Model.Anilist m) in
  if String.eqb (Model.English t) "" then
    if String.eqb (Model.Romaji t) "" then Model.Native t else Model.Romaji t
  else Model.English t.

(** The text returned as [info], lines 574-586. *)
Definition matchText (m : Model.TraceMoeResult) (timestampSec : float64)
    (videoFilename frameName proxyURL : string) : string :=
  nl +:+ "✅ Match Found!" +:+ nl +:+
  "   - Title: " +:+ displayTitle m +:+ nl +:+
  "   - Episode: " +:+ Model.String_ (Model.Episode m) +:+ nl +:+
  "   - Similarity: " +:+ fmt_f 2 (Model.Similarity m * 100)%Q +:+ "%" +:+ nl +:+
  "   - Timestamp: " +:+ fmt_f 2 timestampSec +:+ " (matches range "
    +:+ fmt_f 2 (Model.From m) +:+ " to " +:+ fmt_f 2 (Model.To m) +:+ ")" +:+ nl +:+
  "   - Video: " +:+ videoFilename +:+ nl +:+
  "   - Frame: " +:+ frameName +:+ nl +:+
  "   - Proxy Used: " +:+ proxyURL +:+ nl.

Definition failedToIdentifyText (videoFilename frameName reason : string)
    (checked : nat) : string :=
  nl +:+ "❌ Failed to Identify Episode for Frame:" +:+ nl +:+
  "   - Video: " +:+ videoFilename +:+ nl +:+
  "   - Frame: " +:+ frameName +:+ nl +:+
  "🔍 Reason: " +:+ reason +:+ nl +:+
  "   - Checked " +:+ fmt_d (Z.of_nat checked) +:+ " potential matches." +:+ nl +:+ nl.

Definition noMatchText (videoFilename frameName : string) : string :=
  nl +:+ "❌ No Match Found for Frame:" +:+ nl +:+
  "   - Video: " +:+ videoFilename +:+ nl +:+
  "   - Frame: " +:+ frameName +:+ nl +:+
  "🔍 Reason: No potential matches found." +:+ nl +:+ nl.

(** What reading the frame and asking the service came to: the step that
    failed, with the text of its error, or the decoded response. *)
Inductive Fetch : Type :=
| OpenFailed (err : string)
| ReadFailed (err : string)
| RequestFailed (err : string)
| SendFailed (err : string)
| DecodeFailed (err : string)
| Decoded (result : Model.TraceMoeResponse).

Definition fetchError (io : Fetch) : option string :=
  match io with
  | OpenFailed err => Some ("failed to open frame: " +:+ err)
  | ReadFailed err => Some ("failed to read frame: " +:+ err)
  | RequestFailed err => Some ("failed to create request to trace.moe: " +:+ err)
  | SendFailed err => Some ("failed to send frame to trace.moe: " +:+ err)
  | DecodeFailed err => Some ("failed to parse trace.moe response: " +:+ err)
  | Decoded _ => None
  end.

(** [IdentifyEpisode]: the world after the call and the triple
    [(info, similarity, err)] it returns. *)
Definition IdentifyEpisode (imagePath : string) (threshold : float64)
    (proxyURL : string) (io : Fetch) (w0 : World)
  : World * (string * float64 * option string) :=
  let w := note_call proxyURL imagePath w0 in
  if isBroken (ei w) proxyURL then
    (w, ("", 0%Q, Some ("proxy " +:+ proxyURL +:+ " is marked as broken, skipping")))
  else
    match io with
    | Decoded result =>
        let timestampSec := extractTimestampInSeconds imagePath in
        let videoFilename := Base (Dir imagePath) in
        let frameName := Base imagePath in
        match scanResults (aniListID (ei w)) timestampSec threshold videoFilename
                frameName (Model.Result result) [] false with
        | Accepted m =>
            let matchInfo := buildMatchInfo m timestampSec videoFilename frameName proxyURL in
            (with_ei (fun e => set_Matches (Matches e ++ [matchInfo]) e) w,
             (matchText m timestampSec videoFilename frameName proxyURL,
              Model.Similarity m, None))
        | Exhausted reasons foundPotentialMatch =>
            if foundPotentialMatch && (0 <? length reasons)%nat then
              (print (failedToIdentifyText videoFilename frameName
                        (hd "" reasons) (length reasons)) w, ("", 0%Q, None))
            else (print (noMatchText videoFilename frameName) w, ("", 0%Q, None))
        end
    | _ => (w, ("", 0%Q, fetchError io))
    end.

(** *** Channels and [select]

    Go's [select] takes, among the cases that can proceed, one chosen at
    random, and the [default] case only when none can. The choice is the
    argument [pick]. *)
Definition selectCase {A : Type} (ready : list A) (pick : nat) : option A :=
  match ready with
  | [] => None
  | _ => ready !! (pick mod length ready)%nat
  end.

(** A send can proceed when the buffer has room; on a closed channel it
    proceeds too, and panics. (A channel of capacity 0 is made only for an
    empty frame list, for which nothing is ever sent.) *)
Definition sendReady (c : Chan) : bool :=
  closed c || (length (buf c) <? cap c)%nat.

Definition push (frame : string) (c : Chan) : Chan :=
  {| buf := buf c ++ [frame]; cap := cap c; closed := closed c |}.

Definition pop (c : Chan) : Chan :=
  {| buf := tail (buf c); cap := cap c; closed := closed c |}.

Definition close (c : Chan) : Chan :=
  {| buf := buf c; cap := cap c; closed := true |}.

Inductive SendCase : Type := CaseSend | CaseDone.

(** [SafeSend]. *)
Definition SafeSend (pick : nat) (frame : string) (w : World) : World :=
  if negb (channelClosed (ei w)) then
    match selectCase ((if sendReady (frames w) then [CaseSend] else [])
                      ++ (if done (ei w) then [CaseDone] else [])) pick with
    | Some CaseSend =>
        if closed (frames w) then panic w else with_frames (push frame) w
    | Some CaseDone => w
    | None => w
    end
  else w.

(** [CloseFramesChannel]. Closing a closed channel panics. *)
Definition CloseFramesChannel (w : World) : World :=
  if done (ei w) || closed (frames w) then panic w
  else
    with_frames close
      (with_ei (fun e => set_flags true true (completionChan e) e) w).

(** [getClientByProxyURL]: the first client with that URL that the
    iteration over the map comes across; the order of iteration is not
    fixed, so [pick] tells which of them. [None] is the nil client. *)
Definition getClientByProxyURL (pick : nat) (proxyURL : string)
    (e : EpisodeIdentifier) : option Client :=
  fst <$> selectCase
            (filter (fun kv => kv.2 = proxyURL) (map_to_list (httpClients e))) pick.

Definition deleteClient (c : option Client) (m : gmap Client string)
  : gmap Client string :=
  match c with
  | Some k => delete k m
  | None => m
  end.

(** [handleProxyFailure]. *)
Definition handleProxyFailure (pickClient pickSend : nat)
    (proxyURL frame : string) (w : World) : World :=
  let count := int_incr (failCount (ei w) proxyURL) in
  let w1 := with_ei (fun e => set_failCounts (<[proxyURL := count]> (failCounts e)) e) w in
  if (3 <=? count)%Z then
    let w2 := with_ei (fun e => set_brokenProxies (<[proxyURL := true]> (brokenProxies e)) e) w1 in
    let w3 := with_ei (fun e =>
                set_httpClients
                  (deleteClient (getClientByProxyURL pickClient proxyURL e)
                     (httpClients e)) e) w2 in
    let w4 := print ("⚠️ Proxy " +:+ proxyURL
                     +:+ " has failed 3 times and will be removed from the pool."
                     +:+ nl) w3 in
    SafeSend pickSend frame w4
  else
    print ("⚠️ Proxy " +:+ proxyURL +:+ " failed " +:+ fmt_d count
           +:+ "/3 times." +:+ nl) w1.

(** [%v] of an [error]. *)
Definition errText (err : option string) : string :=
  match err with
  | Some e => e
  | None => "<nil>"
  end.

(** The retry loop of the direct connection, lines 398-409: [remaining]
    iterations are left and the next one is number [retry]. The state is
    the world and the variables [info], [similarity], [err]. *)
Fixpoint retryLoop (remaining retry : nat) (frame : string) (threshold : float64)
    (proxyURL : string) (retries : nat -> Fetch)
    (st : World * (string * float64 * option string))
  : World * (string * float64 * option string) :=
  match remaining with
  | O => st
  | S k =>
      let '(w1, (info, similarity, err)) :=
        IdentifyEpisode frame threshold proxyURL (retries retry) st.1 in
      if bool_decide (err = None) && flt 0%Q similarity then
        (print (info +:+ nl) w1, (info, similarity, err))
      else
        retryLoop k (S retry) frame threshold proxyURL retries
          (print ("⚠️ Retry " +:+ fmt_d (Z.of_nat retry)
                  +:+ "/3 failed for direct connection: " +:+ errText err +:+ nl) w1,
           (info, similarity, err))
  end.

(** Lines 418-429: the end of an iteration that came out without error. *)
Definition countFrame (proxyURL frame info : string) (similarity : float64)
    (w : World) : World :=
  if feq similarity 0%Q then
    print ("🔍 [DEBUG] No similar episode found for frame: " +:+ frame +:+ nl) w
  else
    with_ei (fun e =>
               set_frameCounts
                 (<[proxyURL := int_incr (frameCount e proxyURL)]> (frameCounts e)) e)
      (if flt 0%Q similarity then print (info +:+ nl) w else w).

(** Lines 386-429: what a worker does with the frame it has taken. *)
Definition handleFrame (proxyURL : string) (threshold : float64) (frame : string)
    (first : Fetch) (retries : nat -> Fetch) (pickClient pickSend : nat)
    (w : World) : World :=
  let '(w1, (info, similarity, err)) :=
    IdentifyEpisode frame threshold proxyURL first w in
  match err with
  | Some e =>
      if negb (String.eqb proxyURL directURL) then
        print ("⚠️ Error identifying episode with proxy " +:+ proxyURL +:+ ": "
               +:+ e +:+ nl)
          (handleProxyFailure pickClient pickSend proxyURL frame w1)
      else
        let '(w2, (info2, similarity2, err2)) :=
          retryLoop 3 1 frame threshold proxyURL retries (w1, (info, similarity, err)) in
        if negb (bool_decide (err2 = None)) || feq similarity2 0%Q then
          print ("⚠️ Dropping frame after repeated failures with direct connection: "
                 +:+ frame +:+ nl) w2
        else countFrame proxyURL frame info2 similarity2 w2
  | None => countFrame proxyURL frame info similarity w1
  end.

(** *** Workers

    Where a [processFrames] goroutine stands: at the [select], holding a
    frame it has received, or returned. *)
Inductive PC : Type :=
| AtSelect
| Holding (frame : string)
| Returned.

Record Worker : Type := {
  client : Client;
  proxyURL : string;
  threshold : float64;
  pc : PC
}.

Definition at_pc (p : PC) (wk : Worker) : Worker :=
  {| client := client wk; proxyURL := proxyURL wk;
     threshold := threshold wk; pc := p |}.

(** Lines 371-384: the receive case, up to the check of the broken flag.
    [None]: the case cannot proceed (channel open and empty). *)
Definition receiveFrame (proxyURL : string) (w : World) : option (World * PC) :=
  match buf (frames w) with
  | frame :: _ =>
      let w1 := with_frames pop w in
      if isBroken (ei w1) proxyURL then
        Some (print ("⚠️ Proxy " +:+ proxyURL
                     +:+ " is marked as broken, terminating worker." +:+ nl) w1,
              Returned)
      else Some (w1, Holding frame)
  | [] => if closed (frames w) then Some (w, Returned) else None
  end.

(** What a worker can be scheduled to do: take the receive case of the
    [select], handle the frame it holds (with what the service answers to
    the first call and to each retry, and the choices left open), take the
    ticker case, or take the [done] case. *)
Inductive Event : Type :=
| Recv
| Handle (first : Fetch) (retries : nat -> Fetch) (pickClient pickSend : nat)
| Tick
| DoneClosed.

(** [processFrames], one step of the goroutine of [wk]: the world after
    the step and where the goroutine stands then, or [None] when the step
    cannot be taken. *)
Definition processFrames (ev : Event) (wk : Worker) (w : World)
  : option (World * PC) :=
  if panicked w then None else
  match pc wk, ev with
  | AtSelect, Recv => receiveFrame (proxyURL wk) w
  | Holding frame, Handle first retries pickClient pickSend =>
      Some (handleFrame (proxyURL wk) (threshold wk) frame first retries
              pickClient pickSend w, AtSelect)
  | AtSelect, Tick =>
      Some (w, if (length (buf (frames w)) =? 0)%nat then Returned else AtSelect)
  | AtSelect, DoneClosed => if done (ei w) then Some (w, Returned) else None
  | _, _ => None
  end.

(** *** Dispatch *)
Record ProxyDetails : Type := { URL : string; Quota : Z; QuotaUsed : Z }.

Definition emptyIdentifier (apiEndpoint : string) (aniListID : Z) : EpisodeIdentifier :=
  {| apiEndpoint := apiEndpoint; aniListID := aniListID; Matches := [];
     httpClients := ∅; frameCounts := ∅; failCounts := ∅; brokenProxies := ∅;
     done := false; channelClosed := false; completionChan := false |}.

(** One more client, at a fresh address, for the path [url]. *)
Definition addClient (url : string) (st : EpisodeIdentifier * positive)
  : EpisodeIdentifier * positive :=
  let e := st.1 in
  ({| apiEndpoint := apiEndpoint e; aniListID := aniListID e; Matches := Matches e;
      httpClients := <[st.2 := url]> (httpClients e);
      frameCounts := <[url := 0%Z]> (frameCounts e);
      failCounts := <[url := 0%Z]> (failCounts e);
      brokenProxies := <[url := false]> (brokenProxies e);
      done := done e; channelClosed := channelClosed e;
      completionChan := completionChan e |},
   Pos.succ st.2).

(** [NewEpisodeIdentifier], without its two informational prints. *)
Definition NewEpisodeIdentifier (apiEndpoint : string) (aniListID : Z)
    (proxies : list ProxyDetails) : EpisodeIdentifier :=
  match proxies with
  | _ :: _ =>
      (fold_left (fun st p => addClient (URL p) st) proxies
         (emptyIdentifier apiEndpoint aniListID, 1%positive)).1
  | [] => (addClient directURL (emptyIdentifier apiEndpoint aniListID, 1%positive)).1
  end.

Record System : Type := { world : World; workers : list Worker }.

(** [IdentifyEpisodes] up to [wg.Wait()]: the channel is made with room
    for every frame and filled, and one worker is started for each
    client. *)
Definition IdentifyEpisodes (e : EpisodeIdentifier) (frameList : list string)
    (threshold : float64) (out : list string) : System :=
  {| world := {| ei := e;
                 frames := {| buf := frameList; cap := length frameList; closed := false |};
                 stdout := out; calls := []; panicked := false |};
     workers := (fun kv => {| client := kv.1; proxyURL := kv.2;
                              threshold := threshold; pc := AtSelect |})
                  <$> map_to_list (httpClients e) |}.

(** Worker number [i] takes the step [ev]. *)
Definition step (i : nat) (ev : Event) (sys : System) : option System :=
  wk ← workers sys !! i;
  r ← processFrames ev wk (world sys);
  Some {| world := r.1; workers := <[i := at_pc r.2 wk]> (workers sys) |}.

Fixpoint run (schedule : list (nat * Event)) (sys : System) : option System :=
  match schedule with
  | [] => Some sys
  | (i, ev) :: rest => sys' ← step i ev sys; run rest sys'
  end.

Definition allReturned (sys : System) : bool :=
  forallb (fun wk => match pc wk with Returned => true | _ => false end) (workers sys).

(** [displayFrameProcessingSummary]. *)
Definition displayFrameProcessingSummary (w : World) : World :=
  print (String.concat "" (repeat "=" 50) +:+ nl)
    (fold_left (fun w' kv =>
                  print ("   - " +:+ kv.1 +:+ " processed " +:+ fmt_d kv.2
                         +:+ " frames" +:+ nl) w')
       (map_to_list (frameCounts (ei w)))
       (print (nl +:+ "📊 Frame Processing Summary:" +:+ nl) w)).

(** [IdentifyEpisodes] from [wg.Wait()] on: possible once every worker
    has returned. *)
Definition IdentifyEpisodes_return (sys : System) : option World :=
  if allReturned sys then
    let w1 := displayFrameProcessingSummary (CloseFramesChannel (world sys)) in
    Some (with_ei (fun e => set_flags (done e) (channelClosed e) true e)
            (print ("Episode identification process completed." +:+ nl) w1))
  else None.

End Identifier.


(** ** internal/extractor/frame_extractor.go *)

Module Extractor.
Import Go.

(** [formatTimestamp]. The error of [ParseFloat] is dropped and the value
    is then 0. *)
Definition formatTimestamp (seconds : string) : string :=
  let sec := default 0%Q (ParseFloat seconds) in
  let d := Duration (sec * inject_Z Second)%Q in
  fmt_0d 2 (Hours d) +:+ "-" +:+ fmt_0d 2 (Z.rem (Minutes d) 60)
    +:+ "-" +:+ fmt_0d 2 (Z.rem (Seconds d) 60).

(** [generateTimestamps]. [None]: [make] panics on a negative length. *)
Definition generateTimestamps (duration : float64) (numFrames : Z)
  : option (list string) :=
  let step := (duration / inject_Z numFrames)%Q in
  if (numFrames <? 0)%Z then None
  else Some ((fun i : nat =>
                if (i =? 0)%nat then fmt_f 2 10%Q
                else fmt_f 2 (inject_Z (Z.of_nat i) * step)%Q)
               <$> seq 0 (Z.to_nat numFrames)).

(** Lines 63 and 83 of [ExtractFrames]: where the frames of a video go,
    and the path of the frame number [i] (from 0), taken at [ts]. *)
Definition outputDir (file : string) : string :=
  filepath_Join ["frames"; Base file].

Definition outputFrame (file : string) (i : nat) (ts : string) : string :=
  filepath_Join [outputDir file;
                 "frame_" +:+ fmt_0d 4 (Z.of_nat i + 1) +:+ "_timestamp_"
                   +:+ formatTimestamp ts +:+ ".jpg"].

(** What the system answers for one video: whether the directory could
    be made, what [getVideoDuration] returns, and whether ffmpeg wrote the
    frame number [i]. *)
Record VideoIO : Type := {
  mkdirOk : bool;
  probed : option float64;
  ffmpegOk : nat -> bool
}.

(** How a call ends: with a panic, an error or a value. *)
Inductive Outcome (A : Type) : Type :=
| Panic
| Failed (err : string)
| Returns (v : A).
Arguments Panic {A}.
Arguments Failed {A} err.
Arguments Returns {A} v.

(** The frames written for the timestamps from number [i] on. *)
Fixpoint extractAt (file : string) (io : VideoIO) (i : nat) (timestamps : list string)
  : list string :=
  match timestamps with
  | [] => []
  | ts :: rest =>
      (if ffmpegOk io i then [outputFrame file i ts] else [])
        ++ extractAt file io (S i) rest
  end.

(** The loop of [ExtractFrames] over the files, lines 60-102. *)
Fixpoint extractFiles (numFrames : Z) (files : list (string * VideoIO))
    (extractedFrames : list string) : option (list string) :=
  match files with
  | [] => Some extractedFrames
  | (file, io) :: rest =>
      if negb (mkdirOk io) then extractFiles numFrames rest extractedFrames
      else
        match probed io with
        | None => extractFiles numFrames rest extractedFrames
        | Some duration =>
            match generateTimestamps duration numFrames with
            | None => None
            | Some timestamps =>
                extractFiles numFrames rest
                  (extractedFrames ++ extractAt file io 0 timestamps)
            end
        end
  end.

(** [ExtractFrames], without its progress output: [ffmpeg] and [ffprobe]
    are the errors of the two [LookPath] calls, if any, [folder] is the
    error of [Stat] when it tells that the folder does not exist; [files] is
    what [Glob] returns ([None] for its error), each file with what the
    system answers for it. *)
Definition ExtractFrames (numFrames : Z) (ffmpeg ffprobe folder : option string)
    (files : option (list (string * VideoIO))) : Outcome (list string) :=
  match ffmpeg, ffprobe, folder with
  | Some err, _, _ => Failed ("ffmpeg executable not found: " +:+ err)
  | None, Some err, _ => Failed ("ffprobe executable not found: " +:+ err)
  | None, None, Some err => Failed ("input folder does not exist: " +:+ err)
  | None, None, None =>
      match files with
      | None | Some [] => Failed "no MKV files found in the input folder"
      | Some files =>
          match extractFiles numFrames files [] with
          | None => Panic
          | Some [] => Failed "no frames were extracted from the videos"
          | Some extractedFrames => Returns extractedFrames
          end
      end
  end.

End Extractor.

(** ** internal/proxy/proxy_loader.go *)

Module Proxy.
Import Go.
Import Identifier.

(** What the request to [https://api.trace.moe/me] through a proxy comes
    to: an error of [client.Do], or a response with its status code and the
    [quota] and [quotaUsed] decoded from its body ([None]: the body does not
    decode). *)
Inductive Probe : Type :=
| NoAnswer (err : string)
| Answer (status : Z) (body : option (Z * Z)).

(** [checkProxy], without its output. [http.NewRequest] with a constant
    method and URL does not fail. [None] is the nil pointer. *)
Definition checkProxy (proxyURL : string) (probe : Probe) : bool * option ProxyDetails :=
  match probe with
  | NoAnswer _ => (false, None)
  | Answer status body =>
      if negb (status =? 200)%Z then (false, None)
      else
        match body with
        | None => (false, None)
        | Some (quota, quotaUsed) =>
            let remainingQuota := int_wrap (quota - quotaUsed) in
            let proxyDetails :=
              {| URL := proxyURL; Quota := quota; QuotaUsed := quotaUsed |} in
            if (remainingQuota <=? 0)%Z then (false, Some proxyDetails)
            else (true, Some proxyDetails)
        end
  end.

(** The loader, and whether a nil pointer has been dereferenced. *)
Record ProxyLoader : Type := {
  proxyList : list ProxyDetails;
  nilDereferenced : bool
}.

Definition NewProxyLoader : ProxyLoader :=
  {| proxyList := []; nilDereferenced := false |}.

(** Lines 51-53. *)
Definition withScheme (proxyStr : string) : string :=
  if negb (HasPrefix proxyStr "http://") && negb (HasPrefix proxyStr "https://")
  then "http://" +:+ proxyStr else proxyStr.

(** [checkProxyConcurrently], lines 48-71, for one line of the file and
    what its probe comes to. [parse] is [url.Parse], a URL being known by
    its text. *)
Definition checkProxyConcurrently (parse : string -> option string)
    (line : string * Probe) (pl : ProxyLoader) : ProxyLoader :=
  match parse (withScheme line.1) with
  | None => pl
  | Some proxyURL =>
      let '(isWorking, details) := checkProxy proxyURL line.2 in
      if isWorking || bool_decide (details <> None) then
        match details with
        | Some d =>
            {| proxyList := proxyList pl ++ [d];
               nilDereferenced := nilDereferenced pl |}
        | None => {| proxyList := proxyList pl; nilDereferenced := true |}
        end
      else pl
  end.

(** [LoadProxies], without its output: [file] holds the error of
    [os.Open], or the trimmed lines of the file, each with what its probe
    comes to, and the error of the scanner, if any. One goroutine is started
    for each line; [finish] is the order in which they come to the lock. *)
Definition LoadProxies (parse : string -> option string)
    (finish : list (string * Probe) -> list (string * Probe))
    (file : string + list (string * Probe) * option string) (pl : ProxyLoader)
  : ProxyLoader * option string :=
  match file with
  | inl err => (pl, Some ("failed to open proxy file: " +:+ err))
  | inr (lines, scanErr) =>
      (fold_left (fun pl line => checkProxyConcurrently parse line pl) (finish lines) pl,
       match scanErr with
       | Some err => Some ("failed to read proxy file: " +:+ err)
       | None => None
       end)
  end.

(** [GetProxyList]. *)
Definition GetProxyList (pl : ProxyLoader) : list string :=
  URL <$> proxyList pl.

(** Lines 52-81 of [main]: the identifier made from what the loader
    found; without a proxy file, or when loading fails, from no proxy. *)
Definition identifierOf (apiEndpoint : string) (aniListID : Z)
    (loaded : option (ProxyLoader * option string)) : EpisodeIdentifier :=
  let proxies :=
    match loaded with
    | Some (pl, None) => GetProxyList pl
    | _ => []
    end in
  NewEpisodeIdentifier apiEndpoint aniListID
    ((fun p => {| URL := p; Quota := 0%Z; QuotaUsed := 0%Z |}) <$> proxies).

End Proxy.

(** ** internal/renamer/file_renamer.go *)

Module Renamer.
Import Go.
Import Identifier.

Record FileRenamer : Type := {
  results : gmap string (list MatchInfo);
  inputFolder : string
}.

(** [AddResult]. *)
Definition AddResult (match_ : MatchInfo) (fr : FileRenamer) : FileRenamer :=
  {| results :=
       <[VideoName match_ :=
           (default [] (results fr !! VideoName match_) ++ [match_])%list]> (results fr);
     inputFolder := inputFolder fr |}.

(** [count[key]++] on a [map[string]int]. *)
Definition countUp (key : string) (count : gmap string Z) : gmap string Z :=
  <[key := int_incr (default 0%Z (count !! key))]> count.

(** English title, else Romaji, else Native: lines 318-324. *)
Definition titleOf (match_ : MatchInfo) : string :=
  let title := TitleEnglish match_ in
  let title := if String.eqb title "" then TitleRomaji match_ else title in
  if String.eqb title "" then TitleNative match_ else title.

(** The first loop of [findMajorityTitleAndEpisode], lines 313-326: the
    two maps of counts. *)
Definition countMatches (matches : list MatchInfo) : gmap string Z * gmap string Z :=
  fold_left (fun st match_ =>
               (countUp (Model.String_ (Episode match_)) st.1,
                countUp (titleOf match_) st.2))
    matches (∅, ∅).

(** One iteration of the loops of lines 332-337 and 342-347, on the
    variables [(majority, maxCount)]. *)
Definition keepMajority (st : string * Z) (entry : string * Z) : string * Z :=
  if ((st.2 <? entry.2)%Z || ((entry.2 =? st.2)%Z && String.ltb entry.1 st.1))%bool
  then entry else st.

(** [findMajorityTitleAndEpisode]. A [range] over a map visits its entries
    in an order that is not fixed: [range] is that order. For an empty list
    the confidence of the source is 0/0, which is outside the model of
    [float64]. *)
Definition findMajorityTitleAndEpisode
    (range : gmap string Z -> list (string * Z)) (matches : list MatchInfo)
  : string * string * float64 :=
  let '(episodeCount, titleCount) := countMatches matches in
  let totalCount := Z.of_nat (length matches) in
  let '(majorityEpisode, maxEpisodeCount) :=
    fold_left keepMajority (range episodeCount) ("", 0%Z) in
  let '(majorityTitle, maxTitleCount) :=
    fold_left keepMajority (range titleCount) ("", 0%Z) in
  let confidence := (inject_Z maxEpisodeCount / inject_Z totalCount)%Q in
  (majorityTitle, majorityEpisode, confidence).

(** The bytes [regexp.MustCompile(`[^a-zA-Z0-9.]`)] leaves in place. Every
    byte of a character outside ASCII is above 127 and goes. *)
Definition allowedByte (c : ascii) : bool :=
  let n := nat_of_ascii c in
  ((97 <=? n) && (n <=? 122) || (65 <=? n) && (n <=? 90)
   || (48 <=? n) && (n <=? 57) || (n =? 46))%nat.

Fixpoint removeSpecial (s : string) : string :=
  match s with
  | EmptyString => ""
  | String c r => if allowedByte c then String c (removeSpecial r) else removeSpecial r
  end.

(** [constructNewFileName]. *)
Definition constructNewFileName (originalPath seriesTitle episode : string) : string :=
  let episode := if (String.length episode =? 1)%nat then "0" +:+ episode else episode in
  let seriesTitle := ReplaceAll_byte seriesTitle " " "." in
  let seriesTitle := removeSpecial seriesTitle in
  let ext := Ext originalPath in
  let baseDir := Dir originalPath in
  let newFileName := seriesTitle +:+ ".E" +:+ episode +:+ ext in
  filepath_Join [baseDir; newFileName].

End Renamer.
Import Go.
Import Identifier.

(** * Definitions used in the statements *)

(** A candidate the scan would accept on reaching it. *)
Definition acceptable (aniListID : Z) (t th : float64) (m : Model.TraceMoeResult) : bool :=
  negb (titleMismatch aniListID m)
  && timestampMatches t (Model.From m) (Model.To m) th.

(** The reason the scan records for a candidate it rejects. *)
Definition reasonFor (aniListID : Z) (t th : float64) (video frame : string)
    (m : Model.TraceMoeResult) : string :=
  if titleMismatch aniListID m then idMismatchReason aniListID m video frame
  else timestampMismatchReason t th m video frame.


(** The timestamp, video and frame names [IdentifyEpisode] derives from a
    frame path. *)
Definition frameTimestamp (imagePath : string) : float64 :=
  extractTimestampInSeconds imagePath.
Definition frameVideo (imagePath : string) : string := Base (Dir imagePath).
Definition frameBase (imagePath : string) : string := Base imagePath.

(** *** Sample data for the worked examples *)

Definition sampleTitle : Model.Title :=
  {| Model.Native := "native"; Model.Romaji := "romaji"; Model.English := "Show" |}.

Definition candidate (id : Z) (from to sim : float64) : Model.TraceMoeResult :=
  {| Model.Anilist :=
       {| Model.ID := id; Model.IDMal := 0%Z; Model.Title_ := sampleTitle;
          Model.Synonyms := []; Model.IsAdult := false; Model.Raw_ := None |};
     Model.Filename := "show-05.mkv";
     Model.Episode := Model.decodeEpisode (Model.JNumber "5");
     Model.From := from; Model.To := to; Model.Similarity := sim;
     Model.Video := ""; Model.Image := "" |}.

Definition response (results : list Model.TraceMoeResult) : Model.TraceMoeResponse :=
  {| Model.FrameCount := 0%Z; Model.Error := ""; Model.Result := results |}.

Definition sampleFrame : string := "out/video1/frame_1_timestamp_00-00-12.jpg".

(** A world around an identifier, with an empty channel of capacity [n]. *)
Definition worldOf (e : EpisodeIdentifier) (n : nat) : World :=
  {| ei := e; frames := {| buf := []; cap := n; closed := false |};
     stdout := []; calls := []; panicked := false |}.

Definition directIdentifier (aniListID : Z) : EpisodeIdentifier :=
  NewEpisodeIdentifier "https://api.trace.moe/search?anilistInfo" aniListID [].

(** Whether a decoded episode label came from a value with a numeric
    reading: its [Raw] text then reads as a number. *)
Definition numericEpisode (e : Model.EpisodeNumber) : bool :=
  bool_decide (is_Some (ParseFloat (Model.Raw e))).

(** The part of a world that decides routing: the channel, the panic
    flag, the client pool, the failure counts, the broken flags and the two
    closing flags. Identification and counting leave it alone. *)
Definition control (w : World) :=
  (frames w, panicked w, httpClients (ei w), failCounts (ei w),
   brokenProxies (ei w), done (ei w), channelClosed (ei w)).









(** Records of the match list that came through the path [p]. *)
Definition recordsVia (p : string) (ms : list MatchInfo) : nat :=
  length (filter (fun mi => ProxyUsed mi = p) ms).

(** Every candidate of the response has a positive similarity. *)
Definition positiveFetch (io : Fetch) : Prop :=
  match io with
  | Decoded result => Forall (fun m => (0 < Model.Similarity m)%Q) (Model.Result result)
  | _ => True
  end.

Definition positiveEvent (ev : Event) : Prop :=
  match ev with
  | Handle first retries _ _ => positiveFetch first /\ forall k : nat, positiveFetch (retries k)
  | _ => True
  end.

(** The test after the retry loop, line 411, on [(info, similarity, err)]. *)
Definition dropTest (t : string * float64 * option string) : bool :=
  negb (bool_decide (t.2 = None)) || feq t.1.2 0%Q.



(** A recognition attempt that does not end in an accepted candidate: an
    error, or a response in which nothing is acceptable. *)
Definition attemptFails (aniListID : Z) (frame : string) (th : float64) (io : Fetch) : Prop :=
  match io with
  | Decoded result =>
      List.find (acceptable aniListID (frameTimestamp frame) th) (Model.Result result) = None
  | _ => True
  end.

Definition dropLine (frame : string) : string :=
  "⚠️ Dropping frame after repeated failures with direct connection: " +:+ frame +:+ nl.

Definition proxyA : ProxyDetails :=
  {| URL := "http://10.0.0.1:8080"; Quota := 0%Z; QuotaUsed := 0%Z |}.
Definition proxyB : ProxyDetails :=
  {| URL := "http://10.0.0.2:8080"; Quota := 0%Z; QuotaUsed := 0%Z |}.

Definition timeout : Fetch := SendFailed "context deadline exceeded".
Definition alwaysTimeout : nat -> Fetch := fun _ => timeout.

Definition fourFrames : list string :=
  ["out/video1/frame_1_timestamp_00-00-12.jpg";
   "out/video1/frame_2_timestamp_00-01-12.jpg";
   "out/video1/frame_3_timestamp_00-02-12.jpg";
   "out/video1/frame_4_timestamp_00-03-12.jpg"].

(** Two proxies and four frames, threshold 5. *)
Definition twoProxyStart : System :=
  IdentifyEpisodes (NewEpisodeIdentifier "https://api.trace.moe/search?anilistInfo" 0
                   [proxyA; proxyB]) fourFrames 5 [].

(** The first worker takes a frame and fails on it, twice, then takes a
    third frame. *)
Definition twoFailures : list (nat * Event) :=
  [(O, Recv); (O, Handle timeout alwaysTimeout O O);
   (O, Recv); (O, Handle timeout alwaysTimeout O O);
   (O, Recv)].

(** ... and fails on the third frame too. *)
Definition threeFailures : list (nat * Event) :=
  (twoFailures ++ [(O, Handle timeout alwaysTimeout O O)])%list.

(** The single direct connection, with the same frames. *)
Definition directStart : System :=
  IdentifyEpisodes (directIdentifier 0) fourFrames 5 [].






(** The counters agree with the match list. *)
Definition countsAgree (e : EpisodeIdentifier) : Prop :=
  forall p : string, frameCount e p = Z.of_nat (recordsVia p (Matches e)).

(** The first worker takes the first frame, whose timestamp is 12, and the
    service answers with one candidate whose range contains it and whose
    similarity is 0. *)
Definition zeroSimilarityRun : list (nat * Event) :=
  [(O, Recv); (O, Handle (Decoded (response [candidate 7 10 20 0])) alwaysTimeout O O)].

(** The same, with similarity 0.95. *)
Definition oneMatchRun : list (nat * Event) :=
  [(O, Recv);
   (O, Handle (Decoded (response [candidate 7 10 20 (19 # 20)])) alwaysTimeout O O)].

(** *** Frames in flight *)

(** The frame a worker has in hand, if any. *)
Definition heldFrame (wk : Worker) : list string :=
  match pc wk with Holding f => [f] | _ => [] end.

Definition heldFrames (ws : list Worker) : list string := ws ≫= heldFrame.

(** The frames that are still to be handled: in the channel or in hand. *)
Definition inFlight (sys : System) : list string :=
  (buf (frames (world sys)) ++ heldFrames (workers sys))%list.

(** What holds of a dispatch over [frameList] from its start to the
    return of its last worker, whatever the proxies are. *)
Definition open (frameList : list string) (sys : System) : Prop :=
  panicked (world sys) = false
  /\ done (ei (world sys)) = false
  /\ channelClosed (ei (world sys)) = false
  /\ closed (frames (world sys)) = false
  /\ cap (frames (world sys)) = length frameList
  /\ inFlight sys ⊆+ frameList.

(** A record that [IdentifyEpisode] may have appended for the frame
    [frame] through the path [p]. *)
Definition recordOf (aniListID : Z) (th : float64) (p frame : string)
    (mi : MatchInfo) : Prop :=
  ProxyUsed mi = p
  /\ VideoName mi = frameVideo frame
  /\ FrameName mi = frameBase frame
  /\ Timestamp mi = frameTimestamp frame
  /\ timestampMatches (Timestamp mi) (From mi) (To mi) th = true
  /\ (aniListID <> 0%Z -> AnilistID mi = aniListID).

(** A record of the match list is sound for a dispatch when it belongs to
    one of the frames given and to the path of one of the workers. *)
Definition soundRecord (aniListID : Z) (th : float64) (paths frameList : list string)
    (mi : MatchInfo) : Prop :=
  exists (p frame : string),
    p ∈ paths /\ frame ∈ frameList /\ recordOf aniListID th p frame mi.

(** The calls [handled] stands for: [k] calls for each frame, in order. *)
Definition callsOf (p : string) (handled : list (string * nat)) : list (string * string) :=
  handled ≫= (fun fk => replicate fk.2 (p, fk.1)).

(** The paths [NewEpisodeIdentifier] sets up: one for each proxy given,
    or the direct connection when none is. *)
Definition pathsOf (proxies : list ProxyDetails) : list string :=
  match proxies with
  | [] => [directURL]
  | _ => URL <$> proxies
  end.

(** The direct connection handles every frame the service has nothing
    for. *)
Definition nothingFound : Fetch := Decoded (response []).

Definition drainRun : list (nat * Event) :=
  [(O, Recv); (O, Handle nothingFound alwaysTimeout O O);
   (O, Recv); (O, Handle nothingFound alwaysTimeout O O);
   (O, Recv); (O, Handle timeout alwaysTimeout O O);
   (O, Recv); (O, Handle nothingFound alwaysTimeout O O);
   (O, Tick)].

(** What holds of a dispatch over the direct connection alone: one
    worker; the frames given are the frames handled so far, then the frame
    in hand, then the queue, in this order; the calls made are those of the
    frames handled, one to four each. *)
Definition directDispatch (frameList : list string) (sys : System)
    (handled : list (string * nat)) : Prop :=
  exists wk : Worker,
    workers sys = [wk]
    /\ proxyURL wk = directURL
    /\ isBroken (ei (world sys)) directURL = false
    /\ panicked (world sys) = false
    /\ closed (frames (world sys)) = false
    /\ done (ei (world sys)) = false
    /\ frameList = (handled.*1 ++ heldFrame wk ++ buf (frames (world sys)))%list
    /\ calls (world sys) = callsOf directURL handled
    /\ Forall (fun fk : string * nat => (1 <= fk.2 <= 4)%nat) handled
    /\ (pc wk = Returned -> buf (frames (world sys)) = []).

(** *** Paths and names *)

(** The byte [c] does not occur in [s]. *)
Fixpoint lacks (c : ascii) (s : string) : bool :=
  match s with
  | EmptyString => true
  | String a r => negb (Ascii.eqb a c) && lacks c r
  end.

(** A file name: not empty, without [/], and neither [.] nor [..]. *)
Definition simpleName (s : string) : bool :=
  negb (String.eqb s "") && lacks "/" s
  && negb (String.eqb s ".") && negb (String.eqb s "..").

(** The name [ExtractFrames] gives the frame number [i] taken at [ts]. *)
Definition frameFile (i : nat) (ts : string) : string :=
  "frame_" +:+ fmt_0d 4 (Z.of_nat i + 1) +:+ "_timestamp_"
    +:+ Extractor.formatTimestamp ts +:+ ".jpg".

(** *** Majorities *)

(** How often [x] occurs in [keys]. *)
Definition occurrences (x : string) (keys : list string) : Z :=
  Z.of_nat (length (filter (fun y => y = x) keys)).

(** [k] is the majority of [keys]: one of them, occurring at least as
    often as any other, and the first in byte order among those that occur
    as often. *)
Definition majorityOf (keys : list string) (k : string) : Prop :=
  k ∈ keys
  /\ forall x : string, x ∈ keys ->
       (occurrences x keys < occurrences k keys)%Z
       \/ (occurrences x keys = occurrences k keys /\ String.leb k x = true).

(** A [range] visits every entry of the map once. *)
Definition validRange (range : gmap string Z -> list (string * Z)) : Prop :=
  forall m : gmap string Z, range m ≡ₚ map_to_list m.

Definition episodeLabel (mi : MatchInfo) : string := Model.String_ (Episode mi).

(** The counts of a list of keys. *)
Definition countKeys (keys : list string) : gmap string Z :=
  fold_left (fun count key => Renamer.countUp key count) keys ∅.

(** [r] is at least as good a majority as [e]. *)
Definition outvotes (r e : string * Z) : Prop :=
  (e.2 < r.2)%Z \/ (e.2 = r.2 /\ String.leb r.1 e.1 = true).

(** A record of the video [video] with the episode label [episode]. *)
Definition matchOf (video episode : string) : MatchInfo :=
  buildMatchInfo
    {| Model.Anilist :=
         {| Model.ID := 7%Z; Model.IDMal := 0%Z; Model.Title_ := sampleTitle;
            Model.Synonyms := []; Model.IsAdult := false; Model.Raw_ := None |};
       Model.Filename := "show.mkv";
       Model.Episode := Model.decodeEpisode (Model.JString episode);
       Model.From := 10; Model.To := 20; Model.Similarity := 19 # 20;
       Model.Video := ""; Model.Image := "" |}
    12 video "frame_0001_timestamp_00-00-12.jpg" directURL.

(** *** New names *)

(** The title as it goes into a file name, and the episode as it does. *)
Definition titlePart (seriesTitle : string) : string :=
  Renamer.removeSpecial (ReplaceAll_byte seriesTitle " " ".").

Definition episodePart (episode : string) : string :=
  if (String.length episode =? 1)%nat then "0" +:+ episode else episode.

(** *** Proxies *)

(** The URL of a line of the proxy file whose probe was answered with
    status 200 and a body that decodes. *)
Definition answering (parse : string -> option string) (line : string * Proxy.Probe)
  : option string :=
  match parse (Proxy.withScheme line.1), line.2 with
  | Some proxyURL, Proxy.Answer status (Some _) =>
      if (status =? 200)%Z then Some proxyURL else None
  | _, _ => None
  end.

(** A proxy file of three lines: a proxy with quota left, one that has
    used its quota up, and one that does not answer. *)
Definition threeLines : list (string * Proxy.Probe) :=
  [("10.0.0.1:8080", Proxy.Answer 200 (Some (1000, 10)%Z));
   ("http://10.0.0.2:8080", Proxy.Answer 200 (Some (1000, 1000)%Z));
   ("10.0.0.3:8080", Proxy.NoAnswer "connection refused")].

(** *** Numerals *)

(** The value of the digits [d] read after the value [acc]. *)
Fixpoint horner (d : Decimal.uint) (acc : Z) : Z :=
  match d with
  | Decimal.Nil => acc
  | Decimal.D0 l => horner l (10 * acc)
  | Decimal.D1 l => horner l (10 * acc + 1)
  | Decimal.D2 l => horner l (10 * acc + 2)
  | Decimal.D3 l => horner l (10 * acc + 3)
  | Decimal.D4 l => horner l (10 * acc + 4)
  | Decimal.D5 l => horner l (10 * acc + 5)
  | Decimal.D6 l => horner l (10 * acc + 6)
  | Decimal.D7 l => horner l (10 * acc + 7)
  | Decimal.D8 l => horner l (10 * acc + 8)
  | Decimal.D9 l => horner l (10 * acc + 9)
  end.

(** *** Extracted frames *)

(** The timestamp [generateTimestamps] gives the frame number [i]. *)
Definition timestampAt (duration : float64) (numFrames : Z) (i : nat) : string :=
  if (i =? 0)%nat then fmt_f 2 10%Q
  else fmt_f 2 (inject_Z (Z.of_nat i) * (duration / inject_Z numFrames))%Q.

(** [frame] is the frame number [i] of one of the [files], written by
    ffmpeg after the directory was made and the duration read. *)
Definition extractedFrom (numFrames : Z) (files : list (string * Extractor.VideoIO))
    (frame : string) : Prop :=
  exists (file : string) (io : Extractor.VideoIO) (duration : float64) (i : nat),
    (file, io) ∈ files
    /\ Extractor.mkdirOk io = true
    /\ Extractor.probed io = Some duration
    /\ (i < Z.to_nat numFrames)%nat
    /\ Extractor.ffmpegOk io i = true
    /\ frame = Extractor.outputFrame file i (timestampAt duration numFrames i).

(** Two videos of 24 minutes; ffmpeg fails on the second frame of the
    second one, and the third cannot be probed. *)
Definition threeVideos : list (string * Extractor.VideoIO) :=
  [("videos/a.mkv",
    {| Extractor.mkdirOk := true; Extractor.probed := Some 1440%Q;
       Extractor.ffmpegOk := fun _ => true |});
   ("videos/b.mkv",
    {| Extractor.mkdirOk := true; Extractor.probed := Some 1440%Q;
       Extractor.ffmpegOk := fun i => negb (i =? 1)%nat |});
   ("videos/c.mkv",
    {| Extractor.mkdirOk := true; Extractor.probed := None;
       Extractor.ffmpegOk := fun _ => true |})].
(** * Properties *)

(** [run schedule start] of a closed schedule, computed: [Hrun] keeps the
    equation as stated and [Hsys] gives the state reached. *)
Ltac computed_run schedule start sys Hrun Hsys :=
  destruct (run schedule start) as [sys|] eqn:Hrun;
  [|vm_compute in Hrun; discriminate Hrun];
  pose proof Hrun as Hsys; vm_compute in Hsys; injection Hsys as Hsys.

(** ** Comparisons of [float64] values *)

Lemma fle_spec (a b : float64) : fle a b = true <-> (a <= b)%Q.
Proof. unfold fle. apply Qle_bool_iff. Qed.

Lemma flt_spec (a b : float64) : flt a b = true <-> (a < b)%Q.
Proof.
  unfold flt. rewrite negb_true_iff. split.
  - intros H. apply Qnot_le_lt. intros Hle.
    apply Qle_bool_iff in Hle. congruence.
  - intros H. destruct (Qle_bool b a) eqn:E; [|reflexivity].
    apply Qle_bool_iff in E. apply Qlt_not_le in H. contradiction.
Qed.

Lemma feq_spec (a b : float64) : feq a b = true <-> (a == b)%Q.
Proof. unfold feq. apply Qeq_bool_iff. Qed.

Lemma fle_false (a b : float64) : fle a b = false <-> (b < a)%Q.
Proof.
  rewrite <- flt_spec. unfold flt, fle.
  destruct (Qle_bool a b); simpl; split; congruence.
Qed.

Lemma flt_false (a b : float64) : flt a b = false <-> (b <= a)%Q.
Proof.
  rewrite <- fle_spec. unfold flt, fle.
  destruct (Qle_bool b a); simpl; split; congruence.
Qed.

(** ** The acceptance test *)

(** The test is the union of the three intervals the source spells out,
    whatever the range and the threshold. *)
Lemma timestampMatches_union (t from to th : float64) :
  timestampMatches t from to th = true <->
  ((from <= t)%Q /\ (t <= to)%Q)
  \/ ((from - th <= t)%Q /\ (t < from)%Q)
  \/ ((to < t)%Q /\ (t <= to + th)%Q).
Proof.
  unfold timestampMatches.
  rewrite !orb_true_iff, !andb_true_iff, !fle_spec, !flt_spec. tauto.
Qed.

Lemma timestampMatches_interval (t from to th : float64) :
  (0 <= th)%Q -> (from <= to)%Q ->
  timestampMatches t from to th = true <->
  (from - th <= t)%Q /\ (t <= to + th)%Q.
Proof.
  intros Hth Hr. rewrite timestampMatches_union. split.
  - intros [[? ?]|[[? ?]|[? ?]]]; split; lra.
  - intros [? ?].
    destruct (Qlt_le_dec t from) as [?|?]; [right; left; split; lra|].
    destruct (Qlt_le_dec to t) as [?|?]; [right; right; split; lra|].
    left; split; lra.
Qed.

(** ** The scan over the candidates *)

Lemma scanResults_find (aniListID : Z) (t th : float64) (video frame : string)
    (results : list Model.TraceMoeResult) (reasons : list string) (found : bool) :
  scanResults aniListID t th video frame results reasons found =
  match List.find (acceptable aniListID t th) results with
  | Some m => Accepted m
  | None =>
      Exhausted (reasons ++ map (reasonFor aniListID t th video frame) results)
        (found || existsb (fun m => negb (titleMismatch aniListID m)) results)
  end.
Proof.
  revert reasons found.
  induction results as [|m rest IH]; intros reasons found; simpl.
  - by rewrite app_nil_r, orb_false_r.
  - unfold acceptable, reasonFor.
    destruct (titleMismatch aniListID m) eqn:Ht; simpl.
    + rewrite IH. fold (acceptable aniListID t th).
      destruct (List.find _ rest); [done|].
      by rewrite <- app_assoc.
    + destruct (timestampMatches t (Model.From m) (Model.To m) th) eqn:Hm; [done|].
      rewrite IH. fold (acceptable aniListID t th).
      destruct (List.find _ rest); [done|].
      by rewrite <- app_assoc, orb_true_r.
Qed.

Lemma scanResults_Accepted_inv aniListID t th video frame results reasons found m :
  scanResults aniListID t th video frame results reasons found = Accepted m ->
  In m results /\ acceptable aniListID t th m = true.
Proof.
  rewrite scanResults_find.
  destruct (List.find _ results) as [m'|] eqn:Hf; [|discriminate].
  intros [= <-]. by apply find_some in Hf.
Qed.

Lemma find_first_fit {A : Type} (f : A -> bool) (pre post : list A) (x : A) :
  Forall (fun c => f c = false) pre -> f x = true ->
  List.find f (pre ++ x :: post) = Some x.
Proof.
  induction 1 as [|c pre Hc _ IH]; intros Hx; simpl.
  - by rewrite Hx.
  - rewrite Hc. by apply IH.
Qed.

(** C1, as amended. Whatever the threshold and the range, the evaluator,
    on reaching a candidate that passes the title filter, accepts it
    exactly when the timestamp lies in [[from, to]], in [[from - th, from)]
    or in [(to, to + th]]. For a threshold that is not negative and a range
    with [from <= to] this is the same as [from - th <= t <= to + th]. *)
Theorem evaluator_acceptance
    (aniListID : Z) (t th : float64) (video frame : string)
    (m : Model.TraceMoeResult) (rest : list Model.TraceMoeResult)
    (reasons : list string) (found : bool) :
  titleMismatch aniListID m = false ->
  (scanResults aniListID t th video frame (m :: rest) reasons found = Accepted m
   <-> ((Model.From m <= t)%Q /\ (t <= Model.To m)%Q)
       \/ ((Model.From m - th <= t)%Q /\ (t < Model.From m)%Q)
       \/ ((Model.To m < t)%Q /\ (t <= Model.To m + th)%Q))
  /\ ((0 <= th)%Q -> (Model.From m <= Model.To m)%Q ->
      (scanResults aniListID t th video frame (m :: rest) reasons found = Accepted m
       <-> (Model.From m - th <= t)%Q /\ (t <= Model.To m + th)%Q)).
Proof.
  intros Ht.
  assert (Hscan : scanResults aniListID t th video frame (m :: rest) reasons found
                  = Accepted m
                  <-> timestampMatches t (Model.From m) (Model.To m) th = true).
  { split.
    - intros H. apply scanResults_Accepted_inv in H as [_ H].
      unfold acceptable in H. by apply andb_true_iff in H as [_ H].
    - intros H. simpl. by rewrite Ht, H. }
  split.
  - rewrite Hscan. apply timestampMatches_union.
  - intros Hth Hr. rewrite Hscan. by apply timestampMatches_interval.
Qed.

(** C1 as stated fails for a negative threshold (a candidate whose range
    holds the timestamp is accepted though the timestamp is below
    [from - th]) and for a range given backwards (a candidate is accepted
    for a timestamp just before [from] though it is above [to + th]). *)
Lemma evaluator_acceptance_not_interval :
  (titleMismatch 0 (candidate 7 0 10 (1 # 2)) = false
   /\ scanResults 0 0 (-1) "video1" "f.jpg" [candidate 7 0 10 (1 # 2)] [] false
      = Accepted (candidate 7 0 10 (1 # 2))
   /\ ~ (0 - (-1) <= 0)%Q)
  /\ (titleMismatch 0 (candidate 7 10 0 (1 # 2)) = false
      /\ scanResults 0 9 1 "video1" "f.jpg" [candidate 7 10 0 (1 # 2)] [] false
         = Accepted (candidate 7 10 0 (1 # 2))
      /\ ~ (9 <= 0 + 1)%Q).
Proof.
  split; (split; [reflexivity|]); (split; [reflexivity|]);
    intros H; vm_compute in H; by apply H.
Qed.

Lemma evaluator_acceptance_witness :
  titleMismatch 0 (candidate 7 0 10 (1 # 2)) = false
  /\ scanResults 0 0 (-1) "video1" "f.jpg" [candidate 7 0 10 (1 # 2)] [] false
     = Accepted (candidate 7 0 10 (1 # 2))
  /\ ((0 <= 5)%Q -> (10 <= 20)%Q ->
      (scanResults 0 22 5 "video1" "f.jpg" [candidate 7 10 20 (1 # 2)] [] false
       = Accepted (candidate 7 10 20 (1 # 2))
       <-> (10 - 5 <= 22)%Q /\ (22 <= 20 + 5)%Q)).
Proof.
  assert (Ha : titleMismatch 0 (candidate 7 0 10 (1 # 2)) = false) by reflexivity.
  assert (Hb : titleMismatch 0 (candidate 7 10 20 (1 # 2)) = false) by reflexivity.
  split; [exact Ha|]. split.
  - destruct (evaluator_acceptance 0 0 (-1) "video1" "f.jpg" (candidate 7 0 10 (1 # 2))
                [] [] false Ha) as [[_ Hunion] _].
    apply Hunion. left. split; by vm_compute.
  - destruct (evaluator_acceptance 0 22 5 "video1" "f.jpg" (candidate 7 10 20 (1 # 2))
                [] [] false Hb) as [_ Hinterval].
    exact Hinterval.
Defined.

(** ** [IdentifyEpisode] on a decoded response *)

Lemma IdentifyEpisode_decoded imagePath th proxyURL result w :
  isBroken (ei w) proxyURL = false ->
  IdentifyEpisode imagePath th proxyURL (Decoded result) w =
  match scanResults (aniListID (ei w)) (frameTimestamp imagePath) th
          (frameVideo imagePath) (frameBase imagePath) (Model.Result result) [] false with
  | Accepted m =>
      (with_ei (fun e =>
                  set_Matches
                    (Matches e ++ [buildMatchInfo m (frameTimestamp imagePath)
                                     (frameVideo imagePath) (frameBase imagePath) proxyURL]) e)
         (note_call proxyURL imagePath w),
       (matchText m (frameTimestamp imagePath) (frameVideo imagePath)
          (frameBase imagePath) proxyURL,
        Model.Similarity m, None))
  | Exhausted reasons foundPotentialMatch =>
      (print (if foundPotentialMatch && (0 <? length reasons)%nat
              then failedToIdentifyText (frameVideo imagePath) (frameBase imagePath)
                     (hd "" reasons) (length reasons)
              else noMatchText (frameVideo imagePath) (frameBase imagePath))
         (note_call proxyURL imagePath w),
       ("", 0%Q, None))
  end.
Proof.
  intros Hb. unfold IdentifyEpisode, frameTimestamp, frameVideo, frameBase.
  change (ei (note_call proxyURL imagePath w)) with (ei w). rewrite Hb.
  destruct (scanResults _ _ _ _ _ _ _ _) as [m|reasons found]; [reflexivity|].
  by destruct (found && _).
Qed.

(** C2. When several candidates would each be accepted, the call returns
    the first of them in the order of the response, records that one, and
    what follows it in the response, whatever its similarity, has no
    influence on the outcome. *)
Theorem first_fit (imagePath : string) (th : float64) (proxyURL : string)
    (w : World) (result : Model.TraceMoeResponse)
    (pre post : list Model.TraceMoeResult) (m : Model.TraceMoeResult) :
  isBroken (ei w) proxyURL = false ->
  Model.Result result = (pre ++ m :: post)%list ->
  Forall (fun c => acceptable (aniListID (ei w)) (frameTimestamp imagePath) th c = false) pre ->
  acceptable (aniListID (ei w)) (frameTimestamp imagePath) th m = true ->
  IdentifyEpisode imagePath th proxyURL (Decoded result) w =
  (with_ei (fun e =>
              set_Matches
                (Matches e ++ [buildMatchInfo m (frameTimestamp imagePath)
                                 (frameVideo imagePath) (frameBase imagePath) proxyURL]) e)
     (note_call proxyURL imagePath w),
   (matchText m (frameTimestamp imagePath) (frameVideo imagePath)
      (frameBase imagePath) proxyURL,
    Model.Similarity m, None)).
Proof.
  intros Hb Hres Hpre Hm.
  rewrite (IdentifyEpisode_decoded _ _ _ _ _ Hb), scanResults_find, Hres.
  by rewrite (find_first_fit _ pre post m Hpre Hm).
Qed.

(** Two candidates that both fit; the second has the higher similarity and
    the first is returned. *)
Lemma first_fit_witness :
  isBroken (ei (worldOf (directIdentifier 0) 0)) directURL = false
  /\ Model.Result (response [candidate 7 10 20 (1 # 2); candidate 8 0 30 (99 # 100)])
     = ([] ++ candidate 7 10 20 (1 # 2) :: [candidate 8 0 30 (99 # 100)])%list
  /\ Forall (fun c => acceptable 0 (frameTimestamp sampleFrame) 5 c = false) []
  /\ acceptable 0 (frameTimestamp sampleFrame) 5 (candidate 7 10 20 (1 # 2)) = true
  /\ acceptable 0 (frameTimestamp sampleFrame) 5 (candidate 8 0 30 (99 # 100)) = true
  /\ (IdentifyEpisode sampleFrame 5 directURL
        (Decoded (response [candidate 7 10 20 (1 # 2); candidate 8 0 30 (99 # 100)]))
        (worldOf (directIdentifier 0) 0)).2.1.2 = (1 # 2)%Q.
Proof.
  split; [reflexivity|]. split; [reflexivity|]. split; [constructor|].
  split; [reflexivity|]. split; [reflexivity|].
  rewrite (first_fit sampleFrame 5 directURL (worldOf (directIdentifier 0) 0)
             (response [candidate 7 10 20 (1 # 2); candidate 8 0 30 (99 # 100)])
             [] [candidate 8 0 30 (99 # 100)] (candidate 7 10 20 (1 # 2)));
    [reflexivity | reflexivity | reflexivity | constructor | reflexivity].
Defined.

(** C5, as amended. When no candidate is accepted, the call returns no
    match and a nil error, leaves the match list as it was, and has
    collected one reason for each candidate, in order. It prints one text:
    if some candidate passed the title filter, the text carries the first
    collected reason and the number of reasons; if every candidate was
    turned down by the title filter, or there was none, the text is the
    fixed one and carries no collected reason. *)
Theorem no_match_outcome (imagePath : string) (th : float64) (proxyURL : string)
    (w : World) (result : Model.TraceMoeResponse) :
  isBroken (ei w) proxyURL = false ->
  Forall (fun c => acceptable (aniListID (ei w)) (frameTimestamp imagePath) th c = false)
    (Model.Result result) ->
  let reasons :=
    map (reasonFor (aniListID (ei w)) (frameTimestamp imagePath) th
           (frameVideo imagePath) (frameBase imagePath)) (Model.Result result) in
  let passedFilter :=
    existsb (fun m => negb (titleMismatch (aniListID (ei w)) m)) (Model.Result result) in
  let out := IdentifyEpisode imagePath th proxyURL (Decoded result) w in
  out.2 = ("", 0%Q, None)
  /\ Matches (ei out.1) = Matches (ei w)
  /\ scanResults (aniListID (ei w)) (frameTimestamp imagePath) th (frameVideo imagePath)
       (frameBase imagePath) (Model.Result result) [] false
     = Exhausted reasons passedFilter
  /\ stdout out.1 =
     (stdout w ++ [if passedFilter
                   then failedToIdentifyText (frameVideo imagePath) (frameBase imagePath)
                          (hd "" reasons) (length reasons)
                   else noMatchText (frameVideo imagePath) (frameBase imagePath)])%list.
Proof.
  intros Hb Hno reasons passedFilter out.
  assert (Hscan : scanResults (aniListID (ei w)) (frameTimestamp imagePath) th
                    (frameVideo imagePath) (frameBase imagePath) (Model.Result result) [] false
                  = Exhausted reasons passedFilter).
  { rewrite scanResults_find.
    destruct (List.find _ _) as [m|] eqn:Hf; [|reflexivity].
    apply find_some in Hf as [Hin Hacc].
    rewrite Forall_forall in Hno. apply list_elem_of_In in Hin.
    rewrite (Hno m Hin) in Hacc. discriminate. }
  subst out. rewrite (IdentifyEpisode_decoded _ _ _ _ _ Hb), Hscan. simpl.
  repeat split.
  destruct passedFilter eqn:Hp; simpl; [|reflexivity].
  destruct reasons as [|r0 rs] eqn:Hr; [|reflexivity].
  exfalso. subst reasons passedFilter.
  destruct (Model.Result result); [discriminate Hp|discriminate Hr].
Qed.

Lemma no_match_outcome_witness :
  isBroken (ei (worldOf (directIdentifier 0) 0)) directURL = false
  /\ Forall (fun c => acceptable 0 (frameTimestamp sampleFrame) 5 c = false)
       (Model.Result (response [candidate 7 100 200 (1 # 2); candidate 8 300 400 (1 # 2)]))
  /\ stdout (IdentifyEpisode sampleFrame 5 directURL
               (Decoded (response [candidate 7 100 200 (1 # 2); candidate 8 300 400 (1 # 2)]))
               (worldOf (directIdentifier 0) 0)).1
     = [failedToIdentifyText "video1" "frame_1_timestamp_00-00-12.jpg"
          (timestampMismatchReason 12 5 (candidate 7 100 200 (1 # 2)) "video1"
             "frame_1_timestamp_00-00-12.jpg") 2].
Proof.
  split; [reflexivity|].
  split; [repeat constructor|].
  destruct (no_match_outcome sampleFrame 5 directURL (worldOf (directIdentifier 0) 0)
              (response [candidate 7 100 200 (1 # 2); candidate 8 300 400 (1 # 2)]))
    as (_ & _ & _ & Hout); [reflexivity | repeat constructor |].
  rewrite Hout. reflexivity.
Defined.

(** C5 as stated fails when the title filter turns every candidate down:
    a reason is collected, the call returns no match, and the text printed
    is the fixed one, in which the collected reason does not occur. *)
Lemma no_match_reason_not_surfaced :
  let w := worldOf (directIdentifier 1) 0 in
  let out := IdentifyEpisode sampleFrame 5 directURL
               (Decoded (response [candidate 2 10 20 (1 # 2)])) w in
  out.2 = ("", 0%Q, None)
  /\ scanResults 1 12 5 "video1" "frame_1_timestamp_00-00-12.jpg"
       [candidate 2 10 20 (1 # 2)] [] false
     = Exhausted [idMismatchReason 1 (candidate 2 10 20 (1 # 2)) "video1"
                    "frame_1_timestamp_00-00-12.jpg"] false
  /\ stdout out.1 = [noMatchText "video1" "frame_1_timestamp_00-00-12.jpg"]
  /\ forallb (fun line =>
                negb (Contains line
                        (idMismatchReason 1 (candidate 2 10 20 (1 # 2)) "video1"
                           "frame_1_timestamp_00-00-12.jpg")))
       (stdout out.1) = true.
Proof. vm_compute. repeat split. Qed.

(** ** The stored similarity *)

Lemma append_assoc (a b c : string) : (a +:+ b) +:+ c = a +:+ (b +:+ c).
Proof.
  induction a as [|x a IH]; [reflexivity|].
  change (String x ((a +:+ b) +:+ c) = String x (a +:+ (b +:+ c))). by f_equal.
Qed.

Lemma matchText_shows_percentage m t video frame proxyURL :
  exists before after : string,
    matchText m t video frame proxyURL =
    before +:+ "Similarity: " +:+ fmt_f 2 (Model.Similarity m * 100)%Q +:+ "%" +:+ after.
Proof.
  exists (nl +:+ "✅ Match Found!" +:+ nl +:+
          "   - Title: " +:+ displayTitle m +:+ nl +:+
          "   - Episode: " +:+ Model.String_ (Model.Episode m) +:+ nl +:+ "   - ").
  eexists. unfold matchText. rewrite !append_assoc. reflexivity.
Qed.

(** C7, as amended. The record appended on acceptance stores the
    candidate's similarity multiplied by 100; the value of the service, in
    the range 0 to 1, is what the call returns to its caller, and the text
    shows the percentage. *)
Theorem stored_similarity_is_percentage (imagePath : string) (th : float64)
    (proxyURL : string) (w : World) (result : Model.TraceMoeResponse)
    (m : Model.TraceMoeResult) :
  isBroken (ei w) proxyURL = false ->
  scanResults (aniListID (ei w)) (frameTimestamp imagePath) th (frameVideo imagePath)
    (frameBase imagePath) (Model.Result result) [] false = Accepted m ->
  let out := IdentifyEpisode imagePath th proxyURL (Decoded result) w in
  exists (record : MatchInfo) (before after : string),
    Matches (ei out.1) = (Matches (ei w) ++ [record])%list
    /\ Similarity record = (Model.Similarity m * 100)%Q
    /\ out.2.1.2 = Model.Similarity m
    /\ out.2.2 = None
    /\ out.2.1.1 =
       before +:+ "Similarity: " +:+ fmt_f 2 (Model.Similarity m * 100)%Q +:+ "%" +:+ after.
Proof.
  intros Hb Hscan out. subst out.
  rewrite (IdentifyEpisode_decoded _ _ _ _ _ Hb), Hscan. simpl.
  destruct (matchText_shows_percentage m (frameTimestamp imagePath) (frameVideo imagePath)
              (frameBase imagePath) proxyURL) as (before & after & Htext).
  eexists _, before, after. repeat split. exact Htext.
Qed.

Lemma stored_similarity_is_percentage_witness :
  isBroken (ei (worldOf (directIdentifier 0) 0)) directURL = false
  /\ scanResults 0 (frameTimestamp sampleFrame) 5 (frameVideo sampleFrame)
       (frameBase sampleFrame) (Model.Result (response [candidate 7 10 20 (19 # 20)])) [] false
     = Accepted (candidate 7 10 20 (19 # 20))
  /\ exists (record : MatchInfo) (before after : string),
       Matches (ei (IdentifyEpisode sampleFrame 5 directURL
                      (Decoded (response [candidate 7 10 20 (19 # 20)]))
                      (worldOf (directIdentifier 0) 0)).1) = [record]
       /\ Similarity record = ((19 # 20) * 100)%Q.
Proof.
  split; [reflexivity|]. split; [reflexivity|].
  destruct (stored_similarity_is_percentage sampleFrame 5 directURL
              (worldOf (directIdentifier 0) 0)
              (response [candidate 7 10 20 (19 # 20)]) (candidate 7 10 20 (19 # 20)))
    as (record & before & after & HM & HS & _); [reflexivity | reflexivity |].
  exists record, before, after. split; [exact HM | exact HS].
Defined.

(** C7 as stated fails: for a candidate reported with similarity 0.95 the
    stored record holds 95, which is not the reported value and is not in
    the range 0 to 1, while the call returns 0.95. *)
Lemma stored_similarity_not_service_value :
  let out := IdentifyEpisode sampleFrame 5 directURL
               (Decoded (response [candidate 7 10 20 (19 # 20)]))
               (worldOf (directIdentifier 0) 0) in
  exists record : MatchInfo,
    Matches (ei out.1) = [record]
    /\ (Similarity record == 95)%Q
    /\ ~ (Similarity record == 19 # 20)%Q
    /\ ~ (Similarity record <= 1)%Q
    /\ out.2.1.2 = (19 # 20)%Q.
Proof.
  eexists. split; [reflexivity|]. simpl.
  split; [reflexivity|]. split; [|split; [|reflexivity]]; intros H; vm_compute in H;
    first [discriminate H | by apply H].
Qed.

(** ** Episode labels *)

Lemma append_nil_r (s : string) : s +:+ "" = s.
Proof.
  induction s as [|c s IH]; [reflexivity|].
  change (String c (s +:+ "") = String c s). by f_equal.
Qed.

Lemma read_digits_uint (d : Decimal.uint) (acc : Z) (n : nat) :
  exists (acc' : Z) (k : nat),
    read_digits (NilEmpty.string_of_uint d) acc n = (acc', (n + k)%nat, "").
Proof.
  revert acc n.
  induction d as [|d IH|d IH|d IH|d IH|d IH|d IH|d IH|d IH|d IH|d IH]; intros acc n;
    [exists acc, O; simpl; by rewrite Nat.add_0_r| ..];
    (cbn [NilEmpty.string_of_uint read_digits];
     match goal with
     | |- context [digit_of ?c] =>
         let v := eval vm_compute in (digit_of c) in
         change (digit_of c) with v; cbv iota
     end;
     match goal with
     | |- context [read_digits _ ?a (S n)] =>
         destruct (IH a (S n)) as (acc' & k & ->)
     end;
     exists acc', (S k); f_equal; f_equal; lia).
Qed.

Lemma read_digits_decimal (d : Decimal.uint) :
  exists (acc : Z) (k : nat),
    read_digits (NilZero.string_of_uint d) 0%Z O = (acc, S k, "").
Proof.
  destruct d as [|d|d|d|d|d|d|d|d|d|d]; [by exists 0%Z, O| ..];
    cbn [NilZero.string_of_uint NilEmpty.string_of_uint read_digits];
    match goal with
    | |- context [digit_of ?c] =>
        let v := eval vm_compute in (digit_of c) in
        change (digit_of c) with v; cbv iota
    end;
    match goal with
    | |- context [read_digits _ ?a 1%nat] =>
        destruct (read_digits_uint d a 1%nat) as (acc' & k & ->)
    end;
    by exists acc', k.
Qed.

Lemma read_sign_decimal (d : Decimal.uint) :
  read_sign (NilZero.string_of_uint d) = (false, NilZero.string_of_uint d).
Proof. by destruct d. Qed.

Lemma ParseFloat_decimal (neg : bool) (d : Decimal.uint) :
  is_Some (ParseFloat ((if neg then "-" else "") +:+ NilZero.string_of_uint d)).
Proof.
  unfold ParseFloat.
  assert (Hs : read_sign ((if neg then "-" else "") +:+ NilZero.string_of_uint d)
               = (neg, NilZero.string_of_uint d)).
  { destruct neg; [reflexivity|]. apply read_sign_decimal. }
  rewrite Hs. destruct (read_digits_decimal d) as (acc & k & ->).
  simpl. eauto.
Qed.

Lemma round_half_even_nonneg (q : Q) : (0 <= q)%Q -> (0 <= round_half_even q)%Z.
Proof.
  intros Hq. unfold round_half_even.
  assert (0 <= Qfloor q)%Z by (change 0%Z with (Qfloor 0); by apply Qfloor_resp_le).
  destruct (Qcompare _ _); [destruct (Z.even _)|..]; lia.
Qed.

Lemma fmt_d_nonneg (z : Z) :
  (0 <= z)%Z -> exists d : Decimal.uint, fmt_d z = NilZero.string_of_uint d.
Proof.
  intros Hz. unfold fmt_d. destruct z as [|p|p]; [by eexists..|lia].
Qed.

(** The text [%.0f] produces reads back as a number. *)
Lemma ParseFloat_fmt_f0 (q : float64) : is_Some (ParseFloat (fmt_f 0 q)).
Proof.
  unfold fmt_f. cbv zeta. change (10 ^ Z.of_nat 0)%Z with 1%Z.
  rewrite Z.div_1_r, append_nil_r.
  destruct (fmt_d_nonneg (round_half_even (Qabs q * inject_Z 1))) as [d ->].
  { apply round_half_even_nonneg. apply Qmult_le_0_compat; [apply Qabs_nonneg|done]. }
  apply ParseFloat_decimal.
Qed.

Lemma String_of_numeric (n : float64) :
  Model.String_ {| Model.Number := n; Model.Raw := fmt_f 0 n |} = fmt_f 0 n.
Proof. unfold Model.String_. simpl. by destruct (negb _). Qed.

(** C6. The three values of the specification decode and render as ["5"],
    ["5"] and ["OVA"]. For every string and every number literal: when it
    reads as a number, the decoded value is that number with its [%.0f]
    text and the rendering is that text; when it does not, the string is
    kept as it is and rendered as it is. Whether the origin had a numeric
    reading can be told from the decoded value. *)
Theorem episode_identifier_roundtrip :
  Model.String_ (Model.decodeEpisode (Model.JString "5")) = "5"
  /\ Model.String_ (Model.decodeEpisode (Model.JNumber "5")) = "5"
  /\ Model.String_ (Model.decodeEpisode (Model.JString "OVA")) = "OVA"
  /\ (forall s : string,
        Model.decodeEpisode (Model.JString s) =
        match ParseFloat s with
        | Some n => {| Model.Number := n; Model.Raw := fmt_f 0 n |}
        | None => {| Model.Number := 0; Model.Raw := s |}
        end
        /\ Model.String_ (Model.decodeEpisode (Model.JString s)) =
           match ParseFloat s with
           | Some n => fmt_f 0 n
           | None => s
           end
        /\ numericEpisode (Model.decodeEpisode (Model.JString s))
           = bool_decide (is_Some (ParseFloat s)))
  /\ (forall lit : string,
        Model.String_ (Model.decodeEpisode (Model.JNumber lit)) =
        match ParseFloat lit with
        | Some n => fmt_f 0 n
        | None => lit
        end
        /\ numericEpisode (Model.decodeEpisode (Model.JNumber lit))
           = bool_decide (is_Some (ParseFloat lit))).
Proof.
  split; [reflexivity|]. split; [reflexivity|]. split; [reflexivity|].
  split.
  - intros s. unfold Model.decodeEpisode, Model.UnmarshalJSON, numericEpisode. simpl.
    destruct (ParseFloat s) as [n|] eqn:Hs; simpl.
    + split; [reflexivity|]. split; [apply String_of_numeric|].
      rewrite !bool_decide_eq_true_2; eauto using ParseFloat_fmt_f0.
    + split; [reflexivity|]. split; [reflexivity|]. by rewrite Hs.
  - intros lit. unfold Model.decodeEpisode, Model.UnmarshalJSON, numericEpisode. simpl.
    destruct (ParseFloat lit) as [n|] eqn:Hs; simpl.
    + split; [apply String_of_numeric|].
      rewrite !bool_decide_eq_true_2; eauto using ParseFloat_fmt_f0.
    + split; [reflexivity|]. by rewrite Hs.
Qed.

(** ** What each operation leaves alone *)

Lemma IdentifyEpisode_failed imagePath th p io w e :
  isBroken (ei w) p = false -> fetchError io = Some e ->
  IdentifyEpisode imagePath th p io w = (note_call p imagePath w, ("", 0%Q, Some e)).
Proof.
  intros Hb He. unfold IdentifyEpisode.
  change (ei (note_call p imagePath w)) with (ei w). rewrite Hb.
  destruct io; simpl in He; try discriminate; by rewrite <- He.
Qed.

Lemma IdentifyEpisode_broken imagePath th p io w :
  isBroken (ei w) p = true ->
  IdentifyEpisode imagePath th p io w =
  (note_call p imagePath w,
   ("", 0%Q, Some ("proxy " +:+ p +:+ " is marked as broken, skipping"))).
Proof.
  intros Hb. unfold IdentifyEpisode.
  change (ei (note_call p imagePath w)) with (ei w). by rewrite Hb.
Qed.

(** The outcomes of one call: an error, no match, or one record more. *)
Lemma IdentifyEpisode_cases imagePath th p io w :
  let out := IdentifyEpisode imagePath th p io w in
  control out.1 = control w
  /\ frameCounts (ei out.1) = frameCounts (ei w)
  /\ aniListID (ei out.1) = aniListID (ei w)
  /\ calls out.1 = (calls w ++ [(p, imagePath)])%list
  /\ ((exists e, out.2 = ("", 0%Q, Some e) /\ Matches (ei out.1) = Matches (ei w))
      \/ (out.2 = ("", 0%Q, None) /\ Matches (ei out.1) = Matches (ei w))
      \/ (exists (m : Model.TraceMoeResult) (result : Model.TraceMoeResponse) (info : string),
            io = Decoded result /\ In m (Model.Result result)
            /\ out.2 = (info, Model.Similarity m, None)
            /\ Matches (ei out.1)
               = (Matches (ei w)
                    ++ [buildMatchInfo m (frameTimestamp imagePath) (frameVideo imagePath)
                          (frameBase imagePath) p])%list)).
Proof.
  destruct (isBroken (ei w) p) eqn:Hb.
  { rewrite (IdentifyEpisode_broken _ _ _ _ _ Hb). simpl. repeat split. left. eauto. }
  destruct (fetchError io) as [e|] eqn:He.
  { rewrite (IdentifyEpisode_failed _ _ _ _ _ _ Hb He). simpl. repeat split. left. eauto. }
  destruct io as [| | | | |result]; try discriminate He.
  rewrite (IdentifyEpisode_decoded _ _ _ _ _ Hb).
  destruct (scanResults _ _ _ _ _ _ _ _) as [m|reasons found] eqn:Hscan; simpl.
  - repeat split. right; right.
    apply scanResults_Accepted_inv in Hscan as [Hin _]. eauto 10.
  - repeat split. right; left. split; reflexivity.
Qed.

Lemma feq_positive (q : float64) : (0 < q)%Q -> feq q 0%Q = false.
Proof.
  intros Hq. destruct (feq q 0%Q) eqn:E; [|reflexivity].
  apply feq_spec in E. rewrite E in Hq. by apply Qlt_irrefl in Hq.
Qed.

Lemma flt_positive (q : float64) : (0 < q)%Q -> flt 0%Q q = true.
Proof. apply flt_spec. Qed.

Lemma countFrame_cases p frame info sim w :
  let w' := countFrame p frame info sim w in
  control w' = control w
  /\ Matches (ei w') = Matches (ei w)
  /\ calls w' = calls w
  /\ frameCounts (ei w') =
     if feq sim 0%Q then frameCounts (ei w)
     else <[p := int_incr (frameCount (ei w) p)]> (frameCounts (ei w)).
Proof.
  unfold countFrame. destruct (feq sim 0%Q); [done|].
  by destruct (flt 0%Q sim).
Qed.

Lemma retryLoop_control n r frame th p retries st :
  let out := retryLoop n r frame th p retries st in
  control out.1 = control st.1
  /\ frameCounts (ei out.1) = frameCounts (ei st.1)
  /\ aniListID (ei out.1) = aniListID (ei st.1).
Proof.
  revert r st. induction n as [|n IH]; intros r st; [done|].
  cbn [retryLoop].
  pose proof (IdentifyEpisode_cases frame th p (retries r) st.1) as (Hc & Hf & Ha & _).
  destruct (IdentifyEpisode frame th p (retries r) st.1) as [w1 [[info sim] err]].
  simpl in Hc, Hf, Ha.
  destruct (bool_decide (err = None) && flt 0%Q sim).
  - simpl. by rewrite <- Hc, <- Hf, <- Ha.
  - specialize (IH (S r) (print ("⚠️ Retry " +:+ fmt_d (Z.of_nat r)
                    +:+ "/3 failed for direct connection: " +:+ errText err +:+ nl) w1,
             (info, sim, err))).
    simpl in IH. destruct IH as (IHc & IHf & IHa).
    by rewrite IHc, IHf, IHa.
Qed.

(** With positive similarities the retry loop ends either still failing,
    with no record added, or with one record added and a triple that passes
    the test of line 411. *)
Lemma retryLoop_counts n r frame th p retries st :
  (forall k : nat, positiveFetch (retries k)) ->
  dropTest st.2 = true ->
  let out := retryLoop n r frame th p retries st in
  (dropTest out.2 = true /\ Matches (ei out.1) = Matches (ei st.1))
  \/ (dropTest out.2 = false /\ feq out.2.1.2 0%Q = false
      /\ exists mi : MatchInfo,
           ProxyUsed mi = p /\ Matches (ei out.1) = (Matches (ei st.1) ++ [mi])%list).
Proof.
  intros Hpos. revert r st. induction n as [|n IH]; intros r st Hst; [by left|].
  cbn [retryLoop].
  pose proof (IdentifyEpisode_cases frame th p (retries r) st.1) as (_ & _ & _ & _ & Hcase).
  destruct (IdentifyEpisode frame th p (retries r) st.1) as [w1 [[info sim] err]].
  simpl in Hcase.
  destruct Hcase as [(e & [= -> -> ->] & HM)|[([= -> -> ->] & HM)|
                     (m & result & info' & Hio & Hin & [= -> -> ->] & HM)]].
  - simpl. rewrite <- HM. by apply IH.
  - simpl. rewrite <- HM. by apply IH.
  - assert (0 < Model.Similarity m)%Q as Hsim.
    { specialize (Hpos r). rewrite Hio in Hpos. simpl in Hpos.
      rewrite Forall_forall in Hpos. apply Hpos. by apply list_elem_of_In. }
    simpl. rewrite (flt_positive _ Hsim). simpl. right.
    unfold dropTest. simpl. rewrite (feq_positive _ Hsim).
    repeat split. eexists. split; [|exact HM]. reflexivity.
Qed.

Lemma retryLoop_S n r frame th p retries st :
  retryLoop (S n) r frame th p retries st =
  let '(w1, (info, similarity, err)) :=
    IdentifyEpisode frame th p (retries r) st.1 in
  if bool_decide (err = None) && flt 0%Q similarity then
    (print (info +:+ nl) w1, (info, similarity, err))
  else
    retryLoop n (S r) frame th p retries
      (print ("⚠️ Retry " +:+ fmt_d (Z.of_nat r)
              +:+ "/3 failed for direct connection: " +:+ errText err +:+ nl) w1,
       (info, similarity, err)).
Proof. reflexivity. Qed.

#[local] Arguments retryLoop : simpl never.
#[local] Arguments IdentifyEpisode : simpl never.
#[local] Arguments countFrame : simpl never.

Lemma handleProxyFailure_counts pickClient pickSend p frame w :
  let w' := handleProxyFailure pickClient pickSend p frame w in
  Matches (ei w') = Matches (ei w)
  /\ frameCounts (ei w') = frameCounts (ei w)
  /\ calls w' = calls w
  /\ aniListID (ei w') = aniListID (ei w).
Proof.
  unfold handleProxyFailure. destruct (3 <=? _)%Z; [|done].
  unfold SafeSend. simpl.
  destruct (channelClosed (ei w)); [done|]. simpl.
  destruct (selectCase _ _) as [[]|]; [|done..].
  by destruct (closed (frames w)).
Qed.

#[local] Arguments handleProxyFailure : simpl never.

(** Whatever the outcome, the frame is handled either without touching
    the routing state, or, on a proxy path, by [handleProxyFailure]. *)
Lemma handleFrame_control p th frame first retries pickClient pickSend w :
  let w' := handleFrame p th frame first retries pickClient pickSend w in
  control w' = control w
  \/ (p <> directURL
      /\ exists (line : string) (w1 : World),
           w' = print line (handleProxyFailure pickClient pickSend p frame w1)
           /\ control w1 = control w).
Proof.
  unfold handleFrame.
  pose proof (IdentifyEpisode_cases frame th p first w) as (Hc & _).
  destruct (IdentifyEpisode frame th p first w) as [w1 [[info sim] err]].
  simpl in Hc. destruct err as [e|].
  - destruct (String.eqb p directURL) eqn:Hp; simpl.
    + left.
      pose proof (retryLoop_control 3 1 frame th p retries (w1, (info, sim, Some e)))
        as (Hr & _).
      destruct (retryLoop _ _ _ _ _ _ _) as [w2 [[info2 sim2] err2]].
      simpl in Hr. destruct (negb (bool_decide (err2 = None)) || feq sim2 0%Q); simpl.
      * rewrite <- Hc, <- Hr. reflexivity.
      * pose proof (countFrame_cases p frame info2 sim2 w2) as (Hk & _).
        simpl in Hk. by rewrite Hk, Hr.
    + right. apply String.eqb_neq in Hp. split; [done|]. eauto.
  - left. pose proof (countFrame_cases p frame info sim w1) as (Hk & _).
    simpl in Hk. by rewrite Hk.
Qed.

(** With positive similarities, handling a frame either adds no record and
    leaves the counters, or adds one record of this path and increments this
    path's counter. *)
Lemma handleFrame_counts p th frame first retries pickClient pickSend w :
  positiveFetch first -> (forall k : nat, positiveFetch (retries k)) ->
  let w' := handleFrame p th frame first retries pickClient pickSend w in
  (Matches (ei w') = Matches (ei w) /\ frameCounts (ei w') = frameCounts (ei w))
  \/ (exists mi : MatchInfo,
        ProxyUsed mi = p
        /\ Matches (ei w') = (Matches (ei w) ++ [mi])%list
        /\ frameCounts (ei w')
           = <[p := int_incr (frameCount (ei w) p)]> (frameCounts (ei w))).
Proof.
  intros Hfirst Hretries. unfold handleFrame.
  pose proof (IdentifyEpisode_cases frame th p first w) as (_ & Hf & _ & _ & Hcase).
  destruct (IdentifyEpisode frame th p first w) as [w1 [[info sim] err]].
  simpl in Hf, Hcase.
  destruct Hcase as [(e & [= -> -> ->] & HM)|[([= -> -> ->] & HM)|
                     (m & result & info' & Hio & Hin & [= -> -> ->] & HM)]].
  - destruct (String.eqb p directURL) eqn:Hp; simpl.
    + pose proof (retryLoop_control 3 1 frame th p retries (w1, ("", 0%Q, Some e)))
        as (_ & Hrf & _).
      pose proof (retryLoop_counts 3 1 frame th p retries (w1, ("", 0%Q, Some e))
                    Hretries eq_refl) as Hr.
      destruct (retryLoop _ _ _ _ _ _ _) as [w2 [[info2 sim2] err2]].
      simpl in Hrf, Hr. unfold dropTest in Hr. simpl in Hr.
      destruct Hr as [(Hd & HM2)|(Hd & Hs & mi & Hmi & HM2)]; rewrite Hd;
        cbn [print ei].
      * left. by rewrite HM2, HM, Hrf, Hf.
      * right. pose proof (countFrame_cases p frame info2 sim2 w2) as (_ & Hk1 & _ & Hk2).
        cbv zeta in Hk1, Hk2. rewrite Hs in Hk2. exists mi.
        split; [done|]. rewrite Hk1, HM2, HM. split; [done|].
        rewrite Hk2. unfold frameCount. by rewrite Hrf, Hf.
    + left. pose proof (handleProxyFailure_counts pickClient pickSend p frame w1)
        as (H1 & H2 & _).
      cbv zeta in H1, H2. cbn [print ei]. by rewrite H1, H2, HM, Hf.
  - left. pose proof (countFrame_cases p frame "" 0%Q w1) as (_ & Hk1 & _ & Hk2).
    cbv zeta in Hk1, Hk2. change (feq 0%Q 0%Q) with true in Hk2. cbv iota in Hk2.
    by rewrite Hk1, Hk2, HM, Hf.
  - right.
    assert (0 < Model.Similarity m)%Q as Hsim.
    { rewrite Hio in Hfirst. simpl in Hfirst.
      rewrite Forall_forall in Hfirst. apply Hfirst. by apply list_elem_of_In. }
    pose proof (countFrame_cases p frame info' (Model.Similarity m) w1)
      as (_ & Hk1 & _ & Hk2).
    cbv zeta in Hk1, Hk2. rewrite (feq_positive _ Hsim) in Hk2.
    eexists. split; [|split; [by rewrite Hk1, HM|]]; [reflexivity|].
    rewrite Hk2. unfold frameCount. by rewrite Hf.
Qed.

(** ** The failure handler *)

Lemma int_incr_small (c : Z) : (- 2 ^ 63 <= c < 2 ^ 63 - 1)%Z -> int_incr c = (c + 1)%Z.
Proof.
  intros Hc. unfold int_incr, int_wrap.
  rewrite Z.mod_small; lia.
Qed.


#[local] Arguments selectCase : simpl never.

Lemma SafeSend_flagged pick frame w :
  channelClosed (ei w) = true -> SafeSend pick frame w = w.
Proof. intros H. unfold SafeSend. by rewrite H. Qed.



(** Once [CloseFramesChannel] has run, nothing is sent. *)
Lemma SafeSend_after_close pick frame w :
  done (ei w) = false -> closed (frames w) = false ->
  SafeSend pick frame (CloseFramesChannel w) = CloseFramesChannel w.
Proof.
  intros Hd Hc. apply SafeSend_flagged.
  unfold CloseFramesChannel. by rewrite Hd, Hc.
Qed.









(** ** The dispatch invariant *)






Lemma control_fields (w w' : World) :
  control w' = control w ->
  frames w' = frames w /\ panicked w' = panicked w
  /\ httpClients (ei w') = httpClients (ei w)
  /\ failCounts (ei w') = failCounts (ei w)
  /\ brokenProxies (ei w') = brokenProxies (ei w)
  /\ done (ei w') = done (ei w) /\ channelClosed (ei w') = channelClosed (ei w).
Proof. unfold control. intros [= -> -> -> -> -> -> ->]. done. Qed.







(** ** [NewEpisodeIdentifier] *)








(** ** Calls made while handling a frame *)

Lemma retryLoop_calls n r frame th p retries st :
  exists k : nat,
    (k <= n)%nat
    /\ calls (retryLoop n r frame th p retries st).1
       = (calls st.1 ++ replicate k (p, frame))%list.
Proof.
  revert r st. induction n as [|n IH]; intros r st.
  - exists O. split; [done|]. simpl. by rewrite app_nil_r.
  - rewrite retryLoop_S.
    pose proof (IdentifyEpisode_cases frame th p (retries r) st.1) as (_ & _ & _ & Hc & _).
    destruct (IdentifyEpisode frame th p (retries r) st.1) as [w1 [[info sim] err]].
    cbn [fst] in Hc.
    destruct (bool_decide (err = None) && flt 0%Q sim).
    + exists 1%nat. split; [lia|]. cbn [fst print calls]. by rewrite Hc.
    + destruct (IH (S r) (print ("⚠️ Retry " +:+ fmt_d (Z.of_nat r)
                    +:+ "/3 failed for direct connection: " +:+ errText err +:+ nl) w1,
             (info, sim, err))) as (k & Hk & ->).
      exists (S k). split; [lia|]. cbn [fst print calls]. rewrite Hc.
      by rewrite <- app_assoc.
Qed.

(** An attempt that fails returns a triple that fails the test of line
    411 and adds no record. *)
Lemma IdentifyEpisode_attemptFails frame th p io w :
  attemptFails (aniListID (ei w)) frame th io ->
  let out := IdentifyEpisode frame th p io w in
  dropTest out.2 = true
  /\ (bool_decide (out.2.2 = None) && flt 0%Q out.2.1.2 = false)
  /\ Matches (ei out.1) = Matches (ei w).
Proof.
  intros Hfail.
  destruct (isBroken (ei w) p) eqn:Hb.
  { by rewrite (IdentifyEpisode_broken _ _ _ _ _ Hb). }
  destruct (fetchError io) as [e|] eqn:He.
  { by rewrite (IdentifyEpisode_failed _ _ _ _ _ _ Hb He). }
  destruct io as [| | | | |result]; try discriminate He.
  rewrite (IdentifyEpisode_decoded _ _ _ _ _ Hb), scanResults_find.
  simpl in Hfail. by rewrite Hfail.
Qed.

Lemma retryLoop_all_fail n r frame th p retries st :
  (forall k : nat, (r <= k < r + n)%nat ->
     attemptFails (aniListID (ei st.1)) frame th (retries k)) ->
  dropTest st.2 = true ->
  let out := retryLoop n r frame th p retries st in
  dropTest out.2 = true
  /\ Matches (ei out.1) = Matches (ei st.1)
  /\ calls out.1 = (calls st.1 ++ replicate n (p, frame))%list.
Proof.
  revert r st. induction n as [|n IH]; intros r st Hfail Hst.
  - simpl. by rewrite app_nil_r.
  - rewrite retryLoop_S.
    pose proof (IdentifyEpisode_cases frame th p (retries r) st.1) as (_ & _ & Ha & Hc & _).
    pose proof (IdentifyEpisode_attemptFails frame th p (retries r) st.1
                  (Hfail r ltac:(lia))) as (Hd & Hs & HM).
    destruct (IdentifyEpisode frame th p (retries r) st.1) as [w1 [[info sim] err]].
    cbn [fst snd] in Ha, Hc, Hd, Hs, HM. rewrite Hs.
    destruct (IH (S r) (print ("⚠️ Retry " +:+ fmt_d (Z.of_nat r)
                    +:+ "/3 failed for direct connection: " +:+ errText err +:+ nl) w1,
             (info, sim, err))) as (IH1 & IH2 & IH3).
    + intros k Hk. cbn [fst print ei]. rewrite Ha. apply Hfail. lia.
    + exact Hd.
    + cbn [fst print ei calls] in IH2, IH3. split; [done|]. split; [congruence|].
      rewrite IH3, Hc, <- app_assoc. reflexivity.
Qed.

Lemma handleFrame_calls p th frame first retries pickClient pickSend w :
  exists k : nat,
    (k <= 3)%nat
    /\ calls (handleFrame p th frame first retries pickClient pickSend w)
       = (calls w ++ replicate (S k) (p, frame))%list.
Proof.
  unfold handleFrame.
  pose proof (IdentifyEpisode_cases frame th p first w) as (_ & _ & _ & Hc & _).
  destruct (IdentifyEpisode frame th p first w) as [w1 [[info sim] err]].
  cbn [fst] in Hc. destruct err as [e|].
  - destruct (negb (String.eqb p directURL)).
    + exists O. split; [lia|]. cbn [print calls].
      pose proof (handleProxyFailure_counts pickClient pickSend p frame w1) as (_ & _ & H & _).
      cbv zeta in H. rewrite H, Hc. reflexivity.
    + destruct (retryLoop_calls 3 1 frame th p retries (w1, (info, sim, Some e)))
        as (k & Hk & Hcalls).
      destruct (retryLoop _ _ _ _ _ _ _) as [w2 [[info2 sim2] err2]].
      cbn [fst] in Hcalls. exists k. split; [done|].
      destruct (negb (bool_decide (err2 = None)) || feq sim2 0%Q).
      * cbn [print calls]. rewrite Hcalls, Hc, <- app_assoc. reflexivity.
      * pose proof (countFrame_cases p frame info2 sim2 w2) as (_ & _ & H & _).
        cbv zeta in H. rewrite H, Hcalls, Hc, <- app_assoc. reflexivity.
  - exists O. split; [lia|].
    pose proof (countFrame_cases p frame info sim w1) as (_ & _ & H & _).
    cbv zeta in H. rewrite H, Hc. reflexivity.
Qed.



(** ** A worker whose path is retired *)

(** C9. A worker at the [select] whose path is flagged broken takes the
    next frame out of the channel and returns: the frame is no longer in the
    channel, the identifier is untouched, no call of [IdentifyEpisode] is
    made, nothing is sent back, and the worker takes no further step. *)
Theorem retired_worker_loses_dequeued_frame (i : nat) (sys : System) (wk : Worker)
    (frame : string) (rest : list string) :
  panicked (world sys) = false ->
  workers sys !! i = Some wk -> pc wk = AtSelect ->
  buf (frames (world sys)) = frame :: rest ->
  isBroken (ei (world sys)) (proxyURL wk) = true ->
  exists sys' : System,
    step i Recv sys = Some sys'
    /\ workers sys' = <[i := at_pc Returned wk]> (workers sys)
    /\ frames (world sys') = pop (frames (world sys))
    /\ buf (frames (world sys')) = rest
    /\ ei (world sys') = ei (world sys)
    /\ calls (world sys') = calls (world sys)
    /\ (forall ev : Event, step i ev sys' = None).
Proof.
  intros Hp Hi Hpc Hbuf Hb.
  unfold step. rewrite Hi. cbn [mbind option_bind].
  unfold processFrames. rewrite Hp, Hpc. unfold receiveFrame. rewrite Hbuf.
  cbn [with_frames ei]. rewrite Hb. cbn [mbind option_bind fst snd].
  eexists. split; [reflexivity|]. cbn [world workers print with_frames frames ei calls pop buf].
  rewrite Hbuf. split_and!; try done.
  intros ev. unfold step. cbn [workers world].
  rewrite list_lookup_insert_eq by (by eapply lookup_lt_Some).
  cbn [mbind option_bind]. unfold processFrames. cbn [print panicked with_frames at_pc pc].
  rewrite Hp. reflexivity.
Qed.

(** After its third failure the worker of the second proxy takes the next
    frame of the queue, one that never failed, and returns. *)
Lemma retired_worker_loses_dequeued_frame_witness :
  exists (sys sys' : System) (wk : Worker),
    run threeFailures twoProxyStart = Some sys
    /\ panicked (world sys) = false
    /\ workers sys !! O = Some wk /\ pc wk = AtSelect
    /\ buf (frames (world sys))
       = ["out/video1/frame_4_timestamp_00-03-12.jpg";
          "out/video1/frame_3_timestamp_00-02-12.jpg"]
    /\ isBroken (ei (world sys)) (proxyURL wk) = true
    /\ step O Recv sys = Some sys'
    /\ buf (frames (world sys')) = ["out/video1/frame_3_timestamp_00-02-12.jpg"]
    /\ calls (world sys') = calls (world sys).
Proof.
  computed_run threeFailures twoProxyStart sys Hrun Hsys.
  destruct (workers sys !! O) as [wk|] eqn:Hwk;
    [|subst sys; vm_compute in Hwk; discriminate Hwk].
  assert (Hp : panicked (world sys) = false) by (by subst sys).
  assert (Hpc : pc wk = AtSelect).
  { subst sys. vm_compute in Hwk. injection Hwk as <-. reflexivity. }
  assert (Hbuf : buf (frames (world sys))
                 = "out/video1/frame_4_timestamp_00-03-12.jpg"
                   :: ["out/video1/frame_3_timestamp_00-02-12.jpg"]) by (by subst sys).
  assert (Hb : isBroken (ei (world sys)) (proxyURL wk) = true).
  { subst sys. vm_compute in Hwk. injection Hwk as <-. reflexivity. }
  destruct (retired_worker_loses_dequeued_frame O sys wk _ _ Hp Hwk Hpc Hbuf Hb)
    as (sys' & Hstep & _ & _ & Hrest & _ & Hcalls & _).
  exists sys, sys', wk. split_and!; done.
Defined.

(** ** The direct connection *)

Lemma map_to_list_one (c : Client) (p : string) :
  map_to_list (<[c := p]> (∅ : gmap Client string)) = [(c, p)].
Proof. rewrite insert_empty. apply map_to_list_singleton. Qed.

(** C4. Without proxies there is one worker, on the direct connection. A
    frame whose first recognition call fails is tried again at most three
    times, by that worker, on that frame; the channel, the failure counts
    and the broken flags stay as they are, so nothing is sent back. If the
    three retries fail as well, four calls have been made in all, the last
    text printed is the one that reports the drop, and neither the match
    list nor the counters have changed. *)
Theorem direct_connection_retries (th : float64) (frame : string)
    (first : Fetch) (retries : nat -> Fetch) (pickClient pickSend : nat) (w : World) :
  isBroken (ei w) directURL = false ->
  is_Some (fetchError first) ->
  let w' := handleFrame directURL th frame first retries pickClient pickSend w in
  (forall api id frameList out,
     proxyURL <$> workers (IdentifyEpisodes (NewEpisodeIdentifier api id []) frameList th out)
     = [directURL])
  /\ control w' = control w
  /\ (exists k : nat,
        (k <= 3)%nat
        /\ calls w' = (calls w ++ replicate (S k) (directURL, frame))%list)
  /\ ((forall k : nat, (1 <= k <= 3)%nat ->
         attemptFails (aniListID (ei w)) frame th (retries k)) ->
      calls w' = (calls w ++ replicate 4 (directURL, frame))%list
      /\ last (stdout w') = Some (dropLine frame)
      /\ Matches (ei w') = Matches (ei w)
      /\ frameCounts (ei w') = frameCounts (ei w)).
Proof.
  intros Hb [e He] w'. split_and!.
  - intros api id frameList out. unfold NewEpisodeIdentifier, IdentifyEpisodes, addClient.
    cbn [workers httpClients emptyIdentifier fst snd].
    by rewrite map_to_list_one.
  - destruct (handleFrame_control directURL th frame first retries pickClient pickSend w)
      as [H|(Hne & _)]; done.
  - apply handleFrame_calls.
  - intros Hfail. subst w'. unfold handleFrame.
    rewrite (IdentifyEpisode_failed _ _ _ _ _ _ Hb He).
    change (negb (directURL =? directURL)%string) with false. cbv iota.
    pose proof (retryLoop_all_fail 3 1 frame th directURL retries
                  (note_call directURL frame w, ("", 0%Q, Some e))) as Hloop.
    pose proof (retryLoop_control 3 1 frame th directURL retries
                  (note_call directURL frame w, ("", 0%Q, Some e))) as (_ & Hfc & _).
    destruct (retryLoop _ _ _ _ _ _ _) as [w2 [[info2 sim2] err2]].
    destruct Hloop as (Hd & HM & Hc); [intros k Hk; apply Hfail; lia|done|].
    unfold dropTest in Hd. cbn [fst snd] in Hd, HM, Hc, Hfc. rewrite Hd.
    cbn [print calls stdout ei]. split_and!.
    + rewrite Hc. cbn [note_call calls]. by rewrite <- app_assoc.
    + by rewrite last_snoc.
    + by rewrite HM.
    + by rewrite Hfc.
Qed.

Lemma direct_connection_retries_witness :
  isBroken (ei (world directStart)) directURL = false
  /\ is_Some (fetchError timeout)
  /\ (forall k : nat, (1 <= k <= 3)%nat ->
        attemptFails 0 "out/video1/frame_1_timestamp_00-00-12.jpg" 5 (alwaysTimeout k))
  /\ calls (handleFrame directURL 5 "out/video1/frame_1_timestamp_00-00-12.jpg"
              timeout alwaysTimeout 0 0 (world directStart))
     = replicate 4 (directURL, "out/video1/frame_1_timestamp_00-00-12.jpg")
  /\ frames (handleFrame directURL 5 "out/video1/frame_1_timestamp_00-00-12.jpg"
               timeout alwaysTimeout 0 0 (world directStart))
     = frames (world directStart).
Proof.
  assert (H1 : isBroken (ei (world directStart)) directURL = false) by reflexivity.
  assert (H2 : is_Some (fetchError timeout)) by (by eexists).
  assert (H3 : forall k : nat, (1 <= k <= 3)%nat ->
                 attemptFails (aniListID (ei (world directStart)))
                   "out/video1/frame_1_timestamp_00-00-12.jpg" 5 (alwaysTimeout k))
    by (intros k _; exact I).
  destruct (direct_connection_retries 5 "out/video1/frame_1_timestamp_00-00-12.jpg"
              timeout alwaysTimeout 0 0 (world directStart) H1 H2)
    as (_ & Hctl & _ & Hdrop).
  destruct (Hdrop H3) as (Hcalls & _).
  apply control_fields in Hctl as (Hfr & _).
  split_and!; [exact H1|exact H2|exact H3|exact Hcalls|exact Hfr].
Defined.

(** ** Retirement is final *)




(** ** C3 *)





(** ** The per-path counters *)

Lemma addClient_zeroed url st :
  (Matches st.1 = [] /\ forall p, frameCount st.1 p = 0%Z) ->
  Matches (addClient url st).1 = [] /\ forall p, frameCount (addClient url st).1 p = 0%Z.
Proof.
  intros [HM Hz]. split; [done|]. intros p. unfold frameCount, addClient in *.
  cbn [fst frameCounts].
  destruct (decide (url = p)) as [->|Hne].
  - by rewrite lookup_insert_eq.
  - rewrite lookup_insert_ne by done. apply Hz.
Qed.

Lemma NewEpisodeIdentifier_zeroed api id (proxies : list ProxyDetails) :
  Matches (NewEpisodeIdentifier api id proxies) = []
  /\ forall p, frameCount (NewEpisodeIdentifier api id proxies) p = 0%Z.
Proof.
  assert (Hfold : forall (l : list ProxyDetails) st,
            (Matches st.1 = [] /\ forall p, frameCount st.1 p = 0%Z) ->
            Matches (fold_left (fun st p => addClient (URL p) st) l st).1 = []
            /\ forall p, frameCount (fold_left (fun st p => addClient (URL p) st) l st).1 p
                         = 0%Z).
  { induction l as [|x l IH]; intros st Hst; [done|].
    simpl. apply IH. by apply addClient_zeroed. }
  assert (Hempty : Matches (emptyIdentifier api id, 1%positive).1 = []
                   /\ forall p, frameCount (emptyIdentifier api id, 1%positive).1 p = 0%Z)
    by done.
  unfold NewEpisodeIdentifier. destruct proxies as [|x l].
  - by apply addClient_zeroed.
  - by apply Hfold.
Qed.

Lemma recordsVia_snoc (p : string) (ms : list MatchInfo) (mi : MatchInfo) :
  recordsVia p (ms ++ [mi])
  = (recordsVia p ms + if decide (ProxyUsed mi = p) then 1 else 0)%nat.
Proof.
  unfold recordsVia. rewrite filter_app, length_app. f_equal.
  destruct (decide (ProxyUsed mi = p)).
  - by rewrite filter_cons_True.
  - by rewrite filter_cons_False.
Qed.

Lemma recordsVia_le (p : string) (ms : list MatchInfo) :
  (recordsVia p ms <= length ms)%nat.
Proof. apply length_filter. Qed.

(** What one step does to the match list and to the counters, when the
    similarities are positive. *)
Lemma counts_step (i : nat) (ev : Event) (sys sys' : System) (wk : Worker) :
  workers sys !! i = Some wk -> positiveEvent ev -> step i ev sys = Some sys' ->
  (Matches (ei (world sys')) = Matches (ei (world sys))
   /\ frameCounts (ei (world sys')) = frameCounts (ei (world sys)))
  \/ (exists mi : MatchInfo,
        ProxyUsed mi = proxyURL wk
        /\ Matches (ei (world sys')) = (Matches (ei (world sys)) ++ [mi])%list
        /\ frameCounts (ei (world sys'))
           = <[proxyURL wk := int_incr (frameCount (ei (world sys)) (proxyURL wk))]>
               (frameCounts (ei (world sys)))).
Proof.
  intros Hi Hpos Hstep. unfold step in Hstep. rewrite Hi in Hstep. simpl in Hstep.
  destruct (processFrames ev wk (world sys)) as [[w' p']|] eqn:Hw; simpl in Hstep;
    [|discriminate].
  injection Hstep as <-. cbn [world].
  unfold processFrames in Hw. destruct (panicked (world sys)); [discriminate|].
  destruct (pc wk) as [|frame|] eqn:Hpc; destruct ev as [|first retries pickC pickS| |];
    try discriminate.
  - left. unfold receiveFrame in Hw.
    destruct (buf (frames (world sys))); [destruct (closed _); [|discriminate]|].
    + by injection Hw as <- <-.
    + destruct (isBroken _ _); by injection Hw as <- <-.
  - left. by injection Hw as <- <-.
  - left. destruct (done _); [|discriminate]. by injection Hw as <- <-.
  - injection Hw as <- <-. destruct Hpos as [Hfirst Hretries].
    by apply handleFrame_counts.
Qed.

Lemma countsAgree_step (e e' : EpisodeIdentifier) (q : string) :
  countsAgree e ->
  (Z.of_nat (length (Matches e')) <= max_int)%Z ->
  (Matches e' = Matches e /\ frameCounts e' = frameCounts e)
  \/ (exists mi : MatchInfo,
        ProxyUsed mi = q /\ Matches e' = (Matches e ++ [mi])%list
        /\ frameCounts e' = <[q := int_incr (frameCount e q)]> (frameCounts e)) ->
  countsAgree e'
  /\ ((Matches e' = Matches e /\ forall p, frameCount e' p = frameCount e p)
      \/ (exists mi : MatchInfo,
            ProxyUsed mi = q /\ Matches e' = (Matches e ++ [mi])%list
            /\ frameCount e' q = (frameCount e q + 1)%Z
            /\ forall p, p <> q -> frameCount e' p = frameCount e p)).
Proof.
  intros Hagree Hbound [[HM Hf]|(mi & Hmi & HM & Hf)].
  - assert (forall p, frameCount e' p = frameCount e p) as Hsame
      by (intros p; unfold frameCount; by rewrite Hf).
    split; [|by left]. intros p. rewrite Hsame, HM. apply Hagree.
  - assert (int_incr (frameCount e q) = (frameCount e q + 1)%Z) as Hincr.
    { apply int_incr_small. rewrite (Hagree q).
      pose proof (recordsVia_le q (Matches e)).
      rewrite HM, length_app in Hbound. simpl in Hbound.
      unfold max_int in Hbound. lia. }
    assert (frameCount e' q = (frameCount e q + 1)%Z) as Hq.
    { unfold frameCount at 1. rewrite Hf, lookup_insert_eq. exact Hincr. }
    assert (forall p, p <> q -> frameCount e' p = frameCount e p) as Hp.
    { intros p Hne. unfold frameCount at 1. rewrite Hf, lookup_insert_ne by done.
      reflexivity. }
    split; [|right; eauto 10].
    intros p. rewrite HM, recordsVia_snoc, Hmi.
    destruct (decide (q = p)) as [<-|Hne].
    + rewrite Hq, (Hagree q). lia.
    + rewrite Hp by done. rewrite (Hagree p). lia.
Qed.

Lemma countsAgree_run (schedule : list (nat * Event)) (sys sys' : System) :
  Forall (fun s => positiveEvent s.2) schedule ->
  run schedule sys = Some sys' ->
  (length (Matches (ei (world sys))) <= length (Matches (ei (world sys'))))%nat
  /\ (countsAgree (ei (world sys)) ->
      (Z.of_nat (length (Matches (ei (world sys')))) <= max_int)%Z ->
      countsAgree (ei (world sys'))).
Proof.
  revert sys. induction schedule as [|[i ev] rest IH]; intros sys Hpos Hrun.
  - injection Hrun as <-. split; [lia|done].
  - apply Forall_cons in Hpos as [Hev Hrest]. simpl in Hrun, Hev.
    destruct (step i ev sys) as [sys1|] eqn:Hs; [|discriminate]. simpl in Hrun.
    destruct (IH sys1 Hrest Hrun) as [Hlen IHagree].
    assert (exists wk, workers sys !! i = Some wk) as [wk Hi].
    { unfold step in Hs. destruct (workers sys !! i); [eauto|discriminate]. }
    pose proof (counts_step i ev sys sys1 wk Hi Hev Hs) as Hcase.
    assert (length (Matches (ei (world sys))) <= length (Matches (ei (world sys1))))%nat
      as Hlen1.
    { destruct Hcase as [[-> _]|(mi & _ & -> & _)]; [lia|]. rewrite length_app. lia. }
    split; [lia|]. intros Hagree Hbound. apply IHagree; [|done].
    eapply (countsAgree_step _ _ (proxyURL wk)); [done|lia|done].
Qed.

(** C10, as amended. Suppose every candidate the service returns has a
    positive similarity, and the match list is no longer than an [int] can
    count. Then in every state reached by a dispatch the counter of each
    path equals the number of match records that came through that path;
    and any further step either leaves the match list and every counter as
    they are, or adds one record of the stepping worker's path and raises
    that path's counter, and no other, by one. *)
Theorem processed_counter_counts_matches api id (proxies : list ProxyDetails)
    frameList th out (schedule : list (nat * Event)) (sys : System) :
  Forall (fun s => positiveEvent s.2) schedule ->
  run schedule (IdentifyEpisodes (NewEpisodeIdentifier api id proxies) frameList th out)
  = Some sys ->
  (Z.of_nat (length (Matches (ei (world sys)))) <= max_int)%Z ->
  (forall p : string,
     frameCount (ei (world sys)) p
     = Z.of_nat (recordsVia p (Matches (ei (world sys)))))
  /\ forall (i : nat) (wk : Worker) (ev : Event) (sys' : System),
       workers sys !! i = Some wk -> positiveEvent ev -> step i ev sys = Some sys' ->
       (Z.of_nat (length (Matches (ei (world sys')))) <= max_int)%Z ->
       (Matches (ei (world sys')) = Matches (ei (world sys))
        /\ forall p, frameCount (ei (world sys')) p = frameCount (ei (world sys)) p)
       \/ (exists mi : MatchInfo,
             ProxyUsed mi = proxyURL wk
             /\ Matches (ei (world sys')) = (Matches (ei (world sys)) ++ [mi])%list
             /\ frameCount (ei (world sys')) (proxyURL wk)
                = (frameCount (ei (world sys)) (proxyURL wk) + 1)%Z
             /\ forall p, p <> proxyURL wk ->
                  frameCount (ei (world sys')) p = frameCount (ei (world sys)) p).
Proof.
  intros Hpos Hrun Hbound.
  destruct (countsAgree_run _ _ _ Hpos Hrun) as [_ Hagree].
  assert (countsAgree (ei (world sys))) as Hnow.
  { apply Hagree; [|done].
    destruct (NewEpisodeIdentifier_zeroed api id proxies) as [HM Hz].
    intros p. cbn [IdentifyEpisodes world ei]. by rewrite Hz, HM. }
  split; [exact Hnow|].
  intros i wk ev sys' Hi Hev Hstep Hbound'.
  pose proof (counts_step i ev sys sys' wk Hi Hev Hstep) as Hcase.
  by destruct (countsAgree_step _ _ (proxyURL wk) Hnow Hbound' Hcase) as [_ H].
Qed.

Lemma processed_counter_counts_matches_witness :
  Forall (fun s => positiveEvent s.2) oneMatchRun
  /\ exists sys : System,
       run oneMatchRun twoProxyStart = Some sys
       /\ (Z.of_nat (length (Matches (ei (world sys)))) <= max_int)%Z
       /\ recordsVia "http://10.0.0.2:8080" (Matches (ei (world sys))) = 1%nat
       /\ frameCount (ei (world sys)) "http://10.0.0.2:8080" = 1%Z
       /\ frameCount (ei (world sys)) "http://10.0.0.2:8080"
          = Z.of_nat (recordsVia "http://10.0.0.2:8080" (Matches (ei (world sys)))).
Proof.
  assert (Hpos : Forall (fun s => positiveEvent s.2) oneMatchRun).
  { repeat constructor. }
  split; [exact Hpos|].
  computed_run oneMatchRun twoProxyStart sys Hrun Hsys.
  assert (Hbound : (Z.of_nat (length (Matches (ei (world sys)))) <= max_int)%Z).
  { subst sys. by vm_compute. }
  destruct (processed_counter_counts_matches "https://api.trace.moe/search?anilistInfo" 0
              [proxyA; proxyB] fourFrames 5 [] oneMatchRun sys Hpos Hrun Hbound)
    as [Hagree _].
  exists sys. split_and!; [done|exact Hbound|by subst sys|by subst sys|apply Hagree].
Defined.

(** C10 as stated fails for a candidate that fits the timestamp and is
    reported with similarity 0: its record is appended, the worker takes the
    returned similarity 0 for "no match", and the counter of the path stays
    at 0 with one record produced through it. *)
Lemma counter_misses_zero_similarity_match :
  exists sys : System,
    run zeroSimilarityRun twoProxyStart = Some sys
    /\ recordsVia "http://10.0.0.2:8080" (Matches (ei (world sys))) = 1%nat
    /\ frameCount (ei (world sys)) "http://10.0.0.2:8080" = 0%Z.
Proof.
  computed_run zeroSimilarityRun twoProxyStart sys Hrun Hsys.
  exists sys. split; [done|]. by subst sys.
Qed.

(** * Further properties *)

(** ** Frames in flight *)

Lemma SafeSend_open pick frame w :
  closed (frames w) = false ->
  SafeSend pick frame w = w \/ SafeSend pick frame w = with_frames (push frame) w.
Proof.
  intros Hc. unfold SafeSend. destruct (negb _); [|by left].
  destruct (selectCase _ _) as [[]|]; [|by left..].
  rewrite Hc. by right.
Qed.

Lemma handleProxyFailure_open pickClient pickSend p frame w :
  closed (frames w) = false ->
  let w' := handleProxyFailure pickClient pickSend p frame w in
  panicked w' = panicked w
  /\ done (ei w') = done (ei w)
  /\ channelClosed (ei w') = channelClosed (ei w)
  /\ (frames w' = frames w \/ frames w' = push frame (frames w)).
Proof.
  intros Hc. unfold handleProxyFailure. destruct (3 <=? _)%Z; [|split_and!; try done; by left].
  match goal with |- context [SafeSend ?a ?b ?c] =>
    destruct (SafeSend_open a b c Hc) as [-> | ->] end;
    split_and!; try done; first [by left | by right].
Qed.

Lemma heldFrames_cons (wk : Worker) (ws : list Worker) :
  heldFrames (wk :: ws) = (heldFrame wk ++ heldFrames ws)%list.
Proof. reflexivity. Qed.

Lemma heldFrames_insert (ws : list Worker) (i : nat) (wk wk' : Worker) :
  ws !! i = Some wk ->
  (heldFrame wk' ++ heldFrames ws)%list ≡ₚ (heldFrame wk ++ heldFrames (<[i := wk']> ws))%list.
Proof.
  revert i. induction ws as [|x ws IH]; intros [|i] H; try discriminate.
  - injection H as ->. cbn [insert list_insert]. rewrite !heldFrames_cons.
    apply Permutation_app_swap_app.
  - specialize (IH i H). cbn [insert list_insert]. rewrite !heldFrames_cons.
    rewrite (Permutation_app_swap_app (heldFrame wk')), (Permutation_app_swap_app (heldFrame wk)).
    by f_equiv.
Qed.

Lemma open_step (frameList : list string) (i : nat) (ev : Event) (sys sys' : System) :
  open frameList sys -> step i ev sys = Some sys' -> open frameList sys'.
Proof.
  intros (I1 & I2 & I3 & I4 & I5 & I6) Hstep. unfold step in Hstep.
  destruct (workers sys !! i) as [wk|] eqn:Hi; simpl in Hstep; [|discriminate].
  destruct (processFrames ev wk (world sys)) as [[w' p']|] eqn:Hw; simpl in Hstep;
    [|discriminate].
  injection Hstep as <-. unfold open, inFlight in *. cbn [world workers].
  unfold processFrames in Hw. rewrite I1 in Hw.
  destruct (pc wk) as [|frame|] eqn:Hpc; destruct ev as [|first retries pickC pickS| |];
    try discriminate.
  - unfold receiveFrame in Hw.
    destruct (buf (frames (world sys))) as [|frame rest] eqn:Hbuf.
    { rewrite I4 in Hw. discriminate. }
    destruct (isBroken (ei (with_frames pop (world sys))) (proxyURL wk)) eqn:Hb;
      injection Hw as <- <-; cbn [print with_frames frames pop buf ei panicked cap closed];
      rewrite Hbuf; (split_and!; try done); cbn [tail].
    + pose proof (heldFrames_insert _ i wk (at_pc Returned wk) Hi) as Hperm.
      unfold heldFrame in Hperm at 1 2. rewrite Hpc in Hperm. cbn in Hperm.
      rewrite <- Hperm. etrans; [|exact I6]. by apply submseteq_cons.
    + pose proof (heldFrames_insert _ i wk (at_pc (Holding frame) wk) Hi) as Hperm.
      unfold heldFrame in Hperm at 1 2. rewrite Hpc in Hperm. cbn in Hperm.
      rewrite <- Hperm. etrans; [|exact I6].
      by rewrite <- Permutation_middle.
  - injection Hw as <- <-. split_and!; try done.
    pose proof (heldFrames_insert _ i wk
                  (at_pc (if (length (buf (frames (world sys))) =? 0)%nat
                          then Returned else AtSelect) wk) Hi) as Hperm.
    unfold heldFrame in Hperm at 1 2. rewrite Hpc in Hperm.
    destruct (_ =? _)%nat; cbn in Hperm; by rewrite <- Hperm.
  - rewrite I2 in Hw. discriminate.
  - injection Hw as <- <-.
    pose proof (heldFrames_insert _ i wk (at_pc AtSelect wk) Hi) as Hperm.
    unfold heldFrame in Hperm at 1 2. rewrite Hpc in Hperm. cbn in Hperm.
    rewrite Hperm in I6.
    destruct (handleFrame_control (proxyURL wk) (threshold wk) frame first retries
                pickC pickS (world sys)) as [Hctl|(Hp & line & w1 & -> & Hctl)].
    + apply control_fields in Hctl as (Hfr & Hpk & Hh & Hf & Hb & Hd & Hc).
      rewrite Hfr, Hpk, Hd, Hc. split_and!; try done.
      etrans; [|exact I6]. apply submseteq_app; [done|]. by apply submseteq_cons.
    + apply control_fields in Hctl as (Hfr & Hpk & Hh & Hf & Hb & Hd & Hc).
      assert (closed (frames w1) = false) as Hcl by (by rewrite Hfr).
      pose proof (handleProxyFailure_open pickC pickS (proxyURL wk) frame w1 Hcl)
        as (H1 & H2 & H3 & H4).
      cbv zeta in H1, H2, H3, H4. cbn [print ei frames panicked].
      rewrite H1, H2, H3, Hpk, Hd, Hc.
      destruct H4 as [-> | ->]; rewrite Hfr; cbn [push buf cap closed];
        (split_and!; try done).
      * etrans; [|exact I6]. apply submseteq_app; [done|]. by apply submseteq_cons.
      * by rewrite <- app_assoc.
Qed.

Lemma open_run (frameList : list string) (schedule : list (nat * Event))
    (sys sys' : System) :
  open frameList sys -> run schedule sys = Some sys' -> open frameList sys'.
Proof.
  revert sys. induction schedule as [|[i ev] rest IH]; intros sys Hinv Hrun.
  - by injection Hrun as <-.
  - simpl in Hrun. destruct (step i ev sys) as [sys1|] eqn:Hs; [|discriminate].
    simpl in Hrun. eapply IH; [|exact Hrun]. by eapply open_step.
Qed.

Lemma heldFrames_start {A : Type} (f : A -> Worker) (l : list A) :
  (forall x, pc (f x) = AtSelect) -> heldFrames (f <$> l) = [].
Proof.
  intros Hf. induction l as [|x l IH]; [done|].
  rewrite fmap_cons, heldFrames_cons, IH. unfold heldFrame. by rewrite Hf.
Qed.

Lemma open_start (e : EpisodeIdentifier) (frameList : list string)
    (th : float64) (out : list string) :
  done e = false -> channelClosed e = false ->
  open frameList (IdentifyEpisodes e frameList th out).
Proof.
  intros Hd Hc. unfold open, inFlight, IdentifyEpisodes.
  cbn [world workers ei frames panicked buf cap closed].
  split_and!; try done.
  rewrite heldFrames_start by done. by rewrite app_nil_r.
Qed.

Lemma fold_addClient_flags (proxies : list ProxyDetails) st :
  done (fold_left (fun st p => addClient (URL p) st) proxies st).1 = done st.1
  /\ channelClosed (fold_left (fun st p => addClient (URL p) st) proxies st).1
     = channelClosed st.1
  /\ aniListID (fold_left (fun st p => addClient (URL p) st) proxies st).1 = aniListID st.1
  /\ Matches (fold_left (fun st p => addClient (URL p) st) proxies st).1 = Matches st.1.
Proof.
  revert st. induction proxies as [|p proxies IH]; intros st; [done|].
  simpl. destruct (IH (addClient (URL p) st)) as (-> & -> & -> & ->). done.
Qed.

Lemma NewEpisodeIdentifier_flags api id (proxies : list ProxyDetails) :
  done (NewEpisodeIdentifier api id proxies) = false
  /\ channelClosed (NewEpisodeIdentifier api id proxies) = false
  /\ aniListID (NewEpisodeIdentifier api id proxies) = id
  /\ Matches (NewEpisodeIdentifier api id proxies) = [].
Proof.
  unfold NewEpisodeIdentifier. destruct proxies as [|p proxies]; [done|].
  destruct (fold_addClient_flags (p :: proxies) (emptyIdentifier api id, 1%positive))
    as (-> & -> & -> & ->). done.
Qed.

Lemma open_reached api id (proxies : list ProxyDetails) frameList th out
    (schedule : list (nat * Event)) (sys : System) :
  run schedule (IdentifyEpisodes (NewEpisodeIdentifier api id proxies) frameList th out)
  = Some sys ->
  open frameList sys.
Proof.
  intros Hrun. eapply open_run; [|exact Hrun].
  destruct (NewEpisodeIdentifier_flags api id proxies) as (Hd & Hc & _).
  by apply open_start.
Qed.

(** ** The records of a dispatch *)

Lemma buildMatchInfo_recordOf id th p frame m :
  acceptable id (frameTimestamp frame) th m = true ->
  recordOf id th p frame
    (buildMatchInfo m (frameTimestamp frame) (frameVideo frame) (frameBase frame) p).
Proof.
  unfold acceptable, recordOf, titleMismatch. intros [Ht Hm]%andb_true_iff.
  cbn [buildMatchInfo ProxyUsed VideoName FrameName Timestamp From To AnilistID].
  split_and!; try done. intros Hid.
  destruct (id =? 0)%Z eqn:E0; [by apply Z.eqb_eq in E0|].
  destruct (id =? Model.ID (Model.Anilist m))%Z eqn:E1; [|discriminate].
  apply Z.eqb_eq in E1. done.
Qed.

Lemma IdentifyEpisode_records frame th p io w :
  let out := IdentifyEpisode frame th p io w in
  aniListID (ei out.1) = aniListID (ei w)
  /\ exists ms : list MatchInfo,
       Matches (ei out.1) = (Matches (ei w) ++ ms)%list
       /\ Forall (recordOf (aniListID (ei w)) th p frame) ms.
Proof.
  destruct (isBroken (ei w) p) eqn:Hb.
  { rewrite (IdentifyEpisode_broken _ _ _ _ _ Hb). split; [done|].
    exists []. by rewrite app_nil_r. }
  destruct (fetchError io) as [e|] eqn:He.
  { rewrite (IdentifyEpisode_failed _ _ _ _ _ _ Hb He). split; [done|].
    exists []. by rewrite app_nil_r. }
  destruct io as [| | | | |result]; try discriminate He.
  rewrite (IdentifyEpisode_decoded _ _ _ _ _ Hb).
  destruct (scanResults _ _ _ _ _ _ _ _) as [m|reasons found] eqn:Hscan.
  - split; [done|]. eexists. split; [reflexivity|].
    apply scanResults_Accepted_inv in Hscan as [_ Hacc].
    apply Forall_singleton. by apply buildMatchInfo_recordOf.
  - split; [done|]. exists []. by rewrite app_nil_r.
Qed.

Lemma retryLoop_records n r frame th p retries st :
  let out := retryLoop n r frame th p retries st in
  exists ms : list MatchInfo,
    Matches (ei out.1) = (Matches (ei st.1) ++ ms)%list
    /\ Forall (recordOf (aniListID (ei st.1)) th p frame) ms.
Proof.
  revert r st. induction n as [|n IH]; intros r st.
  - exists []. by rewrite app_nil_r.
  - rewrite retryLoop_S.
    pose proof (IdentifyEpisode_records frame th p (retries r) st.1) as (Ha & ms & HM & Hms).
    destruct (IdentifyEpisode frame th p (retries r) st.1) as [w1 [[info sim] err]].
    cbn [fst] in Ha, HM.
    destruct (bool_decide (err = None) && flt 0%Q sim).
    + exists ms. by cbn [fst print ei].
    + destruct (IH (S r) (print ("⚠️ Retry " +:+ fmt_d (Z.of_nat r)
                    +:+ "/3 failed for direct connection: " +:+ errText err +:+ nl) w1,
             (info, sim, err))) as (ms' & HM' & Hms').
      cbn [fst print ei] in HM', Hms'. rewrite Ha in Hms'.
      exists (ms ++ ms')%list. split; [by rewrite HM', HM, app_assoc|].
      by apply Forall_app.
Qed.

(** Handling a frame only appends records, and only records of that frame
    and that path. *)
Lemma handleFrame_records p th frame first retries pickClient pickSend w :
  let w' := handleFrame p th frame first retries pickClient pickSend w in
  aniListID (ei w') = aniListID (ei w)
  /\ exists ms : list MatchInfo,
       Matches (ei w') = (Matches (ei w) ++ ms)%list
       /\ Forall (recordOf (aniListID (ei w)) th p frame) ms.
Proof.
  unfold handleFrame.
  pose proof (IdentifyEpisode_records frame th p first w) as (Ha & ms & HM & Hms).
  destruct (IdentifyEpisode frame th p first w) as [w1 [[info sim] err]].
  cbn [fst] in Ha, HM. destruct err as [e|].
  - destruct (negb (String.eqb p directURL)).
    + pose proof (handleProxyFailure_counts pickClient pickSend p frame w1)
        as (H1 & _ & _ & H2).
      cbv zeta in H1, H2. cbn [print ei]. rewrite H1, H2. eauto.
    + pose proof (retryLoop_control 3 1 frame th p retries (w1, (info, sim, Some e)))
        as (_ & _ & Hra).
      pose proof (retryLoop_records 3 1 frame th p retries (w1, (info, sim, Some e)))
        as (ms' & HM' & Hms').
      destruct (retryLoop _ _ _ _ _ _ _) as [w2 [[info2 sim2] err2]].
      cbn [fst] in Hra, HM', Hms'. rewrite Ha in Hms'.
      assert (Matches (ei w2) = (Matches (ei w) ++ (ms ++ ms'))%list) as HM2
        by (by rewrite HM', HM, app_assoc).
      assert (Forall (recordOf (aniListID (ei w)) th p frame) (ms ++ ms')) as Hall
        by (by apply Forall_app).
      destruct (negb (bool_decide (err2 = None)) || feq sim2 0%Q).
      * cbn [print ei]. split; [congruence|eauto].
      * pose proof (countFrame_cases p frame info2 sim2 w2) as (_ & Hk & _).
        cbv zeta in Hk. rewrite Hk. split; [|eauto].
        unfold countFrame. destruct (feq sim2 0%Q); [cbn [print ei]; congruence|].
        destruct (flt 0%Q sim2); cbn [with_ei print ei set_frameCounts aniListID];
          congruence.
  - pose proof (countFrame_cases p frame info sim w1) as (_ & Hk & _).
    cbv zeta in Hk. rewrite Hk. split; [|eauto].
    unfold countFrame. destruct (feq sim 0%Q); [cbn [print ei]; congruence|].
    destruct (flt 0%Q sim); cbn [with_ei print ei set_frameCounts aniListID]; congruence.
Qed.

Lemma heldFrames_elem (ws : list Worker) (i : nat) (wk : Worker) (f : string) :
  ws !! i = Some wk -> pc wk = Holding f -> f ∈ heldFrames ws.
Proof.
  intros Hi Hpc. unfold heldFrames. apply list_elem_of_bind. exists wk.
  split; [|by eapply list_elem_of_lookup_2].
  unfold heldFrame. rewrite Hpc. by left.
Qed.

Lemma sound_step id th paths frameList (i : nat) (ev : Event) (sys sys' : System) :
  open frameList sys ->
  aniListID (ei (world sys)) = id ->
  Forall (fun wk => threshold wk = th /\ proxyURL wk ∈ paths) (workers sys) ->
  step i ev sys = Some sys' ->
  aniListID (ei (world sys')) = id
  /\ Forall (fun wk => threshold wk = th /\ proxyURL wk ∈ paths) (workers sys')
  /\ exists ms : list MatchInfo,
       Matches (ei (world sys')) = (Matches (ei (world sys)) ++ ms)%list
       /\ Forall (soundRecord id th paths frameList) ms.
Proof.
  intros Hopen Hid Hws Hstep. unfold step in Hstep.
  destruct (workers sys !! i) as [wk|] eqn:Hi; simpl in Hstep; [|discriminate].
  destruct (processFrames ev wk (world sys)) as [[w' p']|] eqn:Hw; simpl in Hstep;
    [|discriminate].
  injection Hstep as <-. cbn [world workers].
  assert (threshold wk = th /\ proxyURL wk ∈ paths) as [Hth Hp].
  { rewrite Forall_lookup in Hws. by eapply Hws. }
  assert (Forall (fun wk => threshold wk = th /\ proxyURL wk ∈ paths)
            (<[i := at_pc p' wk]> (workers sys))) as Hws'.
  { apply Forall_insert; [done|]. by cbn [at_pc threshold proxyURL]. }
  assert (Hquiet : ei w' = ei (world sys) ->
            aniListID (ei w') = id
            /\ Forall (fun wk => threshold wk = th /\ proxyURL wk ∈ paths)
                 (<[i := at_pc p' wk]> (workers sys))
            /\ exists ms : list MatchInfo,
                 Matches (ei w') = (Matches (ei (world sys)) ++ ms)%list
                 /\ Forall (soundRecord id th paths frameList) ms).
  { intros ->. split_and!; try done. exists []. by rewrite app_nil_r. }
  unfold processFrames in Hw. destruct (panicked (world sys)); [discriminate|].
  destruct (pc wk) as [|frame|] eqn:Hpc; destruct ev as [|first retries pickC pickS| |];
    try discriminate.
  - unfold receiveFrame in Hw.
    destruct (buf (frames (world sys))) as [|frame rest] eqn:Hbuf.
    { destruct (closed (frames (world sys))); [|discriminate].
      injection Hw as <- <-. by apply Hquiet. }
    destruct (isBroken (ei (with_frames pop (world sys))) (proxyURL wk));
      injection Hw as <- <-; by apply Hquiet.
  - injection Hw as <- <-. by apply Hquiet.
  - destruct (done (ei (world sys))); [|discriminate].
    injection Hw as <- <-. by apply Hquiet.
  - injection Hw as <- <-.
    pose proof (handleFrame_records (proxyURL wk) (threshold wk) frame first retries
                  pickC pickS (world sys)) as (Ha & ms & HM & Hms).
    cbv zeta in Ha, HM. rewrite Ha, Hid. split_and!; try done.
    exists ms. split; [done|].
    rewrite Hid, Hth in Hms. eapply Forall_impl; [exact Hms|].
    intros mi Hmi. exists (proxyURL wk), frame. split_and!; try done.
    destruct Hopen as (_ & _ & _ & _ & _ & Hsub).
    eapply elem_of_submseteq; [|exact Hsub].
    unfold inFlight. apply elem_of_app. right. by eapply heldFrames_elem.
Qed.

Lemma sound_run id th paths frameList (schedule : list (nat * Event)) (sys sys' : System) :
  open frameList sys ->
  aniListID (ei (world sys)) = id ->
  Forall (fun wk => threshold wk = th /\ proxyURL wk ∈ paths) (workers sys) ->
  run schedule sys = Some sys' ->
  exists ms : list MatchInfo,
    Matches (ei (world sys')) = (Matches (ei (world sys)) ++ ms)%list
    /\ Forall (soundRecord id th paths frameList) ms.
Proof.
  revert sys. induction schedule as [|[i ev] rest IH]; intros sys Hopen Hid Hws Hrun.
  - injection Hrun as <-. exists []. by rewrite app_nil_r.
  - simpl in Hrun. destruct (step i ev sys) as [sys1|] eqn:Hs; [|discriminate].
    simpl in Hrun.
    destruct (sound_step id th paths frameList i ev sys sys1 Hopen Hid Hws Hs)
      as (Hid1 & Hws1 & ms1 & HM1 & Hms1).
    destruct (IH sys1 (open_step _ _ _ _ _ Hopen Hs) Hid1 Hws1 Hrun)
      as (ms & HM & Hms).
    exists (ms1 ++ ms)%list. split; [by rewrite HM, HM1, app_assoc|].
    by apply Forall_app.
Qed.

(** ** The pool [NewEpisodeIdentifier] builds *)

Lemma fold_addClient_clients (proxies : list ProxyDetails) st :
  (forall c p, httpClients st.1 !! c = Some p -> (c < st.2)%positive) ->
  let st' := fold_left (fun st p => addClient (URL p) st) proxies st in
  (forall c p, httpClients st'.1 !! c = Some p -> (c < st'.2)%positive)
  /\ size (httpClients st'.1) = (size (httpClients st.1) + length proxies)%nat
  /\ (forall p, (exists c, httpClients st'.1 !! c = Some p)
                <-> (exists c, httpClients st.1 !! c = Some p) \/ p ∈ URL <$> proxies).
Proof.
  revert st. induction proxies as [|x proxies IH]; intros st Hfresh.
  - cbn [fold_left]. split_and!; [done|simpl; lia|].
    intros p. rewrite fmap_nil, elem_of_nil. tauto.
  - cbn [fold_left].
    destruct (IH (addClient (URL x) st)) as (H1 & H2 & H3).
    { intros c p. cbn [addClient fst snd httpClients].
      intros [[<- _]|[_ H]]%lookup_insert_Some; [lia|]. apply Hfresh in H. lia. }
    cbv zeta. split_and!; [done| |].
    + rewrite H2. cbn [addClient fst httpClients].
      rewrite map_size_insert_None; [simpl; lia|].
      destruct (httpClients st.1 !! st.2) as [p|] eqn:E; [|done].
      apply Hfresh in E. lia.
    + intros p. rewrite H3. cbn [addClient fst snd httpClients].
      rewrite fmap_cons, elem_of_cons. split.
      * intros [[c Hc]|Hin]; [|tauto].
        apply lookup_insert_Some in Hc as [[_ <-]|[_ Hc]]; [tauto|eauto].
      * intros [[c Hc]|[->|Hin]]; [| |tauto].
        -- left. exists c. rewrite lookup_insert_ne; [done|].
           intros <-. apply Hfresh in Hc. lia.
        -- left. exists st.2. by rewrite lookup_insert_eq.
Qed.

Lemma fold_addClient_unflagged (proxies : list ProxyDetails) st :
  (forall p, failCount st.1 p = 0%Z /\ isBroken st.1 p = false) ->
  forall p, failCount (fold_left (fun st p => addClient (URL p) st) proxies st).1 p = 0%Z
            /\ isBroken (fold_left (fun st p => addClient (URL p) st) proxies st).1 p = false.
Proof.
  revert st. induction proxies as [|x proxies IH]; intros st Hst; [done|].
  cbn [fold_left]. apply IH. intros p. destruct (Hst p) as [Hf Hb].
  unfold failCount, isBroken, addClient in *. cbn [fst failCounts brokenProxies].
  destruct (decide (URL x = p)) as [->|Hne].
  - by rewrite !lookup_insert_eq.
  - by rewrite !lookup_insert_ne.
Qed.

Lemma workers_length (e : EpisodeIdentifier) frameList th out :
  length (workers (IdentifyEpisodes e frameList th out)) = size (httpClients e).
Proof.
  unfold IdentifyEpisodes. cbn [workers].
  by rewrite length_fmap, length_map_to_list.
Qed.

Lemma NewEpisodeIdentifier_paths api id (proxies : list ProxyDetails) :
  size (httpClients (NewEpisodeIdentifier api id proxies)) = length (pathsOf proxies)
  /\ forall p, (exists c, httpClients (NewEpisodeIdentifier api id proxies) !! c = Some p)
               <-> p ∈ pathsOf proxies.
Proof.
  unfold NewEpisodeIdentifier, pathsOf. destruct proxies as [|x l].
  - cbn [addClient fst snd httpClients emptyIdentifier]. split.
    + by rewrite map_size_insert_None, map_size_empty.
    + intros p. rewrite list_elem_of_singleton. split.
      * intros [c [[_ <-]|[_ H]]%lookup_insert_Some]; done.
      * intros ->. exists 1%positive. by rewrite lookup_insert_eq.
  - destruct (fold_addClient_clients (x :: l) (emptyIdentifier api id, 1%positive))
      as (_ & H2 & H3); [done|].
    cbv zeta in H2, H3. split.
    + rewrite H2. cbn [emptyIdentifier fst httpClients].
      by rewrite map_size_empty, length_fmap.
    + intros p. rewrite H3. cbn [emptyIdentifier fst httpClients]. split; [|tauto].
      intros [[c Hc]|H]; [done|exact H].
Qed.

(** X1. [NewEpisodeIdentifier] builds one client for each entry of the
    proxy list, duplicates included, or a single client of the direct
    connection when the list is empty: the pool is never empty. A path has a
    client exactly when it was asked for; every path starts with no failure,
    no processed frame and no broken flag, and the match list starts empty.
    [IdentifyEpisodes] then starts one worker for each client. *)
Theorem NewEpisodeIdentifier_pool api id (proxies : list ProxyDetails) :
  let e := NewEpisodeIdentifier api id proxies in
  size (httpClients e) = length (pathsOf proxies)
  /\ (0 < size (httpClients e))%nat
  /\ (forall p, (exists c, httpClients e !! c = Some p) <-> p ∈ pathsOf proxies)
  /\ (forall p, failCount e p = 0%Z /\ frameCount e p = 0%Z /\ isBroken e p = false)
  /\ Matches e = [] /\ aniListID e = id
  /\ (forall frameList th out,
        length (workers (IdentifyEpisodes e frameList th out)) = length (pathsOf proxies)).
Proof.
  cbv zeta.
  destruct (NewEpisodeIdentifier_paths api id proxies) as [Hsize Hpaths].
  destruct (NewEpisodeIdentifier_flags api id proxies) as (_ & _ & Hid & HM).
  destruct (NewEpisodeIdentifier_zeroed api id proxies) as [_ Hfc].
  assert (Hpos : (0 < length (pathsOf proxies))%nat).
  { unfold pathsOf. destruct proxies; simpl; lia. }
  split_and!; try done.
  - lia.
  - intros p. split_and!; [| apply Hfc |].
    + unfold NewEpisodeIdentifier. destruct proxies as [|x l].
      * apply (fold_addClient_unflagged [{| URL := directURL; Quota := 0; QuotaUsed := 0 |}]
                 (emptyIdentifier api id, 1%positive)). done.
      * apply (fold_addClient_unflagged (x :: l) (emptyIdentifier api id, 1%positive)). done.
    + unfold NewEpisodeIdentifier. destruct proxies as [|x l].
      * apply (fold_addClient_unflagged [{| URL := directURL; Quota := 0; QuotaUsed := 0 |}]
                 (emptyIdentifier api id, 1%positive)). done.
      * apply (fold_addClient_unflagged (x :: l) (emptyIdentifier api id, 1%positive)). done.
  - intros frameList th out. by rewrite workers_length.
Qed.

(** X2. In every state a dispatch can reach, whatever the proxies and the
    schedule, the frames in the channel together with the frames in the
    hands of the workers form a sub-multiset of the frames given: handling
    and requeueing never duplicate a frame and never bring in a new one. So
    the channel, made with room for every frame, has room for every frame
    sent back, and each frame in hand is one of the frames given. *)
Theorem frames_in_flight_conserved api id (proxies : list ProxyDetails) frameList th out
    (schedule : list (nat * Event)) (sys : System) :
  run schedule (IdentifyEpisodes (NewEpisodeIdentifier api id proxies) frameList th out)
  = Some sys ->
  inFlight sys ⊆+ frameList
  /\ (length (buf (frames (world sys))) + length (heldFrames (workers sys))
      <= cap (frames (world sys)))%nat
  /\ (forall (i : nat) (wk : Worker) (f : string),
        workers sys !! i = Some wk -> pc wk = Holding f -> f ∈ frameList).
Proof.
  intros Hrun. apply open_reached in Hrun as (_ & _ & _ & _ & Hcap & Hsub).
  split_and!; [done| |].
  - rewrite Hcap, <- length_app. by apply submseteq_length.
  - intros i wk f Hi Hpc. eapply elem_of_submseteq; [|exact Hsub].
    unfold inFlight. apply elem_of_app. right. by eapply heldFrames_elem.
Qed.

Lemma frames_in_flight_conserved_witness :
  exists sys : System,
    run threeFailures twoProxyStart = Some sys
    /\ inFlight sys ⊆+ fourFrames
    /\ buf (frames (world sys))
       = ["out/video1/frame_4_timestamp_00-03-12.jpg";
          "out/video1/frame_3_timestamp_00-02-12.jpg"].
Proof.
  computed_run threeFailures twoProxyStart sys Hrun Hsys.
  destruct (frames_in_flight_conserved "https://api.trace.moe/search?anilistInfo" 0
              [proxyA; proxyB] fourFrames 5 [] threeFailures sys Hrun) as (Hsub & _).
  exists sys. split_and!; [done|done|by subst sys].
Defined.

(** ** The end of a dispatch *)

Lemma fold_print_fields {A : Type} (line : A -> string) (l : list A) (w : World) :
  let w' := fold_left (fun w' kv => print (line kv) w') l w in
  ei w' = ei w /\ frames w' = frames w /\ panicked w' = panicked w /\ calls w' = calls w.
Proof.
  revert w. induction l as [|x l IH]; intros w; [done|].
  cbn [fold_left]. destruct (IH (print (line x) w)) as (-> & -> & -> & ->). done.
Qed.

Lemma displayFrameProcessingSummary_fields (w : World) :
  let w' := displayFrameProcessingSummary w in
  ei w' = ei w /\ frames w' = frames w /\ panicked w' = panicked w /\ calls w' = calls w.
Proof.
  unfold displayFrameProcessingSummary.
  destruct (fold_print_fields
              (fun kv : string * Z => "   - " +:+ kv.1 +:+ " processed " +:+ fmt_d kv.2
                                      +:+ " frames" +:+ nl)
              (map_to_list (frameCounts (ei w)))
              (print (nl +:+ "📊 Frame Processing Summary:" +:+ nl) w))
    as (H1 & H2 & H3 & H4).
  cbv zeta in H1, H2, H3, H4. cbn [print ei frames panicked calls].
  by rewrite H1, H2, H3, H4.
Qed.

(** ** The requeue *)





(** X3. From the start of a dispatch to the return of its last worker,
    whatever the proxies and the schedule, nothing has panicked, the frame
    channel is open and neither closing flag is set. Once every worker has
    returned, [IdentifyEpisodes] goes on to its end: it closes the channel
    once, sets both flags and signals completion, without a panic and
    without touching the match list; the frames still in the channel stay
    there, and any [SafeSend] made afterwards sends nothing. *)
Theorem dispatch_closes_once api id (proxies : list ProxyDetails) frameList th out
    (schedule : list (nat * Event)) (sys : System) :
  run schedule (IdentifyEpisodes (NewEpisodeIdentifier api id proxies) frameList th out)
  = Some sys ->
  panicked (world sys) = false
  /\ closed (frames (world sys)) = false
  /\ done (ei (world sys)) = false
  /\ channelClosed (ei (world sys)) = false
  /\ (allReturned sys = true ->
      exists w' : World,
        IdentifyEpisodes_return sys = Some w'
        /\ panicked w' = false
        /\ closed (frames w') = true
        /\ done (ei w') = true /\ channelClosed (ei w') = true
        /\ completionChan (ei w') = true
        /\ Matches (ei w') = Matches (ei (world sys))
        /\ buf (frames w') = buf (frames (world sys))
        /\ forall (pick : nat) (frame : string), SafeSend pick frame w' = w').
Proof.
  intros Hrun. apply open_reached in Hrun as (Hp & Hd & Hc & Hcl & _ & _).
  split_and!; try done. intros Hall.
  unfold IdentifyEpisodes_return. rewrite Hall. eexists. split; [reflexivity|].
  pose proof (displayFrameProcessingSummary_fields (CloseFramesChannel (world sys)))
    as (He & Hf & Hpk & _).
  cbv zeta in He, Hf, Hpk.
  cbn [with_ei print ei frames panicked set_flags done channelClosed completionChan Matches].
  rewrite He, Hf, Hpk. unfold CloseFramesChannel. rewrite Hd, Hcl.
  cbn [orb with_frames with_ei ei frames panicked set_flags done channelClosed Matches
       close closed buf].
  split_and!; try done.
  intros pick frame. apply SafeSend_flagged.
  cbn [with_ei print ei set_flags channelClosed].
  match goal with |- context [displayFrameProcessingSummary ?w] =>
    pose proof (displayFrameProcessingSummary_fields w) as (He' & _) end.
  cbv zeta in He'. by rewrite He'.
Qed.

Lemma dispatch_closes_once_witness :
  exists (sys : System) (w' : World),
    run drainRun directStart = Some sys
    /\ allReturned sys = true
    /\ IdentifyEpisodes_return sys = Some w'
    /\ panicked w' = false
    /\ closed (frames w') = true
    /\ buf (frames w') = [].
Proof.
  computed_run drainRun directStart sys Hrun Hsys.
  assert (Hall : allReturned sys = true) by (by subst sys).
  destruct (dispatch_closes_once "https://api.trace.moe/search?anilistInfo" 0
              [] fourFrames 5 [] drainRun sys Hrun)
    as (_ & _ & _ & _ & Hret).
  destruct (Hret Hall) as (w' & Hw' & Hp & Hcl & _ & _ & _ & _ & Hbuf & _).
  exists sys, w'. split_and!; try done.
  rewrite Hbuf. by subst sys.
Defined.

(** X4. The match list of a dispatch only grows, and every record added
    belongs to the dispatch: it was made through the path of one of the
    workers, for one of the frames given (its video name, frame name and
    timestamp are the ones read off that frame's path), its timestamp passes
    the acceptance test against its own range with the threshold of the
    dispatch, and when a title filter is set its AniList id is the filter's. *)
Theorem records_sound api id (proxies : list ProxyDetails) frameList th out
    (schedule prefix : list (nat * Event)) (sys0 sys : System) :
  run prefix (IdentifyEpisodes (NewEpisodeIdentifier api id proxies) frameList th out)
  = Some sys0 ->
  run schedule sys0 = Some sys ->
  (exists ms : list MatchInfo,
     Matches (ei (world sys)) = (Matches (ei (world sys0)) ++ ms)%list)
  /\ Forall (soundRecord id th (pathsOf proxies) frameList) (Matches (ei (world sys))).
Proof.
  intros Hrun0 Hrun.
  set (start := IdentifyEpisodes (NewEpisodeIdentifier api id proxies) frameList th out)
    in *.
  destruct (NewEpisodeIdentifier_flags api id proxies) as (Hd & Hc & Hid & HM).
  assert (Hopen : open frameList start) by (by apply open_start).
  assert (Hws : Forall (fun wk => threshold wk = th /\ proxyURL wk ∈ pathsOf proxies)
                  (workers start)).
  { subst start. unfold IdentifyEpisodes. cbn [workers].
    apply Forall_fmap, Forall_forall. intros [c p] Hin. cbn.
    split; [done|]. apply elem_of_map_to_list in Hin.
    destruct (NewEpisodeIdentifier_paths api id proxies) as (_ & Hpaths).
    apply Hpaths. eauto. }
  assert (Hid0 : aniListID (ei (world start)) = id) by done.
  assert (Hinv : forall (sch : list (nat * Event)) (s s' : System),
            open frameList s -> aniListID (ei (world s)) = id ->
            Forall (fun wk => threshold wk = th /\ proxyURL wk ∈ pathsOf proxies) (workers s) ->
            run sch s = Some s' ->
            aniListID (ei (world s')) = id
            /\ Forall (fun wk => threshold wk = th /\ proxyURL wk ∈ pathsOf proxies)
                 (workers s')).
  { induction sch as [|[i ev] rest IH]; intros s s' Ho Hi Hw Hr.
    - by injection Hr as <-.
    - simpl in Hr. destruct (step i ev s) as [s1|] eqn:Hs; [|discriminate].
      simpl in Hr.
      destruct (sound_step id th (pathsOf proxies) frameList i ev s s1 Ho Hi Hw Hs)
        as (Hi1 & Hw1 & _).
      exact (IH s1 s' (open_step _ _ _ _ _ Ho Hs) Hi1 Hw1 Hr). }
  destruct (Hinv prefix start sys0 Hopen Hid0 Hws Hrun0) as [Hid1 Hws1].
  destruct (sound_run id th (pathsOf proxies) frameList prefix start sys0
              Hopen Hid0 Hws Hrun0) as (ms0 & HM0 & Hms0).
  destruct (sound_run id th (pathsOf proxies) frameList schedule sys0 sys
              (open_run _ _ _ _ Hopen Hrun0) Hid1 Hws1 Hrun) as (ms & HM1 & Hms).
  split; [eauto|].
  rewrite HM1, HM0. change (Matches (ei (world start))) with
    (Matches (NewEpisodeIdentifier api id proxies)). rewrite HM.
  cbn [app]. by apply Forall_app.
Qed.

Lemma records_sound_witness :
  exists sys : System,
    run oneMatchRun directStart = Some sys
    /\ length (Matches (ei (world sys))) = 1%nat
    /\ Forall (soundRecord 0 5 [directURL] fourFrames) (Matches (ei (world sys))).
Proof.
  computed_run oneMatchRun directStart sys Hrun Hsys.
  assert (Hrun0 : run [] directStart = Some directStart) by reflexivity.
  destruct (records_sound "https://api.trace.moe/search?anilistInfo" 0
              [] fourFrames 5 [] oneMatchRun [] directStart sys Hrun0 Hrun)
    as (_ & Hall).
  exists sys. split_and!; [done|by subst sys|exact Hall].
Defined.

(** ** The direct connection alone *)

Lemma callsOf_snoc (p : string) (handled : list (string * nat)) (f : string) (k : nat) :
  callsOf p (handled ++ [(f, k)]) = (callsOf p handled ++ replicate k (p, f))%list.
Proof. unfold callsOf. rewrite bind_app. cbn. by rewrite app_nil_r. Qed.

Lemma directDispatch_step (frameList : list string) (i : nat) (ev : Event)
    (sys sys' : System) (handled : list (string * nat)) :
  directDispatch frameList sys handled -> step i ev sys = Some sys' ->
  exists handled', directDispatch frameList sys' handled'.
Proof.
  intros (wk & Hws & Hp & Hb & Hpk & Hcl & Hd & HFL & Hcalls & Hk & Hret) Hstep.
  unfold step in Hstep. rewrite Hws in Hstep.
  destruct i as [|i]; [|discriminate]. cbn [lookup list_lookup] in Hstep. simpl in Hstep.
  destruct (processFrames ev wk (world sys)) as [[w' p']|] eqn:Hw; simpl in Hstep;
    [|discriminate].
  injection Hstep as <-. unfold directDispatch. cbn [world workers].
  unfold processFrames in Hw. rewrite Hpk in Hw.
  unfold heldFrame in HFL.
  destruct (pc wk) as [|frame|] eqn:Hpc; destruct ev as [|first retries pickC pickS| |];
    try discriminate.
  - unfold receiveFrame in Hw. rewrite Hp in Hw.
    destruct (buf (frames (world sys))) as [|frame rest] eqn:Hbuf.
    { rewrite Hcl in Hw. discriminate. }
    cbn [with_frames ei] in Hw. rewrite Hb in Hw. injection Hw as <- <-.
    exists handled, (at_pc (Holding frame) wk).
    cbn [with_frames pop frames buf ei panicked closed calls at_pc proxyURL pc heldFrame].
    unfold heldFrame. cbn [at_pc pc]. rewrite Hbuf. split_and!; done.
  - injection Hw as <- <-. exists handled.
    eexists. split; [reflexivity|]. unfold heldFrame. cbn [at_pc pc proxyURL].
    destruct (length (buf (frames (world sys))) =? 0)%nat eqn:Hlen; split_and!; try done.
    intros _. apply Nat.eqb_eq in Hlen. by apply nil_length_inv.
  - rewrite Hd in Hw. discriminate.
  - injection Hw as <- <-.
    destruct (handleFrame_control (proxyURL wk) (threshold wk) frame first retries
                pickC pickS (world sys)) as [Hctl|(Hne & _)]; [|done].
    apply control_fields in Hctl as (Hfr & Hpk' & _ & _ & Hbr & Hd' & _).
    destruct (handleFrame_calls (proxyURL wk) (threshold wk) frame first retries
                pickC pickS (world sys)) as (k & Hk3 & Hc).
    exists (handled ++ [(frame, S k)])%list, (at_pc AtSelect wk).
    unfold heldFrame, isBroken in *. cbn [at_pc pc proxyURL].
    rewrite Hfr, Hpk', Hbr, Hd', Hc, Hcalls, Hp, callsOf_snoc.
    split_and!; try done.
    + rewrite fmap_app, <- app_assoc. exact HFL.
    + apply Forall_app. split; [done|]. apply Forall_singleton. simpl. lia.
Qed.

Lemma directDispatch_run (frameList : list string) (schedule : list (nat * Event))
    (sys sys' : System) (handled : list (string * nat)) :
  directDispatch frameList sys handled -> run schedule sys = Some sys' ->
  exists handled', directDispatch frameList sys' handled'.
Proof.
  revert sys handled. induction schedule as [|[i ev] rest IH]; intros sys handled Hinv Hrun.
  - injection Hrun as <-. eauto.
  - simpl in Hrun. destruct (step i ev sys) as [sys1|] eqn:Hs; [|discriminate].
    simpl in Hrun.
    destruct (directDispatch_step _ _ _ _ _ _ Hinv Hs) as [handled1 Hinv1]. eauto.
Qed.

Lemma directDispatch_start api id frameList th out :
  directDispatch frameList
    (IdentifyEpisodes (NewEpisodeIdentifier api id []) frameList th out) [].
Proof.
  unfold directDispatch, IdentifyEpisodes, NewEpisodeIdentifier, addClient.
  cbn [world workers httpClients emptyIdentifier fst snd].
  exists {| client := 1%positive; proxyURL := directURL; threshold := th; pc := AtSelect |}.
  rewrite map_to_list_one. split_and!; done.
Qed.

(** X5. Without proxies the single worker of the direct connection takes
    the frames in the order given and handles each one once: in every state
    the dispatch can reach, the frames given are the frames handled so far,
    followed by the frame in hand, followed by the queue; the calls of
    [IdentifyEpisode] made so far are, frame after frame in that order,
    between one and four calls on each handled frame through the direct
    connection; nothing is ever sent back to the queue; and when the worker
    has returned every frame given has been handled. *)
Theorem direct_dispatch_in_order api id frameList th out
    (schedule : list (nat * Event)) (sys : System) :
  run schedule (IdentifyEpisodes (NewEpisodeIdentifier api id []) frameList th out)
  = Some sys ->
  exists handled : list (string * nat),
    frameList = (handled.*1 ++ heldFrames (workers sys) ++ buf (frames (world sys)))%list
    /\ calls (world sys) = callsOf directURL handled
    /\ Forall (fun fk : string * nat => (1 <= fk.2 <= 4)%nat) handled
    /\ (allReturned sys = true -> handled.*1 = frameList).
Proof.
  intros Hrun.
  destruct (directDispatch_run frameList schedule _ sys []
              (directDispatch_start api id frameList th out) Hrun)
    as (handled & wk & Hws & Hp & Hb & Hpk & Hcl & Hd & HFL & Hcalls & Hk & Hret).
  exists handled. rewrite Hws. unfold heldFrames. cbn [mbind list_bind].
  rewrite app_nil_r. split_and!; try done.
  unfold allReturned. rewrite Hws. cbn [forallb]. intros Hall.
  destruct (pc wk) eqn:Hpc; try discriminate.
  rewrite HFL, Hret by done. unfold heldFrame. rewrite Hpc. by rewrite !app_nil_r.
Qed.

Lemma direct_dispatch_in_order_witness :
  exists sys : System,
    run drainRun directStart = Some sys
    /\ allReturned sys = true
    /\ exists handled : list (string * nat),
         handled.*1 = fourFrames
         /\ calls (world sys) = callsOf directURL handled
         /\ length (calls (world sys)) = 7%nat.
Proof.
  computed_run drainRun directStart sys Hrun Hsys.
  assert (Hall : allReturned sys = true) by (by subst sys).
  destruct (direct_dispatch_in_order "https://api.trace.moe/search?anilistInfo" 0
              fourFrames 5 [] drainRun sys Hrun) as (handled & _ & Hcalls & _ & Hdone).
  exists sys. split_and!; [done|done|].
  exists handled. split_and!; [by apply Hdone|done|by subst sys].
Defined.

(** ** Strings and paths *)

Lemma rev_string_app (a b : string) :
  rev_string (a +:+ b) = rev_string b +:+ rev_string a.
Proof.
  induction a as [|c a IH].
  - cbn. by rewrite append_nil_r.
  - change (rev_string (a +:+ b) +:+ String c "" = rev_string b +:+ (rev_string a +:+ String c "")).
    by rewrite IH, append_assoc.
Qed.

Lemma rev_string_involutive (s : string) : rev_string (rev_string s) = s.
Proof.
  induction s as [|c s IH]; [done|].
  cbn [rev_string]. rewrite rev_string_app, IH. done.
Qed.

Lemma lacks_app (c : ascii) (a b : string) :
  lacks c (a +:+ b) = lacks c a && lacks c b.
Proof.
  induction a as [|x a IH]; [done|].
  change (negb (Ascii.eqb x c) && lacks c (a +:+ b)
          = negb (Ascii.eqb x c) && lacks c a && lacks c b).
  by rewrite IH, andb_assoc.
Qed.

Lemma lacks_rev (c : ascii) (s : string) : lacks c (rev_string s) = lacks c s.
Proof.
  induction s as [|x s IH]; [done|].
  cbn [rev_string lacks]. rewrite lacks_app, IH. cbn [lacks].
  rewrite andb_true_r. apply andb_comm.
Qed.

Lemma CutPrefix_app (p s : string) : CutPrefix p (p +:+ s) = Some s.
Proof.
  induction p as [|c p IH]; [by destruct s|].
  change (CutPrefix (String c p) (String c (p +:+ s)) = Some s).
  cbn [CutPrefix]. by rewrite Ascii.eqb_refl.
Qed.

(** A separator cannot start where its first byte does not occur. *)
Lemma Cut_lacks (c : ascii) (sep s : string) :
  lacks c s = true -> Cut (String c sep) s = None.
Proof.
  induction s as [|x s IH]; [done|].
  cbn [lacks]. intros [Hx Hs]%andb_true_iff.
  cbn [Cut CutPrefix]. rewrite Ascii.eqb_sym.
  apply negb_true_iff in Hx. rewrite Hx. by rewrite IH.
Qed.

Lemma Cut_first (c : ascii) (sep a b : string) :
  lacks c a = true ->
  Cut (String c sep) (a +:+ String c sep +:+ b) = Some (a, b).
Proof.
  induction a as [|x a IH]; intros Ha.
  - change ("" +:+ String c sep +:+ b) with (String c sep +:+ b).
    destruct (String c sep +:+ b) eqn:E; [discriminate|].
    rewrite <- E. cbn [Cut]. (* the separator is a prefix *)
    destruct (CutPrefix (String c sep) (String c sep +:+ b)) eqn:Hp.
    + rewrite CutPrefix_app in Hp. injection Hp as <-.
      rewrite E. cbn [Cut]. rewrite <- E, CutPrefix_app. done.
    + by rewrite CutPrefix_app in Hp.
  - cbn [lacks] in Ha. apply andb_true_iff in Ha as [Hx Ha].
    change (String x a +:+ String c sep +:+ b) with (String x (a +:+ String c sep +:+ b)).
    cbn [Cut CutPrefix]. rewrite Ascii.eqb_sym.
    apply negb_true_iff in Hx. rewrite Hx. by rewrite IH.
Qed.

Lemma Join_cons (sep x y : string) (l : list string) :
  Join sep (x :: y :: l) = x +:+ sep +:+ Join sep (y :: l).
Proof. reflexivity. Qed.

Lemma Join_snoc (sep x : string) (l : list string) :
  l <> [] -> Join sep (l ++ [x]) = Join sep l +:+ sep +:+ x.
Proof.
  induction l as [|a l IH]; [done|]. intros _.
  destruct l as [|b l]; [reflexivity|].
  specialize (IH ltac:(done)).
  change (a +:+ sep +:+ Join sep ((b :: l) ++ [x])%list
          = (a +:+ sep +:+ Join sep (b :: l)) +:+ sep +:+ x).
  rewrite IH. by rewrite !append_assoc.
Qed.

Lemma Split_go_Join (fuel : nat) (cs : list string) :
  Forall (fun c => lacks "/" c = true) cs -> cs <> [] -> (length cs <= S fuel)%nat ->
  Split_go fuel "/" (Join "/" cs) = cs.
Proof.
  revert fuel. induction cs as [|x cs IH]; intros fuel Hcs Hne Hlen; [done|].
  apply Forall_cons in Hcs as [Hx Hcs].
  destruct cs as [|y cs].
  - cbn [Join]. destruct fuel; [done|]. cbn [Split_go]. by rewrite Cut_lacks.
  - destruct fuel as [|fuel]; [simpl in Hlen; lia|].
    rewrite Join_cons. cbn [Split_go]. rewrite Cut_first by done.
    f_equal. apply IH; [done|done|simpl in *; lia].
Qed.

Lemma length_append (a b : string) :
  String.length (a +:+ b) = (String.length a + String.length b)%nat.
Proof.
  induction a as [|c a IH]; [done|].
  change (S (String.length (a +:+ b)) = S (String.length a + String.length b)).
  by rewrite IH.
Qed.

Lemma length_Join (cs : list string) :
  (length cs <= S (String.length (Join "/" cs)))%nat.
Proof.
  induction cs as [|x cs IH]; [simpl; lia|].
  destruct cs as [|y cs]; [simpl; lia|].
  rewrite Join_cons. rewrite !length_append. simpl in *. lia.
Qed.

Lemma Split_Join (cs : list string) :
  Forall (fun c => lacks "/" c = true) cs -> cs <> [] ->
  Split (Join "/" cs) "/" = cs.
Proof.
  intros Hcs Hne. unfold Split. apply Split_go_Join; [done|done|apply length_Join].
Qed.

Lemma simpleName_inv (s : string) :
  simpleName s = true ->
  lacks "/" s = true /\ String.eqb s "" = false /\ String.eqb s "." = false
  /\ String.eqb s ".." = false /\ exists a r, s = String a r /\ a <> "/"%char.
Proof.
  unfold simpleName. intros H.
  apply andb_true_iff in H as [H H4]. apply andb_true_iff in H as [H H3].
  apply andb_true_iff in H as [H1 H2].
  apply negb_true_iff in H1, H3, H4. split_and!; try done.
  destruct s as [|a r]; [done|]. exists a, r. split; [done|].
  cbn [lacks] in H2. apply andb_true_iff in H2 as [H2 _].
  apply negb_true_iff, Ascii.eqb_neq in H2. done.
Qed.

Lemma clean_steps (rooted : bool) (cs out : list string) :
  Forall (fun c => simpleName c = true) cs ->
  fold_left (clean_step rooted) cs out = (rev cs ++ out)%list.
Proof.
  revert out. induction cs as [|c cs IH]; intros out Hcs; [done|].
  apply Forall_cons in Hcs as [Hc Hcs].
  destruct (simpleName_inv c Hc) as (_ & H1 & H2 & H3 & _).
  cbn [fold_left]. unfold clean_step at 2. rewrite H1, H2, H3. cbn [orb].
  rewrite IH by done. cbn [rev]. by rewrite <- app_assoc.
Qed.

Lemma Join_head (c : string) (cs : list string) :
  exists r, Join "/" (c :: cs) = c +:+ r.
Proof.
  destruct cs as [|y cs].
  - exists "". cbn [Join]. by rewrite append_nil_r.
  - eexists. apply Join_cons.
Qed.

(** A relative path made of file names is clean, and stays so with a
    slash put after it. *)
Lemma Clean_names (cs : list string) (tail : list string) :
  Forall (fun c => simpleName c = true) cs -> cs <> [] ->
  tail = [] \/ tail = [""] ->
  Clean (Join "/" (cs ++ tail)) = Join "/" cs.
Proof.
  intros Hcs Hne Htail.
  assert (Hl : Forall (fun c => lacks "/" c = true) (cs ++ tail)).
  { apply Forall_app. split.
    - eapply Forall_impl; [exact Hcs|]. intros c Hc. by apply simpleName_inv in Hc as [? _].
    - destruct Htail as [-> | ->]; [done|]. by apply Forall_singleton. }
  assert (Hne' : (cs ++ tail)%list <> []) by (by destruct cs).
  unfold Clean. rewrite (Split_Join _ Hl Hne').
  destruct cs as [|c cs]; [done|].
  pose proof Hcs as Hc. apply Forall_cons in Hc as [Hc _].
  destruct (simpleName_inv c Hc) as (_ & _ & _ & _ & a & r & -> & Ha).
  destruct (Join_head (String a r) (cs ++ tail)) as [r1 Hr1].
  change ((String a r :: cs) ++ tail)%list with (String a r :: (cs ++ tail))%list.
  rewrite Hr1. change (String a r +:+ r1) with (String a (r +:+ r1)).
  assert (Hroot : match a with "/"%char => true | _ => false end = false).
  { destruct a as [[] [] [] [] [] [] [] []]; try reflexivity. by destruct Ha. }
  cbv match zeta. rewrite Hroot.
  change (String a r :: (cs ++ tail))%list with ((String a r :: cs) ++ tail)%list.
  rewrite fold_left_app, (clean_steps false (String a r :: cs) [] Hcs).
  assert (Hfold : fold_left (clean_step false) tail (rev (String a r :: cs) ++ [])%list
                  = rev (String a r :: cs)).
  { rewrite app_nil_r. destruct Htail as [-> | ->]; reflexivity. }
  rewrite Hfold, rev_involutive.
  destruct (Join_head (String a r) cs) as [r2 Hr2]. rewrite Hr2.
  reflexivity.
Qed.

Lemma trim_slashes_head (x : ascii) (s : string) :
  x <> "/"%char -> trim_slashes (String x s) = String x s.
Proof.
  intros Hx. destruct x as [[] [] [] [] [] [] [] []]; try reflexivity. by destruct Hx.
Qed.

Lemma upto_slash_head (x : ascii) (s : string) :
  x <> "/"%char -> upto_slash (String x s) = String x (upto_slash s).
Proof.
  intros Hx. destruct x as [[] [] [] [] [] [] [] []]; try reflexivity. by destruct Hx.
Qed.

Lemma from_slash_head (x : ascii) (s : string) :
  x <> "/"%char -> from_slash (String x s) = from_slash s.
Proof.
  intros Hx. destruct x as [[] [] [] [] [] [] [] []]; try reflexivity. by destruct Hx.
Qed.

Lemma upto_slash_app (a b : string) :
  lacks "/" a = true -> upto_slash (a +:+ "/" +:+ b) = a.
Proof.
  induction a as [|x a IH]; [done|]. cbn [lacks]. intros [Hx Ha]%andb_true_iff.
  apply negb_true_iff, Ascii.eqb_neq in Hx.
  change (upto_slash (String x (a +:+ "/" +:+ b)) = String x a).
  by rewrite upto_slash_head, IH.
Qed.

Lemma from_slash_app (a b : string) :
  lacks "/" a = true -> from_slash (a +:+ "/" +:+ b) = "/" +:+ b.
Proof.
  induction a as [|x a IH]; [done|]. cbn [lacks]. intros [Hx Ha]%andb_true_iff.
  apply negb_true_iff, Ascii.eqb_neq in Hx.
  change (from_slash (String x (a +:+ "/" +:+ b)) = "/" +:+ b).
  by rewrite from_slash_head, IH.
Qed.

Lemma rev_path (P c : string) :
  rev_string (P +:+ "/" +:+ c) = rev_string c +:+ "/" +:+ rev_string P.
Proof. by rewrite !rev_string_app, append_assoc. Qed.

Lemma simpleName_rev (c : string) :
  simpleName c = true ->
  lacks "/" (rev_string c) = true
  /\ exists x y, rev_string c = String x y /\ x <> "/"%char.
Proof.
  intros Hc. destruct (simpleName_inv c Hc) as (Hl & Hne & _).
  assert (Hrl : lacks "/" (rev_string c) = true) by (by rewrite lacks_rev).
  split; [done|]. destruct (rev_string c) as [|x y] eqn:E.
  - rewrite <- (rev_string_involutive c), E in Hne. done.
  - exists x, y. split; [done|]. cbn [lacks] in Hrl.
    apply andb_true_iff in Hrl as [Hx _]. by apply negb_true_iff, Ascii.eqb_neq in Hx.
Qed.

(** The last element of a path that ends in a file name. *)
Lemma Base_file (P c : string) :
  simpleName c = true -> Base (P +:+ "/" +:+ c) = c.
Proof.
  intros Hc. destruct (simpleName_rev c Hc) as (Hl & x & y & Hrev & Hx).
  destruct (simpleName_inv c Hc) as (_ & _ & _ & _ & a & r & Hcar & _).
  unfold Base. destruct (P +:+ "/" +:+ c) eqn:E.
  { destruct P; discriminate. }
  rewrite <- E, rev_path.
  assert (Htrim : trim_slashes (rev_string c +:+ "/" +:+ rev_string P)
                  = rev_string c +:+ "/" +:+ rev_string P).
  { rewrite Hrev. change (String x y +:+ "/" +:+ rev_string P)
      with (String x (y +:+ "/" +:+ rev_string P)). by apply trim_slashes_head. }
  rewrite Htrim, upto_slash_app, rev_string_involutive by done.
  by rewrite Hcar.
Qed.

(** The directory of a file in a relative directory made of names. *)
Lemma Dir_file (cs : list string) (c : string) :
  Forall (fun c => simpleName c = true) cs -> cs <> [] -> simpleName c = true ->
  Dir (Join "/" cs +:+ "/" +:+ c) = Join "/" cs.
Proof.
  intros Hcs Hne Hc. destruct (simpleName_rev c Hc) as (Hl & _).
  unfold Dir. rewrite rev_path, from_slash_app by done.
  rewrite rev_string_app, rev_string_involutive.
  change (rev_string "/") with "/".
  assert (Heq : Join "/" cs +:+ "/" = Join "/" (cs ++ [""])) by (by rewrite Join_snoc).
  rewrite Heq. apply Clean_names; [done|done|by right].
Qed.

Lemma filepath_Join_names (cs : list string) :
  Forall (fun c => simpleName c = true) cs -> cs <> [] ->
  filepath_Join cs = Join "/" cs.
Proof.
  intros Hcs Hne. destruct cs as [|c cs]; [done|].
  pose proof Hcs as Hc. apply Forall_cons in Hc as [Hc _].
  destruct (simpleName_inv c Hc) as (_ & H1 & _).
  cbn [filepath_Join]. rewrite H1.
  pose proof (Clean_names (c :: cs) [] Hcs Hne (or_introl eq_refl)) as H.
  by rewrite app_nil_r in H.
Qed.

(** ** Digits *)

Lemma lacks_uint (c : ascii) (d : Decimal.uint) :
  digit_of c = None -> lacks c (NilEmpty.string_of_uint d) = true.
Proof.
  intros Hc.
  induction d as [|d IH|d IH|d IH|d IH|d IH|d IH|d IH|d IH|d IH|d IH]; [done|..];
    cbn [NilEmpty.string_of_uint lacks]; rewrite IH, andb_true_r;
    apply negb_true_iff, Ascii.eqb_neq; intros <-; vm_compute in Hc; discriminate.
Qed.

Lemma lacks_fmt_d (c : ascii) (z : Z) :
  (0 <= z)%Z -> digit_of c = None -> lacks c (fmt_d z) = true.
Proof.
  intros Hz Hc. destruct (fmt_d_nonneg z Hz) as [d ->].
  destruct d; try (by apply (lacks_uint c)).
  cbn [NilZero.string_of_uint lacks]. rewrite andb_true_r.
  apply negb_true_iff, Ascii.eqb_neq. intros <-. vm_compute in Hc. discriminate.
Qed.

Lemma lacks_zeros (c : ascii) (n : nat) : digit_of c = None -> lacks c (zeros n) = true.
Proof.
  intros Hc. induction n as [|n IH]; [done|].
  change (zeros (S n)) with (String "0" (zeros n)). cbn [lacks]. rewrite IH, andb_true_r.
  apply negb_true_iff, Ascii.eqb_neq. intros <-. vm_compute in Hc. discriminate.
Qed.

Lemma fmt_0d_nonneg (width : nat) (z : Z) :
  (0 <= z)%Z -> fmt_0d width z = pad0 width (fmt_d z).
Proof.
  intros Hz. unfold fmt_0d. destruct (z <? 0)%Z eqn:E; [|done].
  apply Z.ltb_lt in E. lia.
Qed.

Lemma lacks_fmt_0d (c : ascii) (width : nat) (z : Z) :
  (0 <= z)%Z -> digit_of c = None -> lacks c (fmt_0d width z) = true.
Proof.
  intros Hz Hc. rewrite fmt_0d_nonneg by done. unfold pad0.
  by rewrite lacks_app, lacks_zeros, lacks_fmt_d.
Qed.

Lemma fmt_d_head (z : Z) :
  (0 <= z)%Z -> exists a r, fmt_d z = String a r.
Proof.
  intros Hz. destruct (fmt_d_nonneg z Hz) as [d ->].
  destruct d; cbn; eauto.
Qed.

Lemma fmt_0d_head (width : nat) (z : Z) :
  (0 <= z)%Z -> exists a r, fmt_0d width z = String a r.
Proof.
  intros Hz. rewrite fmt_0d_nonneg by done. unfold pad0.
  destruct (fmt_d_head z Hz) as (a & r & ->).
  destruct (width - _)%nat; cbn; eauto.
Qed.

(** A number below 100 printed with [%02d] reads back as two digits. *)
Lemma two_digits_fmt (n : nat) (rest : string) :
  (n < 100)%nat ->
  two_digits (fmt_0d 2 (Z.of_nat n) +:+ rest) = Some (Z.of_nat n, rest).
Proof.
  intros Hn.
  do 100 (destruct n as [|n]; [reflexivity|]). lia.
Qed.

Lemma two_digits_fmt_Z (z : Z) (rest : string) :
  (0 <= z < 100)%Z -> two_digits (fmt_0d 2 z +:+ rest) = Some (z, rest).
Proof.
  intros Hz. rewrite <- (Z2Nat.id z) by lia. apply two_digits_fmt. lia.
Qed.

(** ** Durations *)

Lemma Qfloor_scaled (q : Q) (k : Z) :
  (0 < k)%Z -> (Qfloor (q * inject_Z k) / k)%Z = Qfloor q.
Proof.
  intros Hk. destruct q as [a b]. unfold Qfloor, Qmult, inject_Z. cbn [Qnum Qden].
  rewrite Pos.mul_1_r. rewrite Z.div_div by lia.
  by rewrite Z.div_mul_cancel_r by lia.
Qed.

Lemma Duration_nonneg (q : Q) :
  (0 <= q)%Q ->
  (0 <= Duration (q * inject_Z Second)%Q)%Z
  /\ Seconds (Duration (q * inject_Z Second)%Q) = Qfloor q.
Proof.
  intros Hq. unfold Duration, trunc, Seconds.
  assert (0 <= q * inject_Z Second)%Q as Hpos.
  { apply Qmult_le_0_compat; [done|]. by vm_compute. }
  assert (Hle : Qle_bool 0 (q * inject_Z Second) = true) by (by apply Qle_bool_iff).
  rewrite Hle.
  assert (0 <= Qfloor (q * inject_Z Second))%Z as Hd.
  { change 0%Z with (Qfloor 0). by apply Qfloor_resp_le. }
  split; [done|].
  rewrite Z.quot_div_nonneg by (done || by vm_compute).
  apply Qfloor_scaled. by vm_compute.
Qed.

Lemma formatTimestamp_clock (ts : string) (q : Q) :
  ParseFloat ts = Some q -> (0 <= q)%Q ->
  Extractor.formatTimestamp ts
  = fmt_0d 2 (Qfloor q / 3600) +:+ "-" +:+ fmt_0d 2 ((Qfloor q / 60) mod 60)
      +:+ "-" +:+ fmt_0d 2 (Qfloor q mod 60).
Proof.
  intros Hts Hq. unfold Extractor.formatTimestamp. rewrite Hts. cbv zeta.
  change (default 0%Q (Some q)) with q.
  destruct (Duration_nonneg q Hq) as [Hd Hs].
  set (d := Duration (q * inject_Z Second)%Q) in *.
  assert (Ht : (0 <= Qfloor q)%Z) by (change 0%Z with (Qfloor 0); by apply Qfloor_resp_le).
  unfold Seconds in Hs. rewrite Z.quot_div_nonneg in Hs by (done || by vm_compute).
  assert (HH : Hours d = (Qfloor q / 3600)%Z).
  { unfold Hours. rewrite Z.quot_div_nonneg by (done || by vm_compute).
    rewrite <- Hs, Z.div_div by (by vm_compute). reflexivity. }
  assert (HM : Minutes d = (Qfloor q / 60)%Z).
  { unfold Minutes. rewrite Z.quot_div_nonneg by (done || by vm_compute).
    rewrite <- Hs, Z.div_div by (by vm_compute). reflexivity. }
  assert (HS : Seconds d = Qfloor q).
  { unfold Seconds. by rewrite Z.quot_div_nonneg by (done || by vm_compute). }
  rewrite HH, HM, HS.
  rewrite !Z.rem_mod_nonneg by (try apply Z.div_pos; lia). reflexivity.
Qed.

Lemma Parse_clock (h m s : Z) :
  (0 <= h < 24)%Z -> (0 <= m < 60)%Z -> (0 <= s < 60)%Z ->
  Parse_15_04_05 (fmt_0d 2 h +:+ "-" +:+ fmt_0d 2 m +:+ "-" +:+ fmt_0d 2 s)
  = Some (h, m, s).
Proof.
  intros Hh Hm Hs. unfold Parse_15_04_05, hour_digits.
  rewrite two_digits_fmt_Z by lia. cbn [mbind option_bind fst snd].
  assert (E1 : (24 <=? h)%Z = false) by (apply Z.leb_gt; lia). rewrite E1.
  change (CutPrefix "-" ("-" +:+ fmt_0d 2 m +:+ "-" +:+ fmt_0d 2 s))
    with (Some (fmt_0d 2 m +:+ "-" +:+ fmt_0d 2 s)).
  cbn [mbind option_bind]. rewrite two_digits_fmt_Z by lia. cbn [mbind option_bind fst snd].
  assert (E2 : (60 <=? m)%Z = false) by (apply Z.leb_gt; lia). rewrite E2.
  change (CutPrefix "-" ("-" +:+ fmt_0d 2 s)) with (Some (fmt_0d 2 s)).
  cbn [mbind option_bind]. rewrite <- (append_nil_r (fmt_0d 2 s)).
  rewrite two_digits_fmt_Z by lia. cbn [mbind option_bind fst snd].
  assert (E3 : (60 <=? s)%Z = false) by (apply Z.leb_gt; lia). by rewrite E3.
Qed.

Lemma TrimSuffix_app (a suffix : string) : TrimSuffix (a +:+ suffix) suffix = a.
Proof.
  unfold TrimSuffix. by rewrite rev_string_app, CutPrefix_app, rev_string_involutive.
Qed.

Lemma CutPrefix_lacks (c a : ascii) (p r x : string) :
  lacks c (String a r) = true -> CutPrefix (String c p) (String a r +:+ x) = None.
Proof.
  cbn [lacks]. intros [Ha _]%andb_true_iff. apply negb_true_iff in Ha.
  change (String a r +:+ x) with (String a (r +:+ x)). cbn [CutPrefix].
  by rewrite Ascii.eqb_sym, Ha.
Qed.

Lemma Cut_skip (c : ascii) (sep a X : string) :
  lacks c a = true ->
  Cut (String c sep) (a +:+ X)
  = match Cut (String c sep) X with
    | Some (p, q) => Some (a +:+ p, q)
    | None => None
    end.
Proof.
  induction a as [|x a IH]; intros Ha.
  - change ("" +:+ X) with X. by destruct (Cut (String c sep) X) as [[p q]|].
  - cbn [lacks] in Ha. apply andb_true_iff in Ha as [Hx Ha].
    change (String x a +:+ X) with (String x (a +:+ X)).
    cbn [Cut CutPrefix]. rewrite Ascii.eqb_sym.
    apply negb_true_iff in Hx. rewrite Hx, IH by done.
    by destruct (Cut (String c sep) X) as [[p q]|].
Qed.

Lemma Cut_cons (sep : string) (x : ascii) (s : string) :
  Cut sep (String x s)
  = match CutPrefix sep (String x s) with
    | Some r => Some ("", r)
    | None =>
        match Cut sep s with
        | Some (a, b) => Some (String x a, b)
        | None => None
        end
    end.
Proof. reflexivity. Qed.

Lemma CutPrefix_cons (a b : ascii) (p s : string) :
  CutPrefix (String a p) (String b s) = if Ascii.eqb a b then CutPrefix p s else None.
Proof. reflexivity. Qed.

(** ** The names of the frames *)

Lemma lacks_clock (c : ascii) (t : Z) :
  (0 <= t)%Z -> digit_of c = None -> c <> "-"%char ->
  lacks c (fmt_0d 2 (t / 3600) +:+ "-" +:+ fmt_0d 2 ((t / 60) mod 60)
             +:+ "-" +:+ fmt_0d 2 (t mod 60)) = true.
Proof.
  intros Ht Hc Hm.
  assert (lacks c "-" = true) as Hdash.
  { cbn [lacks]. rewrite andb_true_r. apply negb_true_iff, Ascii.eqb_neq. congruence. }
  rewrite !lacks_app, Hdash.
  rewrite !lacks_fmt_0d; try done.
  - apply Z.mod_pos_bound. lia.
  - apply Z.mod_pos_bound. lia.
  - apply Z.div_pos; lia.
Qed.

Lemma frameFile_parts (i : nat) (ts : string) (q : Q) :
  ParseFloat ts = Some q -> (0 <= q)%Q ->
  simpleName (frameFile i ts) = true
  /\ Split (frameFile i ts) "_timestamp_"
     = ["frame_" +:+ fmt_0d 4 (Z.of_nat i + 1);
        Extractor.formatTimestamp ts +:+ ".jpg"].
Proof.
  intros Hts Hq.
  assert (Ht : (0 <= Qfloor q)%Z) by (change 0%Z with (Qfloor 0); by apply Qfloor_resp_le).
  assert (Hi : (0 <= Z.of_nat i + 1)%Z) by lia.
  set (D := fmt_0d 4 (Z.of_nat i + 1)).
  set (T := Extractor.formatTimestamp ts).
  assert (HT : forall c, digit_of c = None -> c <> "-"%char -> lacks c T = true).
  { intros c Hc Hm. subst T. rewrite (formatTimestamp_clock ts q Hts Hq).
    by apply lacks_clock. }
  assert (HD : forall c, digit_of c = None -> lacks c D = true).
  { intros c Hc. by apply lacks_fmt_0d. }
  destruct (fmt_0d_head 4 (Z.of_nat i + 1) Hi) as (a & r & HDa). fold D in HDa.
  assert (Hname : frameFile i ts = "frame" +:+ "_" +:+ D +:+ "_timestamp_" +:+ T +:+ ".jpg")
    by reflexivity.
  split.
  - unfold simpleName. rewrite Hname.
    assert (Hl : lacks "/" ("frame" +:+ "_" +:+ D +:+ "_timestamp_" +:+ T +:+ ".jpg") = true).
    { rewrite !lacks_app, HD, HT by done. reflexivity. }
    rewrite Hl. reflexivity.
  - unfold Split. rewrite Hname.
    assert (HR : lacks "_" (T +:+ ".jpg") = true).
    { rewrite lacks_app, HT by done. reflexivity. }
    assert (Hcut : Cut "_timestamp_" ("frame" +:+ "_" +:+ D +:+ "_timestamp_" +:+ T +:+ ".jpg")
                   = Some ("frame_" +:+ D, T +:+ ".jpg")).
    { rewrite (Cut_skip "_" "timestamp_" "frame") by reflexivity.
      change ("_" +:+ D +:+ "_timestamp_" +:+ T +:+ ".jpg")
        with (String "_" (D +:+ "_timestamp_" +:+ T +:+ ".jpg")).
      assert (Hp : CutPrefix "timestamp_" (D +:+ "_timestamp_" +:+ T +:+ ".jpg") = None).
      { rewrite HDa. apply CutPrefix_lacks. rewrite <- HDa. by apply HD. }
      rewrite Cut_cons, CutPrefix_cons. change (Ascii.eqb "_" "_") with true. cbv iota.
      rewrite Hp. rewrite (Cut_first "_" "timestamp_" D) by (by apply HD).
      reflexivity. }
    change (String.length ("frame" +:+ "_" +:+ D +:+ "_timestamp_" +:+ T +:+ ".jpg"))
      with (S (S (String.length ("ame" +:+ "_" +:+ D +:+ "_timestamp_" +:+ T +:+ ".jpg")))).
    cbn [Split_go]. rewrite Hcut. rewrite (Cut_lacks "_" "timestamp_") by done.
    reflexivity.
Qed.

(** The path of a frame, read back: its video, its name and its whole
    seconds. *)
Lemma outputFrame_read_back (file : string) (i : nat) (ts : string) (q : Q) :
  simpleName (Base file) = true ->
  ParseFloat ts = Some q -> (0 <= q)%Q -> (Qfloor q < 86400)%Z ->
  let frame := Extractor.outputFrame file i ts in
  frame = "frames/" +:+ Base file +:+ "/" +:+ frameFile i ts
  /\ frameVideo frame = Base file
  /\ frameBase frame = frameFile i ts
  /\ frameTimestamp frame = inject_Z (Qfloor q).
Proof.
  intros Hv Hts Hq Hday. cbv zeta.
  destruct (frameFile_parts i ts q Hts Hq) as [Hname Hsplit].
  assert (Ht : (0 <= Qfloor q)%Z) by (change 0%Z with (Qfloor 0); by apply Qfloor_resp_le).
  assert (Hdir : Extractor.outputDir file = "frames" +:+ "/" +:+ Base file).
  { unfold Extractor.outputDir. rewrite filepath_Join_names; [done| |done].
    repeat constructor. exact Hv. }
  assert (Hframe : Extractor.outputFrame file i ts
                   = Join "/" ["frames"; Base file] +:+ "/" +:+ frameFile i ts).
  { unfold Extractor.outputFrame. fold (frameFile i ts). rewrite Hdir.
    cbn [filepath_Join]. change (("frames" +:+ "/" +:+ Base file) =? "")%string with false.
    cbv iota.
    assert (Hj : Join "/" ["frames" +:+ "/" +:+ Base file; frameFile i ts]
                 = Join "/" (["frames"; Base file; frameFile i ts] ++ [])) by reflexivity.
    rewrite Hj, Clean_names; [reflexivity| |done|by left].
    repeat constructor; done. }
  rewrite Hframe. unfold frameVideo, frameBase, frameTimestamp.
  split; [reflexivity|]. split.
  { rewrite Dir_file; [|repeat constructor; done|done|done].
    apply (Base_file "frames"). exact Hv. }
  assert (Hbase : Base (Join "/" ["frames"; Base file] +:+ "/" +:+ frameFile i ts)
                  = frameFile i ts) by (by apply Base_file).
  split; [exact Hbase|].
  unfold extractTimestampInSeconds. rewrite Hbase, Hsplit.
  rewrite TrimSuffix_app, (formatTimestamp_clock ts q Hts Hq).
  rewrite Parse_clock.
  - f_equal.
    pose proof (Z.div_mod (Qfloor q) 60 ltac:(lia)).
    pose proof (Z.div_mod (Qfloor q / 60) 60 ltac:(lia)).
    assert (Qfloor q / 3600 = Qfloor q / 60 / 60)%Z by (by rewrite Z.div_div by lia).
    lia.
  - split; [apply Z.div_pos; lia|]. apply Z.div_lt_upper_bound; lia.
  - apply Z.mod_pos_bound. lia.
  - apply Z.mod_pos_bound. lia.
Qed.

(** X6. The path [ExtractFrames] gives a frame is read back by the
    identifier as it was meant: for a video whose file name is an ordinary
    name and a timestamp that reads as a number of seconds from 0 up to, not
    including, 24 hours, the frame lies at [frames/<video>/<frame name>]; the
    video name [IdentifyEpisode] derives from that path is the file name of
    the video, the frame name is the one the extractor built, and
    [extractTimestampInSeconds] returns the whole seconds of the
    timestamp. *)
Theorem frame_path_roundtrip (file : string) (i : nat) (ts : string) (q : Q) :
  simpleName (Base file) = true ->
  ParseFloat ts = Some q -> (0 <= q)%Q -> (Qfloor q < 86400)%Z ->
  let frame := Extractor.outputFrame file i ts in
  frame = "frames/" +:+ Base file +:+ "/" +:+ frameFile i ts
  /\ frameVideo frame = Base file
  /\ frameBase frame = frameFile i ts
  /\ frameTimestamp frame = inject_Z (Qfloor q).
Proof. apply outputFrame_read_back. Qed.


Lemma frame_path_roundtrip_witness :
  simpleName (Base "videos/Show 01.mkv") = true
  /\ ParseFloat "754.25" = Some (75425 # 100)
  /\ Extractor.outputFrame "videos/Show 01.mkv" 2 "754.25"
     = "frames/Show 01.mkv/frame_0003_timestamp_00-12-34.jpg"
  /\ frameVideo (Extractor.outputFrame "videos/Show 01.mkv" 2 "754.25") = "Show 01.mkv"
  /\ frameTimestamp (Extractor.outputFrame "videos/Show 01.mkv" 2 "754.25") = inject_Z 754.
Proof.
  assert (H1 : simpleName (Base "videos/Show 01.mkv") = true) by reflexivity.
  assert (H2 : ParseFloat "754.25" = Some (75425 # 100)) by reflexivity.
  assert (H3 : (0 <= 75425 # 100)%Q) by (by vm_compute).
  assert (H4 : (Qfloor (75425 # 100) < 86400)%Z) by (by vm_compute).
  destruct (frame_path_roundtrip "videos/Show 01.mkv" 2 "754.25" (75425 # 100) H1 H2 H3 H4)
    as (Hp & Hv & _ & Ht).
  split_and!; [exact H1|exact H2|exact Hp|exact Hv|exact Ht].
Defined.

(** ** The order of strings *)

Lemma ascii_compare_lt_trans (x y z : ascii) :
  Ascii.compare x y = Lt -> Ascii.compare y z = Lt -> Ascii.compare x z = Lt.
Proof.
  unfold Ascii.compare. rewrite !N.compare_lt_iff. apply N.lt_trans.
Qed.

Lemma string_compare_lt_trans (a b c : string) :
  String.compare a b = Lt -> String.compare b c = Lt -> String.compare a c = Lt.
Proof.
  revert b c. induction a as [|x a IH]; intros [|y b] [|z c]; simpl; try done.
  destruct (Ascii.compare x y) eqn:Hxy; try done;
    destruct (Ascii.compare y z) eqn:Hyz; try done.
  - apply Ascii.compare_eq_iff in Hxy, Hyz. subst.
    assert (Ascii.compare z z = Eq) as -> by (unfold Ascii.compare; apply N.compare_refl).
    apply IH.
  - apply Ascii.compare_eq_iff in Hxy. subst. by rewrite Hyz.
  - apply Ascii.compare_eq_iff in Hyz. subst. by rewrite Hxy.
  - by rewrite (ascii_compare_lt_trans x y z).
Qed.

Lemma string_compare_refl (a : string) : String.compare a a = Eq.
Proof.
  induction a as [|x a IH]; [done|]. simpl.
  assert (Ascii.compare x x = Eq) as -> by (unfold Ascii.compare; apply N.compare_refl).
  exact IH.
Qed.

Lemma string_leb_cases (a b : string) :
  String.leb a b = true <-> a = b \/ String.compare a b = Lt.
Proof.
  unfold String.leb. destruct (String.compare a b) eqn:E.
  - apply String.compare_eq_iff in E. tauto.
  - tauto.
  - split; [done|]. intros [->|H]; [|done]. by rewrite string_compare_refl in E.
Qed.

Lemma string_leb_trans (a b c : string) :
  String.leb a b = true -> String.leb b c = true -> String.leb a c = true.
Proof.
  rewrite !string_leb_cases. intros [->|H1] [->|H2]; eauto.
  right. by eapply string_compare_lt_trans.
Qed.

Lemma string_ltb_leb (a b : string) : String.ltb a b = false -> String.leb b a = true.
Proof.
  unfold String.ltb, String.leb. rewrite (String.compare_antisym b a).
  by destruct (String.compare a b).
Qed.

Lemma string_ltb_lt (a b : string) : String.ltb a b = true -> String.leb a b = true.
Proof. unfold String.ltb, String.leb. by destruct (String.compare a b). Qed.

(** ** Majorities *)

Lemma outvotes_refl (r : string * Z) : outvotes r r.
Proof. right. split; [done|]. apply string_leb_cases. by left. Qed.

Lemma outvotes_trans (r s t : string * Z) : outvotes r s -> outvotes s t -> outvotes r t.
Proof.
  unfold outvotes. intros [H1|[H1 L1]] [H2|[H2 L2]]; try (left; lia).
  right. split; [lia|]. by eapply string_leb_trans.
Qed.

Lemma keepMajority_outvotes (st e : string * Z) :
  let st' := Renamer.keepMajority st e in
  (st' = st \/ st' = e) /\ outvotes st' st /\ outvotes st' e.
Proof.
  unfold Renamer.keepMajority.
  destruct (st.2 <? e.2)%Z eqn:Hlt; cbn [orb].
  { apply Z.ltb_lt in Hlt. split_and!; [by right|by left|apply outvotes_refl]. }
  apply Z.ltb_ge in Hlt.
  destruct (e.2 =? st.2)%Z eqn:Heq; cbn [andb].
  - apply Z.eqb_eq in Heq. destruct (String.ltb e.1 st.1) eqn:Hs.
    + split_and!; [by right| |apply outvotes_refl].
      right. split; [done|]. by apply string_ltb_lt.
    + split_and!; [by left|apply outvotes_refl|].
      right. split; [done|]. by apply string_ltb_leb.
  - apply Z.eqb_neq in Heq. split_and!; [by left|apply outvotes_refl|].
    left. lia.
Qed.

Lemma fold_keepMajority (l : list (string * Z)) (st : string * Z) :
  let r := fold_left Renamer.keepMajority l st in
  (r = st \/ r ∈ l) /\ outvotes r st /\ forall e, e ∈ l -> outvotes r e.
Proof.
  revert st. induction l as [|e l IH]; intros st.
  - cbn. split_and!; [by left|apply outvotes_refl|]. intros e He. by apply elem_of_nil in He.
  - cbn [fold_left]. destruct (IH (Renamer.keepMajority st e)) as (Hr & Hst & Hall).
    destruct (keepMajority_outvotes st e) as (Hk & Hk1 & Hk2). cbv zeta in *.
    split_and!.
    + destruct Hr as [Hr|Hr]; [|right; by right].
      rewrite Hr. destruct Hk as [-> | ->]; [by left|right; by left].
    + by eapply outvotes_trans.
    + intros e' [->|He']%elem_of_cons; [by eapply outvotes_trans|by apply Hall].
Qed.

Lemma countKeys_snoc (keys : list string) (k : string) :
  countKeys (keys ++ [k]) = Renamer.countUp k (countKeys keys).
Proof. unfold countKeys. by rewrite fold_left_app. Qed.

Lemma occurrences_snoc (x k : string) (keys : list string) :
  occurrences x (keys ++ [k])
  = (occurrences x keys + if decide (k = x) then 1 else 0)%Z.
Proof.
  unfold occurrences. rewrite filter_app, length_app.
  destruct (decide (k = x)) as [->|Hne].
  - rewrite filter_cons_True by done. simpl. lia.
  - rewrite filter_cons_False by done. simpl. lia.
Qed.

Lemma occurrences_bounds (x : string) (keys : list string) :
  (0 <= occurrences x keys <= Z.of_nat (length keys))%Z.
Proof.
  unfold occurrences. pose proof (length_filter (fun y => y = x) keys). lia.
Qed.

Lemma occurrences_elem (x : string) (keys : list string) :
  x ∈ keys <-> (0 < occurrences x keys)%Z.
Proof.
  unfold occurrences. split.
  - intros Hx. assert (x ∈ filter (fun y => y = x) keys) as Hin
      by (by apply list_elem_of_filter).
    destruct (filter _ keys); [by apply elem_of_nil in Hin|simpl; lia].
  - intros Hpos. destruct (filter (fun y => y = x) keys) as [|y l] eqn:E; [simpl in Hpos; lia|].
    assert (y ∈ filter (fun y => y = x) keys) as Hin by (rewrite E; by left).
    apply list_elem_of_filter in Hin as [-> Hin]. done.
Qed.

Lemma countKeys_lookup (keys : list string) (x : string) :
  (Z.of_nat (length keys) < 2 ^ 63)%Z ->
  countKeys keys !! x
  = if (occurrences x keys =? 0)%Z then None else Some (occurrences x keys).
Proof.
  induction keys as [|k keys IH] using rev_ind; intros Hlen; [done|].
  rewrite length_app in Hlen. simpl in Hlen.
  rewrite countKeys_snoc, occurrences_snoc. unfold Renamer.countUp.
  pose proof (occurrences_bounds x keys) as Hb.
  destruct (decide (k = x)) as [->|Hne].
  - rewrite lookup_insert_eq, IH by lia.
    assert (default 0%Z (if (occurrences x keys =? 0)%Z then None
                         else Some (occurrences x keys)) = occurrences x keys) as ->.
    { destruct (occurrences x keys =? 0)%Z eqn:E; [|done]. apply Z.eqb_eq in E. by rewrite E. }
    rewrite int_incr_small by lia.
    destruct (occurrences x keys + 1 =? 0)%Z eqn:E; [apply Z.eqb_eq in E; lia|done].
  - rewrite lookup_insert_ne, IH by (done || lia). by rewrite Z.add_0_r.
Qed.

Lemma countMatches_split (matches : list MatchInfo) :
  Renamer.countMatches matches
  = (countKeys (episodeLabel <$> matches), countKeys (Renamer.titleOf <$> matches)).
Proof.
  unfold Renamer.countMatches, countKeys. generalize (∅ : gmap string Z) at 1 3.
  generalize (∅ : gmap string Z).
  induction matches as [|m matches IH]; intros a b; [done|].
  cbn [fold_left fmap list_fmap]. by rewrite IH.
Qed.

Lemma majority_of_counts (range : gmap string Z -> list (string * Z)) (keys : list string) :
  validRange range -> keys <> [] -> (Z.of_nat (length keys) < 2 ^ 63)%Z ->
  let r := fold_left Renamer.keepMajority (range (countKeys keys)) ("", 0%Z) in
  majorityOf keys r.1 /\ r.2 = occurrences r.1 keys.
Proof.
  intros Hrange Hne Hlen. cbv zeta.
  destruct (fold_keepMajority (range (countKeys keys)) ("", 0%Z)) as (Hr & _ & Hall).
  cbv zeta in Hr, Hall.
  set (r := fold_left Renamer.keepMajority (range (countKeys keys)) ("", 0%Z)) in *.
  assert (Hin : forall e : string * Z,
            e ∈ range (countKeys keys) <-> e.1 ∈ keys /\ e.2 = occurrences e.1 keys).
  { intros [k c]. rewrite (Hrange (countKeys keys)), elem_of_map_to_list.
    rewrite countKeys_lookup by done. cbn [fst snd].
    rewrite occurrences_elem.
    destruct (occurrences k keys =? 0)%Z eqn:E.
    - apply Z.eqb_eq in E. split; [done|]. lia.
    - apply Z.eqb_neq in E. pose proof (occurrences_bounds k keys).
      split; [intros [= <-]; split; [lia|done]|intros [_ ->]; done]. }
  destruct keys as [|k0 keys0] eqn:Hkeys; [done|]. rewrite <- Hkeys in *.
  assert (Hk0 : k0 ∈ keys) by (rewrite Hkeys; by left).
  assert (H0 : (k0, occurrences k0 keys) ∈ range (countKeys keys)) by (by apply Hin).
  pose proof (Hall _ H0) as Hv0. apply occurrences_elem in Hk0.
  assert (Hrin : r ∈ range (countKeys keys)).
  { destruct Hr as [Hr|Hr]; [|done]. rewrite Hr in Hv0.
    unfold outvotes in Hv0. cbn [fst snd] in Hv0. lia. }
  apply Hin in Hrin as [Hr1 Hr2]. split; [|done]. split; [done|].
  intros x Hx.
  assert (Hxin : (x, occurrences x keys) ∈ range (countKeys keys)) by (by apply Hin).
  apply Hall in Hxin. unfold outvotes in Hxin. cbn [fst snd] in Hxin.
  rewrite Hr2 in Hxin. exact Hxin.
Qed.

Lemma majorityOf_unique (keys : list string) (k k' : string) :
  majorityOf keys k -> majorityOf keys k' -> k = k'.
Proof.
  intros [Hk Hall] [Hk' Hall'].
  destruct (Hall k' Hk') as [H1|[H1 L1]]; destruct (Hall' k Hk) as [H2|[H2 L2]]; try lia.
  by apply String.leb_antisym.
Qed.

(** X7. For a non-empty list of records, [findMajorityTitleAndEpisode]
    returns the episode label that occurs most often among the records, and
    among the labels that occur as often the first in byte order; the same
    for the title (English, else Romaji, else Native); and as confidence the
    share of the records that carry the returned label, a number above 0 and
    at most 1. The order in which the maps of counts are traversed has no
    influence on the result. *)
Theorem findMajorityTitleAndEpisode_majority
    (range : gmap string Z -> list (string * Z)) (matches : list MatchInfo) :
  validRange range -> matches <> [] -> (Z.of_nat (length matches) < 2 ^ 63)%Z ->
  let r := Renamer.findMajorityTitleAndEpisode range matches in
  majorityOf (Renamer.titleOf <$> matches) r.1.1
  /\ majorityOf (episodeLabel <$> matches) r.1.2
  /\ r.2 = (inject_Z (occurrences r.1.2 (episodeLabel <$> matches))
            / inject_Z (Z.of_nat (length matches)))%Q
  /\ (0 < r.2 /\ r.2 <= 1)%Q
  /\ forall range' : gmap string Z -> list (string * Z),
       validRange range' -> Renamer.findMajorityTitleAndEpisode range' matches = r.
Proof.
  intros Hrange Hne Hlen.
  assert (Hspec : forall rg, validRange rg ->
            exists e t : string,
              Renamer.findMajorityTitleAndEpisode rg matches
              = (t, e, (inject_Z (occurrences e (episodeLabel <$> matches))
                        / inject_Z (Z.of_nat (length matches)))%Q)
              /\ majorityOf (episodeLabel <$> matches) e
              /\ majorityOf (Renamer.titleOf <$> matches) t).
  { intros rg Hrg. unfold Renamer.findMajorityTitleAndEpisode.
    rewrite countMatches_split.
    destruct (majority_of_counts rg (episodeLabel <$> matches) Hrg) as [He1 He2];
      [by destruct matches|by rewrite length_fmap|].
    destruct (majority_of_counts rg (Renamer.titleOf <$> matches) Hrg) as [Ht1 Ht2];
      [by destruct matches|by rewrite length_fmap|].
    cbv zeta in He1, He2, Ht1, Ht2.
    destruct (fold_left Renamer.keepMajority (rg (countKeys (episodeLabel <$> matches))) _)
      as [e ce].
    destruct (fold_left Renamer.keepMajority (rg (countKeys (Renamer.titleOf <$> matches))) _)
      as [t ct].
    cbn [fst snd] in *. subst ce. exists e, t. done. }
  destruct (Hspec range Hrange) as (e & t & Hr & He & Ht).
  cbv zeta. rewrite Hr. cbn [fst snd]. split_and!; try done.
  - destruct He as [Hin _]. apply occurrences_elem in Hin.
    apply Qlt_shift_div_l.
    + change 0%Q with (inject_Z 0). rewrite <- Zlt_Qlt. destruct matches; [done|simpl; lia].
    + rewrite Qmult_0_l. change 0%Q with (inject_Z 0). by rewrite <- Zlt_Qlt.
  - apply Qle_shift_div_r.
    + change 0%Q with (inject_Z 0). rewrite <- Zlt_Qlt. destruct matches; [done|simpl; lia].
    + rewrite Qmult_1_l, <- Zle_Qle.
      pose proof (occurrences_bounds e (episodeLabel <$> matches)) as Hb.
      rewrite length_fmap in Hb. lia.
  - intros range' Hrange'.
    destruct (Hspec range' Hrange') as (e' & t' & Hr' & He' & Ht').
    rewrite Hr'.
    by rewrite (majorityOf_unique _ _ _ He' He), (majorityOf_unique _ _ _ Ht' Ht).
Qed.

Lemma findMajorityTitleAndEpisode_majority_witness :
  validRange map_to_list
  /\ Renamer.findMajorityTitleAndEpisode map_to_list
       [matchOf "a.mkv" "6"; matchOf "a.mkv" "5"; matchOf "a.mkv" "6"; matchOf "a.mkv" "5"]
     = ("Show", "5", (2 # 4)%Q)
  /\ majorityOf ["6"; "5"; "6"; "5"] "5".
Proof.
  assert (H1 : validRange map_to_list) by (intros m; reflexivity).
  destruct (findMajorityTitleAndEpisode_majority map_to_list
              [matchOf "a.mkv" "6"; matchOf "a.mkv" "5"; matchOf "a.mkv" "6";
               matchOf "a.mkv" "5"] H1 ltac:(done) ltac:(by vm_compute))
    as (_ & He & _).
  split_and!; [exact H1|by vm_compute|exact He].
Defined.

(** ** The results of the renamer *)

Lemma AddResult_lookup (m : MatchInfo) (fr : Renamer.FileRenamer) (v : string) :
  default [] (Renamer.results (Renamer.AddResult m fr) !! v)
  = (default [] (Renamer.results fr !! v) ++ if decide (VideoName m = v) then [m] else [])%list.
Proof.
  unfold Renamer.AddResult. cbn [Renamer.results].
  destruct (decide (VideoName m = v)) as [<-|Hne].
  - by rewrite lookup_insert_eq.
  - rewrite lookup_insert_ne by done. by rewrite app_nil_r.
Qed.

(** X8. After the records of a match list have been handed to
    [AddResult] one by one, as [main] does, the renamer holds for each video
    name exactly the records with that name, in the order of the match list,
    and holds an entry only for the names that occur: no video has an empty
    list of records, and no record is lost or filed twice. *)
Theorem AddResult_groups (matches : list MatchInfo) (fr0 : Renamer.FileRenamer) :
  Renamer.results fr0 = ∅ ->
  let fr := fold_left (fun fr m => Renamer.AddResult m fr) matches fr0 in
  Renamer.inputFolder fr = Renamer.inputFolder fr0
  /\ forall v : string,
       Renamer.results fr !! v
       = match filter (fun m => VideoName m = v) matches with
         | [] => None
         | group => Some group
         end.
Proof.
  intros Hempty. cbv zeta.
  induction matches as [|m matches IH] using rev_ind.
  - cbn [fold_left]. split; [done|]. intros v. by rewrite Hempty, lookup_empty.
  - rewrite fold_left_app. cbn [fold_left]. destruct IH as [IHf IHr].
    split; [exact IHf|]. intros v. rewrite filter_app.
    unfold Renamer.AddResult at 1. cbn [Renamer.results].
    destruct (decide (VideoName m = v)) as [<-|Hne].
    + rewrite lookup_insert_eq, IHr, filter_cons_True by done.
      rewrite filter_nil.
      by destruct (filter (fun m0 => VideoName m0 = VideoName m) matches).
    + rewrite lookup_insert_ne, IHr, filter_cons_False by done.
      by rewrite filter_nil, app_nil_r.
Qed.

Lemma AddResult_groups_witness :
  Renamer.results {| Renamer.results := ∅; Renamer.inputFolder := "videos" |} = ∅
  /\ Renamer.results
       (fold_left (fun fr m => Renamer.AddResult m fr)
          [matchOf "a.mkv" "5"; matchOf "b.mkv" "7"; matchOf "a.mkv" "6"]
          {| Renamer.results := ∅; Renamer.inputFolder := "videos" |}) !! "a.mkv"
     = Some [matchOf "a.mkv" "5"; matchOf "a.mkv" "6"].
Proof.
  split; [reflexivity|].
  destruct (AddResult_groups [matchOf "a.mkv" "5"; matchOf "b.mkv" "7"; matchOf "a.mkv" "6"]
              {| Renamer.results := ∅; Renamer.inputFolder := "videos" |} eq_refl)
    as [_ H].
  etrans; [exact (H "a.mkv")|reflexivity].
Defined.

(** ** New file names *)

Lemma Clean_rooted_names (cs : list string) (tail : list string) :
  Forall (fun c => simpleName c = true) cs -> cs <> [] ->
  tail = [] \/ tail = [""] ->
  Clean ("/" +:+ Join "/" (cs ++ tail)) = "/" +:+ Join "/" cs.
Proof.
  intros Hcs Hne Htail.
  assert (Hl : Forall (fun c => lacks "/" c = true) ("" :: cs ++ tail)).
  { apply Forall_cons. split; [done|]. apply Forall_app. split.
    - eapply Forall_impl; [exact Hcs|]. intros c Hc. by apply simpleName_inv in Hc as [? _].
    - destruct Htail as [-> | ->]; [done|]. by apply Forall_singleton. }
  assert (Hj : "/" +:+ Join "/" (cs ++ tail) = Join "/" ("" :: cs ++ tail)).
  { destruct cs; [done|]. reflexivity. }
  unfold Clean. rewrite Hj, (Split_Join _ Hl) by done. rewrite <- Hj.
  change ("/" +:+ Join "/" (cs ++ tail)) with (String "/" (Join "/" (cs ++ tail))).
  cbv match zeta.
  change (fold_left (clean_step true) ("" :: cs ++ tail) [])
    with (fold_left (clean_step true) (cs ++ tail) []).
  rewrite fold_left_app, (clean_steps true cs [] Hcs).
  assert (Hfold : fold_left (clean_step true) tail (rev cs ++ [])%list = rev cs).
  { rewrite app_nil_r. destruct Htail as [-> | ->]; reflexivity. }
  rewrite Hfold, rev_involutive. reflexivity.
Qed.

(** A path made of file names, from the root or not, is clean. *)
Lemma Clean_path (root : string) (cs tail : list string) :
  root = "" \/ root = "/" ->
  Forall (fun c => simpleName c = true) cs -> cs <> [] ->
  tail = [] \/ tail = [""] ->
  Clean (root +:+ Join "/" (cs ++ tail)) = root +:+ Join "/" cs.
Proof.
  intros [-> | ->] Hcs Hne Htail.
  - by apply Clean_names.
  - by apply Clean_rooted_names.
Qed.

Lemma Dir_path (root : string) (cs : list string) (c : string) :
  root = "" \/ root = "/" ->
  Forall (fun c => simpleName c = true) cs -> cs <> [] -> simpleName c = true ->
  Dir ((root +:+ Join "/" cs) +:+ "/" +:+ c) = root +:+ Join "/" cs.
Proof.
  intros Hroot Hcs Hne Hc. destruct (simpleName_rev c Hc) as (Hl & _).
  unfold Dir. rewrite rev_path, from_slash_app by done.
  rewrite rev_string_app, rev_string_involutive.
  change (rev_string "/") with "/".
  assert (Heq : (root +:+ Join "/" cs) +:+ "/" = root +:+ Join "/" (cs ++ [""])).
  { rewrite Join_snoc by done. by rewrite !append_assoc. }
  rewrite Heq. apply Clean_path; [done|done|done|by right].
Qed.

Lemma lacks_removeSpecial (c : ascii) (s : string) :
  Renamer.allowedByte c = false -> lacks c (Renamer.removeSpecial s) = true.
Proof.
  intros Hc. induction s as [|x s IH]; [done|].
  cbn [Renamer.removeSpecial]. destruct (Renamer.allowedByte x) eqn:Hx; [|done].
  cbn [lacks]. rewrite IH, andb_true_r.
  apply negb_true_iff, Ascii.eqb_neq. intros ->. congruence.
Qed.

Lemma lacks_ext_scan (c : ascii) (r acc : string) :
  lacks c r = true -> lacks c acc = true -> lacks c (ext_scan r acc) = true.
Proof.
  revert acc. induction r as [|x r IH]; intros acc Hr Hacc; [done|].
  cbn [lacks] in Hr. apply andb_true_iff in Hr as [Hx Hr].
  cbn [ext_scan]. destruct (Ascii.eqb x "/"); [done|].
  destruct (Ascii.eqb x "."); cbn [lacks]; [by rewrite Hx, Hacc|].
  apply IH; [done|]. cbn [lacks]. by rewrite Hx, Hacc.
Qed.

Lemma ext_scan_app (a b acc : string) :
  lacks "/" a = true -> ext_scan (a +:+ "/" +:+ b) acc = ext_scan a acc.
Proof.
  revert acc. induction a as [|x a IH]; intros acc Ha; [done|].
  cbn [lacks] in Ha. apply andb_true_iff in Ha as [Hx Ha].
  change (String x a +:+ "/" +:+ b) with (String x (a +:+ "/" +:+ b)).
  cbn [ext_scan]. destruct (Ascii.eqb x "/"); [done|].
  destruct (Ascii.eqb x "."); [done|]. by apply IH.
Qed.

Lemma Ext_file (P c : string) : lacks "/" c = true -> Ext (P +:+ "/" +:+ c) = Ext c.
Proof.
  intros Hc. unfold Ext. rewrite rev_path. apply ext_scan_app. by rewrite lacks_rev.
Qed.

Lemma lacks_Ext (c : ascii) (s : string) : lacks c s = true -> lacks c (Ext s) = true.
Proof.
  intros Hs. unfold Ext. apply lacks_ext_scan; [by rewrite lacks_rev|done].
Qed.

Lemma marked_simple (a b : string) :
  lacks "/" a = true -> lacks "/" b = true -> simpleName (a +:+ ".E" +:+ b) = true.
Proof.
  intros Ha Hb.
  assert (HE : lacks "E" (a +:+ ".E" +:+ b) = false).
  { rewrite !lacks_app. cbn. by rewrite andb_false_r. }
  unfold simpleName. rewrite !lacks_app, Ha, Hb. cbn [andb lacks].
  destruct (String.eqb_spec (a +:+ ".E" +:+ b) "") as [E|_]; [by rewrite E in HE|].
  destruct (String.eqb_spec (a +:+ ".E" +:+ b) ".") as [E|_]; [by rewrite E in HE|].
  destruct (String.eqb_spec (a +:+ ".E" +:+ b) "..") as [E|_]; [by rewrite E in HE|].
  reflexivity.
Qed.

Lemma path_head (root : string) (cs : list string) :
  Forall (fun c => simpleName c = true) cs -> cs <> [] ->
  exists a r, root +:+ Join "/" cs = String a r.
Proof.
  intros Hcs Hne. destruct cs as [|c cs]; [done|].
  apply Forall_cons in Hcs as [Hc _].
  destruct (simpleName_inv c Hc) as (_ & _ & _ & _ & a & r & -> & _).
  destruct (Join_head (String a r) cs) as [r1 ->].
  destruct root as [|x root]; cbn; eauto.
Qed.

(** X9. [constructNewFileName] keeps a file where it is. For a file with
    an ordinary name in a directory given by ordinary names, relative or
    from the root, and an episode label without a slash, the new path lies
    in the directory of the original, and its last element is the title
    part, [.E], the episode part and the extension of the original; the
    title part contains no byte other than ASCII letters, digits and dots,
    and the episode part is the label, with a [0] put before a label of one
    byte. *)
Theorem constructNewFileName_in_place (root : string) (cs : list string)
    (v seriesTitle episode : string) :
  root = "" \/ root = "/" ->
  Forall (fun c => simpleName c = true) cs -> cs <> [] ->
  simpleName v = true -> lacks "/" episode = true ->
  let dir := root +:+ Join "/" cs in
  let new := Renamer.constructNewFileName (dir +:+ "/" +:+ v) seriesTitle episode in
  Dir new = dir
  /\ Dir new = Dir (dir +:+ "/" +:+ v)
  /\ Base new = titlePart seriesTitle +:+ ".E" +:+ episodePart episode +:+ Ext v
  /\ new = dir +:+ "/" +:+ Base new
  /\ (forall c : ascii, Renamer.allowedByte c = false ->
        lacks c (titlePart seriesTitle) = true).
Proof.
  intros Hroot Hcs Hne Hv Hep. cbv zeta.
  destruct (simpleName_inv v Hv) as (Hvl & _).
  set (dir := root +:+ Join "/" cs).
  set (name := titlePart seriesTitle +:+ ".E" +:+ episodePart episode +:+ Ext v).
  assert (Hname : simpleName name = true).
  { apply marked_simple; [by apply lacks_removeSpecial|].
    rewrite lacks_app, lacks_Ext by done. unfold episodePart.
    destruct (_ =? 1)%nat; [|by rewrite Hep]. rewrite lacks_app, Hep. reflexivity. }
  assert (Hdir : Dir (dir +:+ "/" +:+ v) = dir) by (by apply Dir_path).
  assert (Hnew : Renamer.constructNewFileName (dir +:+ "/" +:+ v) seriesTitle episode
                 = dir +:+ "/" +:+ name).
  { unfold Renamer.constructNewFileName. cbv zeta.
    rewrite Ext_file, Hdir by done. fold (titlePart seriesTitle) (episodePart episode).
    fold name. destruct (path_head root cs Hcs Hne) as (a & r & Hd). fold dir in Hd.
    assert (Hnz : String.eqb dir "" = false) by (by rewrite Hd).
    cbn [filepath_Join]. rewrite Hnz.
    assert (Hj : Join "/" [dir; name] = root +:+ Join "/" ((cs ++ [name]) ++ [])).
    { rewrite app_nil_r, Join_snoc by done. cbn [Join]. subst dir.
      by rewrite !append_assoc. }
    rewrite Hj, Clean_path; [|done| |by destruct cs|by left].
    - rewrite Join_snoc by done. subst dir. by rewrite !append_assoc.
    - apply Forall_app. split; [done|]. by apply Forall_singleton. }
  rewrite Hnew, Hdir.
  assert (Hbase : Base (dir +:+ "/" +:+ name) = name) by (by apply Base_file).
  rewrite Hbase. split_and!; try done; try (by apply Dir_path).
  intros c Hc. by apply lacks_removeSpecial.
Qed.

Lemma constructNewFileName_in_place_witness :
  Forall (fun c => simpleName c = true) ["home"; "me"; "videos"]
  /\ simpleName "raw 01.mkv" = true
  /\ lacks "/" "5" = true
  /\ Renamer.constructNewFileName "/home/me/videos/raw 01.mkv" "Re:Zero − Starting Life" "5"
     = "/home/me/videos/ReZero..Starting.Life.E05.mkv"
  /\ Dir (Renamer.constructNewFileName "/home/me/videos/raw 01.mkv"
            "Re:Zero − Starting Life" "5")
     = "/home/me/videos".
Proof.
  assert (H1 : Forall (fun c => simpleName c = true) ["home"; "me"; "videos"])
    by (repeat constructor).
  assert (H2 : simpleName "raw 01.mkv" = true) by reflexivity.
  assert (H3 : lacks "/" "5" = true) by reflexivity.
  destruct (constructNewFileName_in_place "/" ["home"; "me"; "videos"] "raw 01.mkv"
              "Re:Zero − Starting Life" "5" (or_intror eq_refl) H1 ltac:(done) H2 H3)
    as (Hdir & _).
  split_and!; [exact H1|exact H2|exact H3|by vm_compute|exact Hdir].
Defined.

(** ** The proxy loader *)

Lemma checkProxyConcurrently_listed (parse : string -> option string)
    (line : string * Proxy.Probe) (pl : Proxy.ProxyLoader) :
  let pl' := Proxy.checkProxyConcurrently parse line pl in
  Proxy.nilDereferenced pl' = Proxy.nilDereferenced pl
  /\ Proxy.GetProxyList pl'
     = (Proxy.GetProxyList pl ++ option_list (answering parse line))%list.
Proof.
  unfold Proxy.checkProxyConcurrently, answering, Proxy.GetProxyList.
  destruct (parse (Proxy.withScheme line.1)) as [u|]; [|by rewrite app_nil_r].
  destruct line.2 as [err|status [[quota used]|]]; cbn [Proxy.checkProxy].
  - by rewrite app_nil_r.
  - destruct (status =? 200)%Z; cbn [negb].
    + destruct (int_wrap (quota - used) <=? 0)%Z; cbn; by rewrite fmap_app.
    + cbn. by rewrite app_nil_r.
  - destruct (status =? 200)%Z; cbn; by rewrite app_nil_r.
Qed.

Lemma fold_checkProxyConcurrently (parse : string -> option string)
    (lines : list (string * Proxy.Probe)) (pl : Proxy.ProxyLoader) :
  let pl' := fold_left (fun pl line => Proxy.checkProxyConcurrently parse line pl) lines pl in
  Proxy.nilDereferenced pl' = Proxy.nilDereferenced pl
  /\ Proxy.GetProxyList pl' = (Proxy.GetProxyList pl ++ omap (answering parse) lines)%list.
Proof.
  revert pl. induction lines as [|line lines IH]; intros pl.
  - cbn. by rewrite app_nil_r.
  - cbn [fold_left]. destruct (IH (Proxy.checkProxyConcurrently parse line pl)) as [H1 H2].
    destruct (checkProxyConcurrently_listed parse line pl) as [H3 H4].
    cbv zeta in *. rewrite H1, H2, H3, H4, <- app_assoc. split; [done|]. f_equal.
    cbn [omap list_omap]. by destruct (answering parse line).
Qed.

(** X10. [LoadProxies] lists a proxy exactly when its probe was answered
    with status 200 and a body that decodes: after loading a file that
    could be opened, whatever the order in which the checks finish, the
    proxy list holds, up to that order, the URLs of those lines and of no
    other. The quota plays no part: a proxy that has used its quota up is
    listed like one that has not, although [checkProxy] reports it as not
    working. Taking [*details] never dereferences nil. When the scanner
    reports no error, each listed URL, exhausted or not, gets a client of
    its own in the identifier [main] builds. *)
Theorem LoadProxies_lists_answering (parse : string -> option string)
    (finish : list (string * Proxy.Probe) -> list (string * Proxy.Probe))
    (lines : list (string * Proxy.Probe)) (scanErr : option string) :
  (forall l, finish l ≡ₚ l) ->
  let r := Proxy.LoadProxies parse finish (inr (lines, scanErr)) Proxy.NewProxyLoader in
  Proxy.nilDereferenced r.1 = false
  /\ Proxy.GetProxyList r.1 ≡ₚ omap (answering parse) lines
  /\ (forall (s u : string) (quota used : Z),
        (s, Proxy.Answer 200 (Some (quota, used))) ∈ lines ->
        parse (Proxy.withScheme s) = Some u ->
        Proxy.checkProxy u (Proxy.Answer 200 (Some (quota, used))) <> (false, None)
        /\ u ∈ Proxy.GetProxyList r.1)
  /\ (forall (api : string) (id : Z) (u : string),
        scanErr = None -> u ∈ Proxy.GetProxyList r.1 ->
        exists c : Client, httpClients (Proxy.identifierOf api id (Some r)) !! c = Some u).
Proof.
  intros Hfinish. cbv zeta. unfold Proxy.LoadProxies. cbn [fst].
  destruct (fold_checkProxyConcurrently parse (finish lines) Proxy.NewProxyLoader)
    as [Hnil Hlist].
  cbv zeta in Hnil, Hlist.
  set (pl := fold_left (fun pl line => Proxy.checkProxyConcurrently parse line pl)
               (finish lines) Proxy.NewProxyLoader) in *.
  assert (Hperm : Proxy.GetProxyList pl ≡ₚ omap (answering parse) lines).
  { rewrite Hlist. cbn [Proxy.GetProxyList Proxy.NewProxyLoader Proxy.proxyList fmap list_fmap app].
    by rewrite (Hfinish lines). }
  split_and!; [done|done| |].
  - intros s u quota used Hin Hparse. split.
    + cbn. by destruct (int_wrap (quota - used) <=? 0)%Z.
    + rewrite Hperm. apply list_elem_of_omap.
      exists (s, Proxy.Answer 200 (Some (quota, used))). split; [done|].
      unfold answering. cbn [fst snd]. by rewrite Hparse.
  - intros api id u -> Hu. unfold Proxy.identifierOf.
    destruct (NewEpisodeIdentifier_paths api id
                ((fun p => {| URL := p; Quota := 0%Z; QuotaUsed := 0%Z |})
                   <$> Proxy.GetProxyList pl)) as [_ Hpaths].
    apply Hpaths. unfold pathsOf.
    destruct (Proxy.GetProxyList pl) as [|x l] eqn:E; [by apply elem_of_nil in Hu|].
    rewrite <- E in *. 
    assert (Hne : (fun p => {| URL := p; Quota := 0%Z; QuotaUsed := 0%Z |})
                    <$> Proxy.GetProxyList pl <> []) by (by rewrite E).
    destruct ((fun p => {| URL := p; Quota := 0%Z; QuotaUsed := 0%Z |})
                <$> Proxy.GetProxyList pl) eqn:E2; [done|].
    rewrite <- E2, <- list_fmap_compose.
    apply list_elem_of_fmap. exists u. done.
Qed.

Lemma LoadProxies_lists_answering_witness :
  (forall l : list (string * Proxy.Probe), reverse l ≡ₚ l)
  /\ ("http://10.0.0.2:8080", Proxy.Answer 200 (Some (1000, 1000)%Z)) ∈ threeLines
  /\ Proxy.checkProxy "http://10.0.0.2:8080" (Proxy.Answer 200 (Some (1000, 1000)%Z))
     = (false, Some {| URL := "http://10.0.0.2:8080"; Quota := 1000; QuotaUsed := 1000 |})
  /\ Proxy.GetProxyList
       (Proxy.LoadProxies Some reverse (inr (threeLines, None)) Proxy.NewProxyLoader).1
     = ["http://10.0.0.2:8080"; "http://10.0.0.1:8080"]
  /\ "http://10.0.0.2:8080"
     ∈ Proxy.GetProxyList
         (Proxy.LoadProxies Some reverse (inr (threeLines, None)) Proxy.NewProxyLoader).1.
Proof.
  assert (H1 : forall l : list (string * Proxy.Probe), reverse l ≡ₚ l)
    by (intros l; apply reverse_Permutation).
  assert (H2 : ("http://10.0.0.2:8080", Proxy.Answer 200 (Some (1000, 1000)%Z)) ∈ threeLines).
  { unfold threeLines. right. left. }
  destruct (LoadProxies_lists_answering Some reverse threeLines None H1)
    as (_ & _ & Hq & _).
  destruct (Hq "http://10.0.0.2:8080" "http://10.0.0.2:8080" 1000%Z 1000%Z H2 eq_refl)
    as [_ Hin].
  split_and!; [exact H1|exact H2|reflexivity|reflexivity|exact Hin].
Defined.

(** ** Timestamps read off frame names *)

Lemma digit_of_range (c : ascii) (d : Z) : digit_of c = Some d -> (0 <= d <= 9)%Z.
Proof.
  unfold digit_of. destruct (_ && _) eqn:E; [|done]. intros [= <-].
  apply andb_true_iff in E as [E1 E2]. apply Z.leb_le in E1, E2. lia.
Qed.

Lemma two_digits_range (s r : string) (n : Z) :
  two_digits s = Some (n, r) -> (0 <= n <= 99)%Z.
Proof.
  unfold two_digits. destruct s as [|a [|b s]]; try done.
  destruct (digit_of a) as [x|] eqn:Ha; [|done].
  destruct (digit_of b) as [y|] eqn:Hb; [|done].
  intros [= <- _]. apply digit_of_range in Ha, Hb. lia.
Qed.

Lemma hour_digits_range (s r : string) (n : Z) :
  hour_digits s = Some (n, r) -> (0 <= n <= 99)%Z.
Proof.
  unfold hour_digits. destruct (two_digits s) as [[n' r']|] eqn:E.
  - intros [= <- _]. by eapply two_digits_range.
  - destruct s as [|a s]; [done|]. destruct (digit_of a) as [x|] eqn:Ha; [|done].
    intros [= <- _]. apply digit_of_range in Ha. lia.
Qed.

Lemma Parse_15_04_05_range (value : string) (h m s : Z) :
  Parse_15_04_05 value = Some (h, m, s) ->
  (0 <= h < 24)%Z /\ (0 <= m < 60)%Z /\ (0 <= s < 60)%Z.
Proof.
  unfold Parse_15_04_05.
  destruct (hour_digits value) as [[h' r1]|] eqn:Hh; [|done]. cbn [mbind option_bind fst snd].
  destruct (24 <=? h')%Z eqn:E1; [done|].
  destruct (CutPrefix "-" r1) as [v1|]; [|done]. cbn [mbind option_bind].
  destruct (two_digits v1) as [[m' r2]|] eqn:Hm; [|done]. cbn [mbind option_bind fst snd].
  destruct (60 <=? m')%Z eqn:E2; [done|].
  destruct (CutPrefix "-" r2) as [v2|]; [|done]. cbn [mbind option_bind].
  destruct (two_digits v2) as [[s' r3]|] eqn:Hs; [|done]. cbn [mbind option_bind fst snd].
  destruct (60 <=? s')%Z eqn:E3; [done|].
  destruct (skip_fraction r3); [|done]. intros [= <- <- <-].
  apply hour_digits_range in Hh. apply two_digits_range in Hm, Hs.
  apply Z.leb_gt in E1, E2, E3. lia.
Qed.

(** X11. Whatever the path, [extractTimestampInSeconds] returns a whole
    number of seconds from 0 to 86399. A file name without the marker
    [_timestamp_] gives 0, like the name of a frame taken at the very start
    of a video. *)
Theorem extractTimestampInSeconds_range (imagePath : string) :
  (exists n : Z, (0 <= n < 86400)%Z /\ extractTimestampInSeconds imagePath = inject_Z n)
  /\ (Contains (Base imagePath) "_timestamp_" = false ->
      extractTimestampInSeconds imagePath = 0%Q).
Proof.
  unfold extractTimestampInSeconds. split.
  - destruct (Split (Base imagePath) "_timestamp_") as [|p0 [|p1 ps]];
      try (exists 0%Z; split; [lia|reflexivity]).
    destruct (Parse_15_04_05 (TrimSuffix p1 ".jpg")) as [[[h m] s]|] eqn:E;
      [|exists 0%Z; split; [lia|reflexivity]].
    apply Parse_15_04_05_range in E. eexists. split; [|reflexivity]. lia.
  - unfold Contains, Split. intros Hc. apply bool_decide_eq_false in Hc.
    destruct (Cut "_timestamp_" (Base imagePath)) as [[a b]|] eqn:E; [by destruct Hc|].
    destruct (String.length (Base imagePath)); cbn [Split_go]; [done|]. by rewrite E.
Qed.

Lemma extractTimestampInSeconds_range_witness :
  Contains (Base "frames/a.mkv/cover.jpg") "_timestamp_" = false
  /\ extractTimestampInSeconds "frames/a.mkv/cover.jpg" = 0%Q
  /\ extractTimestampInSeconds "frames/a.mkv/frame_0001_timestamp_00-00-00.jpg" = 0%Q.
Proof.
  assert (H : Contains (Base "frames/a.mkv/cover.jpg") "_timestamp_" = false) by reflexivity.
  destruct (extractTimestampInSeconds_range "frames/a.mkv/cover.jpg") as [_ H0].
  split_and!; [exact H|exact (H0 H)|reflexivity].
Defined.

(** ** Numerals read back *)

Lemma read_digits_horner (d : Decimal.uint) (rest : string) (acc : Z) (n : nat) :
  read_digits (NilEmpty.string_of_uint d +:+ rest) acc n
  = read_digits rest (horner d acc) (n + Decimal.nb_digits d).
Proof.
  revert acc n.
  induction d as [|d IH|d IH|d IH|d IH|d IH|d IH|d IH|d IH|d IH|d IH]; intros acc n;
    [cbn; by rewrite Nat.add_0_r|..];
    (cbn [NilEmpty.string_of_uint horner Decimal.nb_digits];
     match goal with
     | |- context [String ?c (NilEmpty.string_of_uint d) +:+ rest] =>
         change (String c (NilEmpty.string_of_uint d) +:+ rest)
           with (String c (NilEmpty.string_of_uint d +:+ rest))
     end;
     cbn [read_digits];
     match goal with
     | |- context [digit_of ?c] =>
         let v := eval vm_compute in (digit_of c) in
         change (digit_of c) with v; cbv iota
     end;
     rewrite IH; f_equal; try lia; f_equal; lia).
Qed.

Lemma horner_pos (d : Decimal.uint) (a : positive) :
  horner d (Z.pos a) = Z.pos (Pos.of_uint_acc d a).
Proof.
  revert a.
  induction d as [|d IH|d IH|d IH|d IH|d IH|d IH|d IH|d IH|d IH|d IH]; intros a;
    [done|..]; cbn [horner Pos.of_uint_acc];
    rewrite <- IH; f_equal; lia.
Qed.

Lemma horner_zero (d : Decimal.uint) : horner d 0 = Z.of_N (Pos.of_uint d).
Proof.
  induction d as [|d IH|d IH|d IH|d IH|d IH|d IH|d IH|d IH|d IH|d IH];
    [done|exact IH|..]; cbn [horner Pos.of_uint Z.of_N];
    match goal with
    | |- horner d ?k = _ => change k with (Z.pos (Pos.of_succ_nat (Z.to_nat k - 1)))
    end; apply horner_pos.
Qed.

Lemma fmt_d_pos (p : positive) :
  fmt_d (Z.pos p) = NilEmpty.string_of_uint (Pos.to_uint p)
  /\ Decimal.nb_digits (Pos.to_uint p) <> O.
Proof.
  unfold fmt_d. cbn [Z.to_int NilZero.string_of_int].
  pose proof (DecimalPos.Unsigned.to_uint_nonnil p) as Hnil.
  destruct (Pos.to_uint p); done.
Qed.

Lemma ParseFloat_fmt_d (z : Z) :
  (0 <= z)%Z -> ParseFloat (fmt_d z) = Some (inject_Z z).
Proof.
  intros Hz. destruct z as [|p|p]; [reflexivity| |lia].
  destruct (fmt_d_pos p) as [Hfmt Hnb].
  unfold ParseFloat.
  assert (Hsign : read_sign (fmt_d (Z.pos p)) = (false, fmt_d (Z.pos p))).
  { destruct (fmt_d_nonneg (Z.pos p) Hz) as [d ->]. apply read_sign_decimal. }
  rewrite Hsign, Hfmt.
  rewrite <- (append_nil_r (NilEmpty.string_of_uint (Pos.to_uint p))).
  rewrite read_digits_horner. cbn [read_digits].
  rewrite horner_zero, DecimalPos.Unsigned.of_to. cbn [Z.of_N].
  destruct (Decimal.nb_digits (Pos.to_uint p)) as [|k]; [done|].
  cbn. unfold scale10. change (0 - Z.of_nat 0)%Z with 0%Z. cbv iota.
  change (10 ^ 0)%Z with 1%Z. by rewrite Z.mul_1_r.
Qed.

Lemma round_half_even_Z (z : Z) : round_half_even (inject_Z z) = z.
Proof.
  unfold round_half_even.
  assert (Hf : Qfloor (inject_Z z) = z) by apply Qfloor_Z. rewrite Hf.
  assert (Hc : Qcompare (inject_Z z - inject_Z z) (1 # 2) = Lt).
  { apply (proj1 (Qlt_alt _ _)). unfold Qlt, Qminus, Qplus, Qopp, inject_Z. simpl. lia. }
  by rewrite Hc.
Qed.

Lemma fmt_f0_Z (z : Z) : (0 <= z)%Z -> fmt_f 0 (inject_Z z) = fmt_d z.
Proof.
  intros Hz. unfold fmt_f. cbv zeta. change (10 ^ Z.of_nat 0)%Z with 1%Z.
  rewrite Z.div_1_r, append_nil_r.
  assert (Hneg : flt (inject_Z z) 0%Q = false).
  { apply flt_false. change 0%Q with (inject_Z 0). by rewrite <- Zle_Qle. }
  rewrite Hneg.
  assert (Habs : (Qabs (inject_Z z) * inject_Z 1)%Q = inject_Z z).
  { unfold Qabs, Qmult, inject_Z. cbn [Qnum Qden]. rewrite Z.abs_eq by done.
    by rewrite Z.mul_1_r. }
  by rewrite Habs, round_half_even_Z.
Qed.

(** X12. A whole-number episode keeps its digits: for every integer [z]
    from 0 to 2^53, the range in which a [float64] holds every integer
    exactly, the value decoded from the JSON number [z], or from the JSON
    string that spells [z], has the number [z] and is rendered by [String]
    as the decimal digits of [z]. *)
Theorem integral_episode_roundtrip (z : Z) :
  (0 <= z <= 2 ^ 53)%Z ->
  Model.Number (Model.decodeEpisode (Model.JNumber (fmt_d z))) = inject_Z z
  /\ Model.String_ (Model.decodeEpisode (Model.JNumber (fmt_d z))) = fmt_d z
  /\ Model.decodeEpisode (Model.JString (fmt_d z))
     = Model.decodeEpisode (Model.JNumber (fmt_d z))
  /\ snd (Model.UnmarshalJSON Model.zero_EpisodeNumber (Model.JNumber (fmt_d z))) = None.
Proof.
  intros [Hz _]. unfold Model.decodeEpisode, Model.UnmarshalJSON.
  cbn [Model.Unmarshal_float64 Model.Unmarshal_string].
  rewrite (ParseFloat_fmt_d z Hz). cbn [fst snd Model.Number].
  split_and!; try done.
  rewrite String_of_numeric. by apply fmt_f0_Z.
Qed.

Lemma integral_episode_roundtrip_witness :
  (0 <= 1012 <= 2 ^ 53)%Z
  /\ Model.String_ (Model.decodeEpisode (Model.JNumber "1012")) = "1012"
  /\ Model.decodeEpisode (Model.JString "1012") = Model.decodeEpisode (Model.JNumber "1012").
Proof.
  assert (H : (0 <= 1012 <= 2 ^ 53)%Z) by lia.
  destruct (integral_episode_roundtrip 1012 H) as (_ & Hs & He & _).
  split; [exact H|]. split; [exact Hs|exact He].
Defined.

Lemma fmt_d_digits (z : Z) :
  (0 <= z)%Z ->
  exists d : Decimal.uint,
    fmt_d z = NilEmpty.string_of_uint d /\ horner d 0 = z /\ Decimal.nb_digits d <> O.
Proof.
  intros Hz. destruct z as [|p|p]; [|clear Hz|lia].
  - exists (Decimal.D0 Decimal.Nil). done.
  - destruct (fmt_d_pos p) as [Hfmt Hnb]. exists (Pos.to_uint p). split_and!; [done| |done].
    by rewrite horner_zero, DecimalPos.Unsigned.of_to.
Qed.

Lemma read_two_digits (k : nat) (acc : Z) :
  (k < 100)%nat ->
  read_digits (pad0 2 (fmt_d (Z.of_nat k))) acc 0 = ((100 * acc + Z.of_nat k)%Z, 2%nat, "").
Proof.
  intros Hk.
  assert (H : read_digits (pad0 2 (fmt_d (Z.of_nat k))) acc 0
              = ((10 * (10 * acc + Z.of_nat k / 10) + Z.of_nat k mod 10)%Z, 2%nat, "")).
  { do 100 (destruct k as [|k]; [reflexivity|]). lia. }
  rewrite H. f_equal. f_equal.
  pose proof (Z.div_mod (Z.of_nat k) 10 ltac:(lia)). lia.
Qed.

Lemma fmt_d_first_digit (z : Z) :
  (0 <= z)%Z -> exists a r, fmt_d z = String a r /\ is_Some (digit_of a).
Proof.
  intros Hz. destruct (fmt_d_nonneg z Hz) as [d ->].
  destruct d; cbn; eexists _, _; (split; [reflexivity|by eexists]).
Qed.

Lemma read_sign_digit (a : ascii) (s : string) :
  is_Some (digit_of a) -> read_sign (String a s) = (false, String a s).
Proof.
  intros [d Hd]. destruct a as [[] [] [] [] [] [] [] []]; try reflexivity;
    vm_compute in Hd; discriminate.
Qed.

(** The text [%.2f] gives a number that is not negative reads back as the
    number of hundredths it shows. *)
Lemma ParseFloat_fmt_f2 (q : Q) :
  (0 <= q)%Q ->
  ParseFloat (fmt_f 2 q) = Some (round_half_even (q * inject_Z 100) # 100).
Proof.
  intros Hq. unfold fmt_f. cbv zeta. change (10 ^ Z.of_nat 2)%Z with 100%Z.
  assert (Hneg : flt q 0%Q = false) by (by apply flt_false).
  rewrite Hneg.
  assert (Habs : Qabs q = q).
  { destruct q as [a b]. unfold Qabs. unfold Qle in Hq. cbn in Hq.
    rewrite Z.abs_eq by lia. reflexivity. }
  rewrite Habs.
  set (m := round_half_even (q * inject_Z 100)).
  assert (Hm : (0 <= m)%Z).
  { apply round_half_even_nonneg. apply Qmult_le_0_compat; [done|by vm_compute]. }
  assert (Hip : (0 <= m / 100)%Z) by (apply Z.div_pos; lia).
  assert (Hfr : (0 <= m mod 100 < 100)%Z) by (apply Z.mod_pos_bound; lia).
  destruct (fmt_d_digits (m / 100) Hip) as (d & Hd & Hval & Hnb).
  change ("" +:+ fmt_d (m / 100) +:+ "." +:+ pad0 2 (fmt_d (m mod 100)))
    with (fmt_d (m / 100) +:+ "." +:+ pad0 2 (fmt_d (m mod 100))).
  unfold ParseFloat.
  assert (Hsign : read_sign (fmt_d (m / 100) +:+ "." +:+ pad0 2 (fmt_d (m mod 100)))
                  = (false, fmt_d (m / 100) +:+ "." +:+ pad0 2 (fmt_d (m mod 100)))).
  { destruct (fmt_d_first_digit (m / 100) Hip) as (a & r & -> & Ha).
    change (String a r +:+ "." +:+ pad0 2 (fmt_d (m mod 100)))
      with (String a (r +:+ "." +:+ pad0 2 (fmt_d (m mod 100)))).
    by apply read_sign_digit. }
  rewrite Hsign, Hd, read_digits_horner, Hval.
  change ("." +:+ pad0 2 (fmt_d (m mod 100)))
    with (String "." (pad0 2 (fmt_d (m mod 100)))).
  cbn [read_digits]. change (digit_of ".") with (@None Z). cbv iota.
  rewrite <- (Z2Nat.id (m mod 100)) by lia.
  rewrite read_two_digits by lia. rewrite Z2Nat.id by lia.
  destruct (Decimal.nb_digits d) as [|k]; [done|].
  cbn [Nat.add read_exponent]. unfold scale10.
  change (0 - Z.of_nat 2)%Z with (-2)%Z. cbv iota.
  change (10 ^ 2)%positive with 100%positive.
  pose proof (Z.div_mod m 100 ltac:(lia)) as Hdm. by rewrite <- Hdm.
Qed.

(** ** The frames [ExtractFrames] returns *)

Lemma generateTimestamps_lookup (duration : float64) (numFrames : Z)
    (timestamps : list string) :
  Extractor.generateTimestamps duration numFrames = Some timestamps ->
  (0 <= numFrames)%Z
  /\ length timestamps = Z.to_nat numFrames
  /\ forall (j : nat) (ts : string),
       timestamps !! j = Some ts -> ts = timestampAt duration numFrames j.
Proof.
  unfold Extractor.generateTimestamps. cbv zeta.
  destruct (numFrames <? 0)%Z eqn:E; [done|]. apply Z.ltb_ge in E.
  intros [= <-]. split_and!; [done|by rewrite length_fmap, length_seq|].
  intros j ts Hj. rewrite list_lookup_fmap in Hj.
  destruct (seq 0 (Z.to_nat numFrames) !! j) as [k|] eqn:Hk; [|done].
  apply lookup_seq in Hk as [-> _]. by injection Hj as <-.
Qed.

Lemma extractAt_elem (file : string) (io : Extractor.VideoIO) (k : nat)
    (timestamps : list string) (frame : string) :
  frame ∈ Extractor.extractAt file io k timestamps ->
  exists (j : nat) (ts : string),
    timestamps !! j = Some ts
    /\ Extractor.ffmpegOk io (k + j) = true
    /\ frame = Extractor.outputFrame file (k + j) ts.
Proof.
  revert k. induction timestamps as [|ts rest IH]; intros k Hin.
  - by apply elem_of_nil in Hin.
  - cbn [Extractor.extractAt] in Hin. apply elem_of_app in Hin as [Hin|Hin].
    + destruct (Extractor.ffmpegOk io k) eqn:Hok; [|by apply elem_of_nil in Hin].
      apply list_elem_of_singleton in Hin as ->.
      exists O, ts. rewrite Nat.add_0_r. done.
    + destruct (IH (S k) Hin) as (j & ts' & Hj & Hok & ->).
      exists (S j), ts'. rewrite Nat.add_succ_r. done.
Qed.

Lemma extractAt_length (file : string) (io : Extractor.VideoIO) (k : nat)
    (timestamps : list string) :
  (length (Extractor.extractAt file io k timestamps) <= length timestamps)%nat.
Proof.
  revert k. induction timestamps as [|ts rest IH]; intros k; [done|].
  cbn [Extractor.extractAt]. rewrite length_app. specialize (IH (S k)).
  destruct (Extractor.ffmpegOk io k); simpl; lia.
Qed.

Lemma extractedFrom_cons numFrames x files frame :
  extractedFrom numFrames files frame -> extractedFrom numFrames (x :: files) frame.
Proof.
  intros (file & io & d & i & Hin & H). exists file, io, d, i. split; [by right|done].
Qed.

Lemma extractFiles_frames (numFrames : Z) (files : list (string * Extractor.VideoIO))
    (acc out : list string) :
  Extractor.extractFiles numFrames files acc = Some out ->
  exists more : list string,
    out = (acc ++ more)%list
    /\ Forall (extractedFrom numFrames files) more
    /\ (length more <= Z.to_nat numFrames * length files)%nat.
Proof.
  revert acc. induction files as [|[file io] files IH]; intros acc Hout.
  - injection Hout as <-. exists []. split_and!; [by rewrite app_nil_r|done|simpl; lia].
  - cbn [Extractor.extractFiles] in Hout.
    assert (Hskip : Extractor.extractFiles numFrames files acc = Some out ->
              exists more : list string,
                out = (acc ++ more)%list
                /\ Forall (extractedFrom numFrames ((file, io) :: files)) more
                /\ (length more <= Z.to_nat numFrames * length ((file, io) :: files))%nat).
    { intros H. destruct (IH acc H) as (more & -> & Hall & Hlen).
      exists more. split_and!; [done| |simpl; lia].
      eapply Forall_impl; [exact Hall|]. intros f. apply extractedFrom_cons. }
    destruct (Extractor.mkdirOk io) eqn:Hmk; cbn [negb] in Hout; [|by apply Hskip].
    destruct (Extractor.probed io) as [duration|] eqn:Hpr; [|by apply Hskip].
    destruct (Extractor.generateTimestamps duration numFrames) as [tss|] eqn:Hts;
      [|done].
    apply generateTimestamps_lookup in Hts as (Hn & Hlen & Hat).
    destruct (IH _ Hout) as (more & -> & Hall & Hmore).
    exists (Extractor.extractAt file io 0 tss ++ more)%list.
    split_and!; [by rewrite app_assoc| |].
    + apply Forall_app. split.
      * apply Forall_forall. intros frame Hin.
        apply extractAt_elem in Hin as (j & ts & Hj & Hok & ->). cbn [Nat.add] in *.
        exists file, io, duration, j. split_and!; try done; [by left| |].
        -- apply lookup_lt_Some in Hj. lia.
        -- by rewrite (Hat j ts Hj).
      * eapply Forall_impl; [exact Hall|]. intros f. apply extractedFrom_cons.
    + rewrite length_app. pose proof (extractAt_length file io 0 tss). simpl. lia.
Qed.

Lemma extractFiles_no_panic (numFrames : Z) (files : list (string * Extractor.VideoIO))
    (acc : list string) :
  (0 <= numFrames)%Z -> is_Some (Extractor.extractFiles numFrames files acc).
Proof.
  intros Hn. revert acc. induction files as [|[file io] files IH]; intros acc; [by eexists|].
  cbn [Extractor.extractFiles]. destruct (negb _); [apply IH|].
  destruct (Extractor.probed io) as [duration|]; [|apply IH].
  unfold Extractor.generateTimestamps. cbv zeta.
  destruct (numFrames <? 0)%Z eqn:E; [apply Z.ltb_lt in E; lia|]. apply IH.
Qed.

(** X13. [ExtractFrames] never returns an empty list, and when the number
    of frames asked for is not negative it does not panic. Every path it
    returns is the frame number [i], below the number asked for, of one of
    the files found, for which the directory could be made, the duration
    read and ffmpeg run; its timestamp is the one [generateTimestamps] gives
    that number: [10.00] for the first frame, whatever the duration, and
    [i * duration / numFrames] with two decimals for the others. No more
    frames are returned than the number asked for times the number of
    files. *)
Theorem ExtractFrames_frames (numFrames : Z) (ffmpeg ffprobe folder : option string)
    (files : option (list (string * Extractor.VideoIO))) :
  ((0 <= numFrames)%Z ->
   Extractor.ExtractFrames numFrames ffmpeg ffprobe folder files <> Extractor.Panic)
  /\ forall frames : list string,
       Extractor.ExtractFrames numFrames ffmpeg ffprobe folder files
       = Extractor.Returns frames ->
       frames <> []
       /\ exists fl : list (string * Extractor.VideoIO),
            files = Some fl
            /\ Forall (extractedFrom numFrames fl) frames
            /\ (length frames <= Z.to_nat numFrames * length fl)%nat.
Proof.
  unfold Extractor.ExtractFrames. split.
  - intros Hn. destruct ffmpeg, ffprobe, folder; try done.
    destruct files as [[|x fl]|]; try done.
    destruct (extractFiles_no_panic numFrames (x :: fl) [] Hn) as [out ->].
    by destruct out.
  - intros frames. destruct ffmpeg, ffprobe, folder; try done.
    destruct files as [[|x fl]|]; try done.
    destruct (Extractor.extractFiles numFrames (x :: fl) []) as [out|] eqn:E; [|done].
    destruct out as [|f out]; [done|]. intros [= <-]. split; [done|].
    apply extractFiles_frames in E as (more & Hout & Hall & Hlen).
    cbn [app] in Hout. subst more. eauto.
Qed.

Lemma ExtractFrames_frames_witness :
  (0 <= 3)%Z
  /\ Extractor.ExtractFrames 3 None None None (Some threeVideos)
     = Extractor.Returns
         ["frames/a.mkv/frame_0001_timestamp_00-00-10.jpg";
          "frames/a.mkv/frame_0002_timestamp_00-08-00.jpg";
          "frames/a.mkv/frame_0003_timestamp_00-16-00.jpg";
          "frames/b.mkv/frame_0001_timestamp_00-00-10.jpg";
          "frames/b.mkv/frame_0003_timestamp_00-16-00.jpg"]
  /\ Extractor.ExtractFrames 3 None None None (Some threeVideos) <> Extractor.Panic
  /\ Forall (extractedFrom 3 threeVideos)
       ["frames/a.mkv/frame_0001_timestamp_00-00-10.jpg";
        "frames/a.mkv/frame_0002_timestamp_00-08-00.jpg";
        "frames/a.mkv/frame_0003_timestamp_00-16-00.jpg";
        "frames/b.mkv/frame_0001_timestamp_00-00-10.jpg";
        "frames/b.mkv/frame_0003_timestamp_00-16-00.jpg"].
Proof.
  assert (H0 : (0 <= 3)%Z) by lia.
  assert (H1 : Extractor.ExtractFrames 3 None None None (Some threeVideos)
               = Extractor.Returns
                   ["frames/a.mkv/frame_0001_timestamp_00-00-10.jpg";
                    "frames/a.mkv/frame_0002_timestamp_00-08-00.jpg";
                    "frames/a.mkv/frame_0003_timestamp_00-16-00.jpg";
                    "frames/b.mkv/frame_0001_timestamp_00-00-10.jpg";
                    "frames/b.mkv/frame_0003_timestamp_00-16-00.jpg"])
    by (by vm_compute).
  destruct (ExtractFrames_frames 3 None None None (Some threeVideos)) as [Hp Hr].
  destruct (Hr _ H1) as (_ & fl & [= <-] & Hall & _).
  split_and!; [exact H0|exact H1|exact (Hp H0)|exact Hall].
Defined.

(** ** From the extractor to the identifier *)

Lemma round_half_even_near (x : Q) :
  (inject_Z (round_half_even x) - (1 # 2) <= x
   /\ x <= inject_Z (round_half_even x) + (1 # 2))%Q.
Proof.
  unfold round_half_even. cbv zeta.
  pose proof (Qfloor_le x) as Hlo. pose proof (Qlt_floor x) as Hhi.
  pose proof (inject_Z_plus (Qfloor x) 1) as Hplus.
  change (inject_Z 1) with 1%Q in Hplus.
  destruct (Qcompare (x - inject_Z (Qfloor x)) (1 # 2)) eqn:Hc;
    [apply Qeq_alt in Hc; destruct (Z.even (Qfloor x))
    |apply Qlt_alt in Hc|apply Qgt_alt in Hc];
    revert Hlo Hhi Hplus Hc;
    generalize (inject_Z (Qfloor x + 1)); generalize (inject_Z (Qfloor x));
    intros a b Hlo Hhi Hplus Hc; subst b; split; lra.
Qed.

Lemma hundredths (m : Z) : ((m # 100) * 100 == inject_Z m)%Q.
Proof. unfold Qeq, Qmult, inject_Z. simpl. lia. Qed.

Lemma share_le (duration : Q) (n i : Z) :
  (0 <= duration)%Q -> (0 <= i <= n)%Z -> (0 < n)%Z ->
  (0 <= inject_Z i * (duration / inject_Z n)
   /\ inject_Z i * (duration / inject_Z n) <= duration)%Q.
Proof.
  intros Hd Hi Hn.
  assert (Hnq : (0 < inject_Z n)%Q) by (change 0%Q with (inject_Z 0); by rewrite <- Zlt_Qlt).
  assert (Hiq : (0 <= inject_Z i)%Q) by (change 0%Q with (inject_Z 0); rewrite <- Zle_Qle; lia).
  assert (Hin : (inject_Z i <= inject_Z n)%Q) by (rewrite <- Zle_Qle; lia).
  assert (Hs : (0 <= duration / inject_Z n)%Q).
  { apply Qle_shift_div_l; [done|]. lra. }
  split.
  - by apply Qmult_le_0_compat.
  - assert (H1 : (inject_Z i * (duration / inject_Z n)
                  <= inject_Z n * (duration / inject_Z n))%Q)
      by (by apply Qmult_le_compat_r).
    assert (H2 : (inject_Z n * (duration / inject_Z n) == duration)%Q).
    { apply Qmult_div_r. lra. }
    lra.
Qed.

(** X14. A frame written by the extractor is read by the identifier as
    meant. For a video with an ordinary file name that lasts at most 86399
    seconds and a frame number below the number of frames asked for, the
    timestamp [generateTimestamps] prints reads back as a number [q]; the
    identifier derives from the frame's path the file name of the video and,
    as timestamp, the whole seconds of [q]. For the first frame [q] is 10,
    whatever the duration; for every other frame [q] lies within half a
    hundredth of [i * duration / numFrames]. *)
Theorem extracted_frame_decodes (file : string) (duration : float64) (numFrames : Z)
    (i : nat) :
  simpleName (Base file) = true ->
  (0 <= duration)%Q -> (duration <= 86399)%Q -> (i < Z.to_nat numFrames)%nat ->
  exists q : Q,
    ParseFloat (timestampAt duration numFrames i) = Some q
    /\ frameVideo (Extractor.outputFrame file i (timestampAt duration numFrames i))
       = Base file
    /\ frameTimestamp (Extractor.outputFrame file i (timestampAt duration numFrames i))
       = inject_Z (Qfloor q)
    /\ (i = O -> (q == 10)%Q)
    /\ (i <> O ->
        (inject_Z (Z.of_nat i) * (duration / inject_Z numFrames) - (1 # 200) <= q
         /\ q <= inject_Z (Z.of_nat i) * (duration / inject_Z numFrames) + (1 # 200))%Q).
Proof.
  intros Hv Hd0 Hd1 Hi. destruct i as [|i].
  - exists (1000 # 100). assert (Hts : ParseFloat (fmt_f 2 10%Q) = Some (1000 # 100))
      by reflexivity.
    change (timestampAt duration numFrames 0) with (fmt_f 2 10%Q).
    destruct (outputFrame_read_back file 0 (fmt_f 2 10%Q) (1000 # 100) Hv Hts
                ltac:(by vm_compute) ltac:(by vm_compute)) as (_ & H1 & _ & H2).
    split_and!; [done|done|done|by intros _|done].
  - set (v := (inject_Z (Z.of_nat (S i)) * (duration / inject_Z numFrames))%Q).
    destruct (share_le duration numFrames (Z.of_nat (S i)) Hd0 ltac:(lia) ltac:(lia))
      as [Hv0 Hv1]. fold v in Hv0, Hv1.
    set (m := round_half_even (v * inject_Z 100)).
    assert (Hts : ParseFloat (timestampAt duration numFrames (S i)) = Some (m # 100))
      by (by apply ParseFloat_fmt_f2).
    destruct (round_half_even_near (v * inject_Z 100)) as [Hn1 Hn2]. fold m in Hn1, Hn2.
    pose proof (hundredths m) as Hm.
    change (inject_Z 100) with 100%Q in Hn1, Hn2.
    assert (Hm0 : (0 <= inject_Z m)%Q).
    { change 0%Q with (inject_Z 0). rewrite <- Zle_Qle. apply round_half_even_nonneg.
      apply Qmult_le_0_compat; [done|by vm_compute]. }
    assert (Hbounds : (0 <= m # 100 /\ m # 100 < 86400
                       /\ v - (1 # 200) <= m # 100 /\ m # 100 <= v + (1 # 200))%Q).
    { revert Hn1 Hn2 Hm Hm0. generalize (inject_Z m). generalize (m # 100).
      intros q im Hn1 Hn2 Hm Hm0. split_and!; lra. }
    destruct Hbounds as (Hq0 & Hq86 & Hqlo & Hqhi).
    assert (Hq1 : (Qfloor (m # 100) < 86400)%Z).
    { pose proof (Qfloor_le (m # 100)) as Hfl.
      rewrite Zlt_Qlt. change (inject_Z 86400) with 86400%Q.
      revert Hfl Hq86. generalize (inject_Z (Qfloor (m # 100))). generalize (m # 100).
      intros q fl Hfl Hq86. lra. }
    destruct (outputFrame_read_back file (S i) (timestampAt duration numFrames (S i))
                (m # 100) Hv Hts Hq0 Hq1) as (_ & H1 & _ & H2).
    exists (m # 100). split_and!; [done|done|done|done|].
    intros _. by split.
Qed.

Lemma extracted_frame_decodes_witness :
  simpleName (Base "videos/a.mkv") = true
  /\ (0 <= 1440)%Q /\ (1440 <= 86399)%Q /\ (1 < Z.to_nat 3)%nat
  /\ Extractor.outputFrame "videos/a.mkv" 1 (timestampAt 1440 3 1)
     = "frames/a.mkv/frame_0002_timestamp_00-08-00.jpg"
  /\ frameVideo (Extractor.outputFrame "videos/a.mkv" 1 (timestampAt 1440 3 1)) = "a.mkv"
  /\ exists q : Q,
       frameTimestamp (Extractor.outputFrame "videos/a.mkv" 1 (timestampAt 1440 3 1))
       = inject_Z (Qfloor q)
       /\ (479 <= q)%Q /\ (q <= 481)%Q.
Proof.
  assert (H1 : simpleName (Base "videos/a.mkv") = true) by reflexivity.
  assert (H2 : (0 <= 1440)%Q) by (by vm_compute).
  assert (H3 : (1440 <= 86399)%Q) by (by vm_compute).
  assert (H4 : (1 < Z.to_nat 3)%nat) by (vm_compute; lia).
  destruct (extracted_frame_decodes "videos/a.mkv" 1440 3 1 H1 H2 H3 H4)
    as (q & _ & Hv & Ht & _ & Hq).
  destruct (Hq ltac:(done)) as [Hq1 Hq2].
  split_and!; [exact H1|exact H2|exact H3|exact H4|by vm_compute|exact Hv|].
  exists q. split; [exact Ht|].
  assert (Hval : (inject_Z (Z.of_nat 1) * (1440 / inject_Z 3) == 480)%Q) by (by vm_compute).
  split; lra.
Defined.

(** ** What is shown and what is counted *)

(** X15. The renamer votes on what the identifier reported: for the
    record built from an accepted candidate, the title the renamer counts
    (English, else Romaji, else Native) is the title shown in the match
    report, the episode label it counts is the label shown there, and the
    video the record is filed under is the video named there. *)
Theorem renamer_counts_what_was_reported (m : Model.TraceMoeResult) (t : float64)
    (video frame p : string) :
  let mi := buildMatchInfo m t video frame p in
  Renamer.titleOf mi = displayTitle m
  /\ episodeLabel mi = Model.String_ (Model.Episode m)
  /\ VideoName mi = video
  /\ matchText m t video frame p
     = nl +:+ "✅ Match Found!" +:+ nl +:+
       "   - Title: " +:+ Renamer.titleOf mi +:+ nl +:+
       "   - Episode: " +:+ episodeLabel mi +:+ nl +:+
       "   - Similarity: " +:+ fmt_f 2 (Similarity mi) +:+ "%" +:+ nl +:+
       "   - Timestamp: " +:+ fmt_f 2 (Timestamp mi) +:+ " (matches range "
         +:+ MatchedRange mi +:+ ")" +:+ nl +:+
       "   - Video: " +:+ VideoName mi +:+ nl +:+
       "   - Frame: " +:+ FrameName mi +:+ nl +:+
       "   - Proxy Used: " +:+ ProxyUsed mi +:+ nl.
Proof.
  cbv zeta.
  assert (Ht : Renamer.titleOf (buildMatchInfo m t video frame p) = displayTitle m).
  { unfold Renamer.titleOf, displayTitle.
    cbn [buildMatchInfo TitleEnglish TitleRomaji TitleNative].
    destruct (String.eqb (Model.English (Model.Title_ (Model.Anilist m))) "") eqn:E; [|by rewrite E].
    by destruct (String.eqb (Model.Romaji (Model.Title_ (Model.Anilist m))) ""). }
  split_and!; [exact Ht|reflexivity|reflexivity|].
  rewrite Ht. unfold matchText, episodeLabel.
  cbn [buildMatchInfo Episode Similarity Timestamp MatchedRange VideoName FrameName ProxyUsed].
  by rewrite !append_assoc.
Qed.
